(** * TraceSlits: a shallow embedding of [pypeit/traceslits.py]

    The class [TraceSlits] drives slit/order tracing.  Its methods mutate
    the attributes of one instance and may raise; they are embedded here as
    computations in a state-and-exception monad over a record holding the
    attributes.  The numerical kernels of [pypeit.core.trace_slits],
    [pypeit.core.pixels] and [pypeit.utils] are collaborators of the class:
    they are gathered in the interface record [Kernels], taken as functions
    of their arguments, and every statement is proved for all
    implementations of it.

    Conventions:
    - pixel values and the other floating-point numbers are binary64
      floats, Rocq's primitive [float]; numpy's treatment of NaN in the
      reductions the class uses is written out;
    - the label images hold numpy int64 labels, taken as integers [Z], and
      counters and parameters are [Z].  The arithmetic of the class on
      labels is written without wrap-around, as int64 computes it while
      the results stay in range; [fits_int64] and the predicates built on
      it state that range;
    - [lcen], [rcen] and the coefficient arrays, which the class reads one
      column at a time, are held by columns;
    - numpy's errors on the operations the class performs itself are
      written out: reductions of empty arrays, indices out of range,
      operands that do not broadcast, arithmetic on [None];
    - [msgs.info] only logs and is left out; [msgs.error] raises;
    - [scipy.ndimage.uniform_filter] is a collaborator like the kernels;
      module [Ndimage] holds a plain moving average, used as a stand-in
      for it in the examples. *)

From Stdlib Require Import Floats.
From Stdlib Require Uint63.
From Stdlib Require Import List ZArith String Bool Lia.
From Stdlib Require Import Sorting.Sorted Permutation.
Import ListNotations.

Set Warnings "-inexact-float".

Local Open Scope Z_scope.

(** ** Exceptions and results *)

Inductive exn : Type :=
| ValueError (msg : string)
| TypeError (msg : string)
| IndexError (msg : string)
| NameError (name : string)
| AttributeError (msg : string)
| PypeItError (msg : string).

Inductive result (A : Type) : Type :=
| Ok (a : A)
| Raise (e : exn).

Arguments Ok {A} a.
Arguments Raise {A} e.

Definition rbind {A B} (r : result A) (k : A -> result B) : result B :=
  match r with
  | Ok a => k a
  | Raise e => Raise e
  end.

Definition of_option {A} (e : exn) (o : option A) : result A :=
  match o with
  | Some a => Ok a
  | None => Raise e
  end.

(** ** numpy reductions and 1-D broadcasting on columns of floats *)

(** A Python integer used where a float is expected. *)
Definition float_of_nat (n : nat) : float :=
  PrimFloat.of_uint63 (Uint63.of_Z (Z.of_nat n)).

Arguments float_of_nat : simpl never.

Module Np.

Local Open Scope float_scope.

Definition zero_size (op : string) : exn :=
  ValueError (String.append "zero-size array to reduction operation "
                            (String.append op " which has no identity")).

(** [np.minimum] and [np.maximum]: a NaN operand is the result. *)
Definition fmin (a b : float) : float :=
  if PrimFloat.is_nan a then a
  else if PrimFloat.is_nan b then b
  else if a <=? b then a else b.

Definition fmax (a b : float) : float :=
  if PrimFloat.is_nan a then a
  else if PrimFloat.is_nan b then b
  else if a <=? b then b else a.

(** [np.min] and [np.max] raise on an empty array. *)
Definition min (l : list float) : result float :=
  match l with
  | [] => Raise (zero_size "minimum")
  | x :: t => Ok (fold_left fmin t x)
  end.

Definition max (l : list float) : result float :=
  match l with
  | [] => Raise (zero_size "maximum")
  | x :: t => Ok (fold_left fmax t x)
  end.

Fixpoint insert (x : float) (l : list float) : list float :=
  match l with
  | [] => [x]
  | y :: t => if x <=? y then x :: l else y :: insert x t
  end.

Definition sort (l : list float) : list float := fold_right insert [] l.

(** [np.median]: NaN when an entry is NaN or the array is empty;
    otherwise the middle element of the sorted data, or the mean of the
    two middle elements. *)
Definition median (l : list float) : float :=
  if existsb PrimFloat.is_nan l then PrimFloat.nan
  else
    let s := sort l in
    let n := List.length s in
    if (n =? 0)%nat then PrimFloat.nan
    else if Nat.even n
         then (nth (n / 2 - 1) s 0 + nth (n / 2) s 0) / 2
         else nth (n / 2) s 0.

(** [a.mean(0)] for one column: the entries added in row order, divided
    by their number (NaN when there is none). *)
Definition mean (l : list float) : float :=
  fold_left PrimFloat.add l 0 / float_of_nat (List.length l).

Fixpoint map2 {A B C} (f : A -> B -> C) (a : list A) (b : list B) : list C :=
  match a, b with
  | x :: a', y :: b' => f x y :: map2 f a' b'
  | _, _ => []
  end.

(** Elementwise binary operation on two 1-D arrays with numpy's
    broadcasting rule: the lengths agree, or one of them is 1. *)
Definition broadcast2 {A B C} (f : A -> B -> C) (a : list A) (b : list B)
  : result (list C) :=
  if Nat.eqb (List.length a) (List.length b) then Ok (map2 f a b)
  else match a, b with
       | [x], _ => Ok (map (f x) b)
       | _, [y] => Ok (map (fun x => f x y) a)
       | _, _ => Raise (ValueError "operands could not be broadcast together")
       end.

(** [dst[:, k] = src] for a destination column of [n] rows. *)
Definition assign_column (n : nat) (src : list float)
  : result (list float) :=
  if Nat.eqb (List.length src) n then Ok src
  else match src with
       | [x] => Ok (repeat x n)
       | _ => Raise (ValueError "could not broadcast input array")
       end.

(** Indices where a mask equals zero: [np.where(mask == 0)[0]]. *)
Fixpoint where_zero_from (i : nat) (mask : list Z) : list nat :=
  match mask with
  | [] => []
  | m :: t => if Z.eqb m 0 then i :: where_zero_from (S i) t
              else where_zero_from (S i) t
  end.

Definition where_zero (mask : list Z) : list nat := where_zero_from 0 mask.

(** [mask[o] = v] for [o] in range. *)
Fixpoint set_item (mask : list Z) (o : nat) (v : Z) : list Z :=
  match mask, o with
  | [], _ => []
  | _ :: t, O => v :: t
  | m :: t, S o' => m :: set_item t o' v
  end.

(** Fancy indexing along the axis an array is held by: [a[:, idx]] for an
    array held by columns, [a[idx, :]] for one held by rows. *)
Fixpoint take {A} (a : list A) (idx : list nat) : result (list A) :=
  match idx with
  | [] => Ok []
  | o :: rest =>
      match nth_error a o with
      | None => Raise (IndexError "index is out of bounds")
      | Some c => rbind (take a rest) (fun t => Ok (c :: t))
      end
  end.

End Np.

(** ** A [for] loop over a range threading a value and propagating
    exceptions *)

Fixpoint for_each {S : Type} (body : nat -> S -> result S)
         (idx : list nat) (s : S) : result S :=
  match idx with
  | [] => Ok s
  | o :: rest => rbind (body o s) (for_each body rest)
  end.

(** ** Data model *)

(** A 2-D float image indexed [row][column] (row = spectral position). *)
Definition image : Type := list (list float).

(** The integer edge-label image [edgearr], indexed [row][column]. *)
Definition labels : Type := list (list Z).

(** [lcen], [rcen]: arrays of shape [nrow, nslit], held by columns, one
    column of [nrow] values for each slit. *)
Definition slitarr : Type := list (list float).

(** The pixel-location array, indexed [row][column][k]. *)
Definition pixlocn_t : Type := list (list (list float)).

(** The dictionary guiding multi-slit work, [left,right][xval][edge]. *)
Definition tc_dict_t : Type := list (string * list (list float)).

(** User-supplied slits: [xleft, xright] pairs. *)
Definition user_slits_t : Type := list (float * float).

(** The recognised keys of the [TraceSlitsPar] parameter set. *)
Record TraceSlitsPar : Type := {
  par_function : string;
  par_polyorder : Z;
  par_medrep : Z;
  par_number : Z;
  par_trim : float * float;
  par_maxgap : option Z;
  par_maxshift : option float;
  par_pad : Z;
  par_sigdetect : float;
  par_fracignore : float;
  par_min_slit_width : float;
  par_diffpolyorder : Z;
  par_single : list float;
  par_sobel_mode : string;
  par_pcatype : string;
  par_pcapar : list Z;
  par_pcaextrap : list Z
}.

(** [lmin], [lmax], [rmin], [rmax]: lowest and highest edge ids per side. *)
Record lrminx : Type := {
  lmin : Z;
  lmax : Z;
  rmin : Z;
  rmax : Z
}.

(** What [trace_slits.fit_edges] returns for one side:
    [coeff] (held by columns, one per edge), [nmbrarr], [diffarr],
    [wghtarr]. *)
Record fit_side : Type := {
  coeff : list (list float);
  nmbrarr : list float;
  diffarr : list float;
  wghtarr : list float
}.

(** Set by [_synchronize]: [lcent], [rcent] of shape [norder, nrow] (held
    by rows, one per order), [gord] and [slitcen]. *)
Record sync_out : Type := {
  lcent : list (list float);
  rcent : list (list float);
  gord : list Z;
  slitcen : list (list float)
}.

(** The arrays written by [_make_pixel_arrays].  The constructor leaves
    [ximg] and [edge_mask] undefined, so the instance holds them only once
    [_make_pixel_arrays] has run: the attribute [pix] is [None] before. *)
Record pixel_arrays : Type := {
  pixcen : list (list Z);
  pixwid : list Z;
  lordpix : list (list Z);
  rordpix : list (list Z);
  slitpix : list (list Z);
  ximg : image;
  edge_mask : list (list bool)
}.

(** The dictionary built by [_fill_tslits_dict]. *)
Record tslits_dict_t : Type := {
  d_lcen : option slitarr;
  d_rcen : option slitarr;
  d_pix : pixel_arrays;
  d_extrapord : option (list bool)
}.

(** The attributes of a [TraceSlits] instance. *)
Record TraceSlits : Type := {
  mstrace : image;
  pixlocn : pixlocn_t;
  par : TraceSlitsPar;
  det : option Z;
  ednum : Z;
  binbpx : image;
  binarr : image;
  lcen : option slitarr;
  rcen : option slitarr;
  tc_dict : option tc_dict_t;
  edgearr : labels;
  edgearrcp : labels;
  siglev : option image;
  steps : list string;
  extrapord : option (list bool);
  pix : option pixel_arrays;
  lcen_tweak : option slitarr;
  rcen_tweak : option slitarr;
  user_set : option bool;
  lr : lrminx;
  lcnt : Z;
  rcnt : Z;
  lfit : fit_side;
  rfit : fit_side;
  sync : sync_out;
  tslits_dict : option tslits_dict_t
}.

Definition set_binarr (v : image) (s : TraceSlits) : TraceSlits :=
  {| mstrace := mstrace s; pixlocn := pixlocn s; par := par s; det := det s;
     ednum := ednum s; binbpx := binbpx s; binarr := v; lcen := lcen s;
     rcen := rcen s; tc_dict := tc_dict s; edgearr := edgearr s;
     edgearrcp := edgearrcp s; siglev := siglev s; steps := steps s;
     extrapord := extrapord s; pix := pix s; lcen_tweak := lcen_tweak s;
     rcen_tweak := rcen_tweak s; user_set := user_set s; lr := lr s;
     lcnt := lcnt s; rcnt := rcnt s; lfit := lfit s; rfit := rfit s;
     sync := sync s; tslits_dict := tslits_dict s |}.

Definition set_lcen (v : option slitarr) (s : TraceSlits) : TraceSlits :=
  {| mstrace := mstrace s; pixlocn := pixlocn s; par := par s; det := det s;
     ednum := ednum s; binbpx := binbpx s; binarr := binarr s; lcen := v;
     rcen := rcen s; tc_dict := tc_dict s; edgearr := edgearr s;
     edgearrcp := edgearrcp s; siglev := siglev s; steps := steps s;
     extrapord := extrapord s; pix := pix s; lcen_tweak := lcen_tweak s;
     rcen_tweak := rcen_tweak s; user_set := user_set s; lr := lr s;
     lcnt := lcnt s; rcnt := rcnt s; lfit := lfit s; rfit := rfit s;
     sync := sync s; tslits_dict := tslits_dict s |}.

Definition set_rcen (v : option slitarr) (s : TraceSlits) : TraceSlits :=
  {| mstrace := mstrace s; pixlocn := pixlocn s; par := par s; det := det s;
     ednum := ednum s; binbpx := binbpx s; binarr := binarr s;
     lcen := lcen s; rcen := v; tc_dict := tc_dict s; edgearr := edgearr s;
     edgearrcp := edgearrcp s; siglev := siglev s; steps := steps s;
     extrapord := extrapord s; pix := pix s; lcen_tweak := lcen_tweak s;
     rcen_tweak := rcen_tweak s; user_set := user_set s; lr := lr s;
     lcnt := lcnt s; rcnt := rcnt s; lfit := lfit s; rfit := rfit s;
     sync := sync s; tslits_dict := tslits_dict s |}.

Definition set_tc_dict (v : option tc_dict_t) (s : TraceSlits) : TraceSlits :=
  {| mstrace := mstrace s; pixlocn := pixlocn s; par := par s; det := det s;
     ednum := ednum s; binbpx := binbpx s; binarr := binarr s;
     lcen := lcen s; rcen := rcen s; tc_dict := v; edgearr := edgearr s;
     edgearrcp := edgearrcp s; siglev := siglev s; steps := steps s;
     extrapord := extrapord s; pix := pix s; lcen_tweak := lcen_tweak s;
     rcen_tweak := rcen_tweak s; user_set := user_set s; lr := lr s;
     lcnt := lcnt s; rcnt := rcnt s; lfit := lfit s; rfit := rfit s;
     sync := sync s; tslits_dict := tslits_dict s |}.

Definition set_edgearr (v : labels) (s : TraceSlits) : TraceSlits :=
  {| mstrace := mstrace s; pixlocn := pixlocn s; par := par s; det := det s;
     ednum := ednum s; binbpx := binbpx s; binarr := binarr s;
     lcen := lcen s; rcen := rcen s; tc_dict := tc_dict s; edgearr := v;
     edgearrcp := edgearrcp s; siglev := siglev s; steps := steps s;
     extrapord := extrapord s; pix := pix s; lcen_tweak := lcen_tweak s;
     rcen_tweak := rcen_tweak s; user_set := user_set s; lr := lr s;
     lcnt := lcnt s; rcnt := rcnt s; lfit := lfit s; rfit := rfit s;
     sync := sync s; tslits_dict := tslits_dict s |}.

Definition set_edgearrcp (v : labels) (s : TraceSlits) : TraceSlits :=
  {| mstrace := mstrace s; pixlocn := pixlocn s; par := par s; det := det s;
     ednum := ednum s; binbpx := binbpx s; binarr := binarr s;
     lcen := lcen s; rcen := rcen s; tc_dict := tc_dict s;
     edgearr := edgearr s; edgearrcp := v; siglev := siglev s;
     steps := steps s; extrapord := extrapord s; pix := pix s;
     lcen_tweak := lcen_tweak s; rcen_tweak := rcen_tweak s;
     user_set := user_set s; lr := lr s; lcnt := lcnt s; rcnt := rcnt s;
     lfit := lfit s; rfit := rfit s; sync := sync s;
     tslits_dict := tslits_dict s |}.

Definition set_siglev (v : option image) (s : TraceSlits) : TraceSlits :=
  {| mstrace := mstrace s; pixlocn := pixlocn s; par := par s; det := det s;
     ednum := ednum s; binbpx := binbpx s; binarr := binarr s;
     lcen := lcen s; rcen := rcen s; tc_dict := tc_dict s;
     edgearr := edgearr s; edgearrcp := edgearrcp s; siglev := v;
     steps := steps s; extrapord := extrapord s; pix := pix s;
     lcen_tweak := lcen_tweak s; rcen_tweak := rcen_tweak s;
     user_set := user_set s; lr := lr s; lcnt := lcnt s; rcnt := rcnt s;
     lfit := lfit s; rfit := rfit s; sync := sync s;
     tslits_dict := tslits_dict s |}.

Definition set_steps (v : list string) (s : TraceSlits) : TraceSlits :=
  {| mstrace := mstrace s; pixlocn := pixlocn s; par := par s; det := det s;
     ednum := ednum s; binbpx := binbpx s; binarr := binarr s;
     lcen := lcen s; rcen := rcen s; tc_dict := tc_dict s;
     edgearr := edgearr s; edgearrcp := edgearrcp s; siglev := siglev s;
     steps := v; extrapord := extrapord s; pix := pix s;
     lcen_tweak := lcen_tweak s; rcen_tweak := rcen_tweak s;
     user_set := user_set s; lr := lr s; lcnt := lcnt s; rcnt := rcnt s;
     lfit := lfit s; rfit := rfit s; sync := sync s;
     tslits_dict := tslits_dict s |}.

Definition set_extrapord (v : option (list bool)) (s : TraceSlits) : TraceSlits :=
  {| mstrace := mstrace s; pixlocn := pixlocn s; par := par s; det := det s;
     ednum := ednum s; binbpx := binbpx s; binarr := binarr s;
     lcen := lcen s; rcen := rcen s; tc_dict := tc_dict s;
     edgearr := edgearr s; edgearrcp := edgearrcp s; siglev := siglev s;
     steps := steps s; extrapord := v; pix := pix s;
     lcen_tweak := lcen_tweak s; rcen_tweak := rcen_tweak s;
     user_set := user_set s; lr := lr s; lcnt := lcnt s; rcnt := rcnt s;
     lfit := lfit s; rfit := rfit s; sync := sync s;
     tslits_dict := tslits_dict s |}.

Definition set_pix (v : pixel_arrays) (s : TraceSlits) : TraceSlits :=
  {| mstrace := mstrace s; pixlocn := pixlocn s; par := par s; det := det s;
     ednum := ednum s; binbpx := binbpx s; binarr := binarr s;
     lcen := lcen s; rcen := rcen s; tc_dict := tc_dict s;
     edgearr := edgearr s; edgearrcp := edgearrcp s; siglev := siglev s;
     steps := steps s; extrapord := extrapord s; pix := Some v;
     lcen_tweak := lcen_tweak s; rcen_tweak := rcen_tweak s;
     user_set := user_set s; lr := lr s; lcnt := lcnt s; rcnt := rcnt s;
     lfit := lfit s; rfit := rfit s; sync := sync s;
     tslits_dict := tslits_dict s |}.

Definition set_user_set (v : option bool) (s : TraceSlits) : TraceSlits :=
  {| mstrace := mstrace s; pixlocn := pixlocn s; par := par s; det := det s;
     ednum := ednum s; binbpx := binbpx s; binarr := binarr s;
     lcen := lcen s; rcen := rcen s; tc_dict := tc_dict s;
     edgearr := edgearr s; edgearrcp := edgearrcp s; siglev := siglev s;
     steps := steps s; extrapord := extrapord s; pix := pix s;
     lcen_tweak := lcen_tweak s; rcen_tweak := rcen_tweak s; user_set := v;
     lr := lr s; lcnt := lcnt s; rcnt := rcnt s; lfit := lfit s;
     rfit := rfit s; sync := sync s; tslits_dict := tslits_dict s |}.

Definition set_lr (v : lrminx) (s : TraceSlits) : TraceSlits :=
  {| mstrace := mstrace s; pixlocn := pixlocn s; par := par s; det := det s;
     ednum := ednum s; binbpx := binbpx s; binarr := binarr s;
     lcen := lcen s; rcen := rcen s; tc_dict := tc_dict s;
     edgearr := edgearr s; edgearrcp := edgearrcp s; siglev := siglev s;
     steps := steps s; extrapord := extrapord s; pix := pix s;
     lcen_tweak := lcen_tweak s; rcen_tweak := rcen_tweak s;
     user_set := user_set s; lr := v; lcnt := lcnt s; rcnt := rcnt s;
     lfit := lfit s; rfit := rfit s; sync := sync s;
     tslits_dict := tslits_dict s |}.

Definition set_lcnt (v : Z) (s : TraceSlits) : TraceSlits :=
  {| mstrace := mstrace s; pixlocn := pixlocn s; par := par s; det := det s;
     ednum := ednum s; binbpx := binbpx s; binarr := binarr s;
     lcen := lcen s; rcen := rcen s; tc_dict := tc_dict s;
     edgearr := edgearr s; edgearrcp := edgearrcp s; siglev := siglev s;
     steps := steps s; extrapord := extrapord s; pix := pix s;
     lcen_tweak := lcen_tweak s; rcen_tweak := rcen_tweak s;
     user_set := user_set s; lr := lr s; lcnt := v; rcnt := rcnt s;
     lfit := lfit s; rfit := rfit s; sync := sync s;
     tslits_dict := tslits_dict s |}.

Definition set_rcnt (v : Z) (s : TraceSlits) : TraceSlits :=
  {| mstrace := mstrace s; pixlocn := pixlocn s; par := par s; det := det s;
     ednum := ednum s; binbpx := binbpx s; binarr := binarr s;
     lcen := lcen s; rcen := rcen s; tc_dict := tc_dict s;
     edgearr := edgearr s; edgearrcp := edgearrcp s; siglev := siglev s;
     steps := steps s; extrapord := extrapord s; pix := pix s;
     lcen_tweak := lcen_tweak s; rcen_tweak := rcen_tweak s;
     user_set := user_set s; lr := lr s; lcnt := lcnt s; rcnt := v;
     lfit := lfit s; rfit := rfit s; sync := sync s;
     tslits_dict := tslits_dict s |}.

Definition set_lfit (v : fit_side) (s : TraceSlits) : TraceSlits :=
  {| mstrace := mstrace s; pixlocn := pixlocn s; par := par s; det := det s;
     ednum := ednum s; binbpx := binbpx s; binarr := binarr s;
     lcen := lcen s; rcen := rcen s; tc_dict := tc_dict s;
     edgearr := edgearr s; edgearrcp := edgearrcp s; siglev := siglev s;
     steps := steps s; extrapord := extrapord s; pix := pix s;
     lcen_tweak := lcen_tweak s; rcen_tweak := rcen_tweak s;
     user_set := user_set s; lr := lr s; lcnt := lcnt s; rcnt := rcnt s;
     lfit := v; rfit := rfit s; sync := sync s;
     tslits_dict := tslits_dict s |}.

Definition set_rfit (v : fit_side) (s : TraceSlits) : TraceSlits :=
  {| mstrace := mstrace s; pixlocn := pixlocn s; par := par s; det := det s;
     ednum := ednum s; binbpx := binbpx s; binarr := binarr s;
     lcen := lcen s; rcen := rcen s; tc_dict := tc_dict s;
     edgearr := edgearr s; edgearrcp := edgearrcp s; siglev := siglev s;
     steps := steps s; extrapord := extrapord s; pix := pix s;
     lcen_tweak := lcen_tweak s; rcen_tweak := rcen_tweak s;
     user_set := user_set s; lr := lr s; lcnt := lcnt s; rcnt := rcnt s;
     lfit := lfit s; rfit := v; sync := sync s;
     tslits_dict := tslits_dict s |}.

Definition set_sync (v : sync_out) (s : TraceSlits) : TraceSlits :=
  {| mstrace := mstrace s; pixlocn := pixlocn s; par := par s; det := det s;
     ednum := ednum s; binbpx := binbpx s; binarr := binarr s;
     lcen := lcen s; rcen := rcen s; tc_dict := tc_dict s;
     edgearr := edgearr s; edgearrcp := edgearrcp s; siglev := siglev s;
     steps := steps s; extrapord := extrapord s; pix := pix s;
     lcen_tweak := lcen_tweak s; rcen_tweak := rcen_tweak s;
     user_set := user_set s; lr := lr s; lcnt := lcnt s; rcnt := rcnt s;
     lfit := lfit s; rfit := rfit s; sync := v;
     tslits_dict := tslits_dict s |}.

Definition set_tslits_dict (v : option tslits_dict_t) (s : TraceSlits) : TraceSlits :=
  {| mstrace := mstrace s; pixlocn := pixlocn s; par := par s; det := det s;
     ednum := ednum s; binbpx := binbpx s; binarr := binarr s;
     lcen := lcen s; rcen := rcen s; tc_dict := tc_dict s;
     edgearr := edgearr s; edgearrcp := edgearrcp s; siglev := siglev s;
     steps := steps s; extrapord := extrapord s; pix := pix s;
     lcen_tweak := lcen_tweak s; rcen_tweak := rcen_tweak s;
     user_set := user_set s; lr := lr s; lcnt := lcnt s; rcnt := rcnt s;
     lfit := lfit s; rfit := rfit s; sync := sync s; tslits_dict := v |}.

(** ** The collaborators of the class

    [scipy.ndimage.uniform_filter] and the functions of
    [pypeit.core.trace_slits], [pypeit.core.pixels] and [pypeit.utils] that
    the class wraps.  They are used as functions of
    their arguments; [match_edges] and [assign_slits], which the class calls
    for their in-place effect on [edgearr], return the updated image. *)

Record Kernels : Type := {
  (* scipy.ndimage: the image, [size] and [mode] *)
  uniform_filter : image -> nat * nat -> string -> image;
  (* trace_slits *)
  edgearr_from_binarr :
    image -> image -> Z -> string -> float -> Z -> option image * labels;
  edgearr_from_user : nat * nat -> float -> float -> Z -> labels;
  match_edges : labels -> Z -> labels * Z * Z;
  edgearr_add_left_right :
    labels -> image -> image -> Z -> Z -> Z -> labels * Z * Z;
  add_user_edges :
    labels -> option image -> option tc_dict_t -> user_slits_t -> labels;
  assign_slits : image -> labels -> Z -> string -> Z -> labels;
  edgearr_close_slits :
    image -> labels -> labels -> Z -> Z -> string -> Z -> labels;
  edgearr_final_left_right : labels -> Z -> option image -> labels * Z * Z;
  edgearr_tcrude : labels -> option image -> Z -> float -> labels * tc_dict_t;
  edgearr_mslit_sync : labels -> option tc_dict_t -> Z -> labels;
  edgearr_ignore_orders : labels -> float -> labels * lrminx;
  fit_edges :
    labels -> Z -> Z -> image -> image -> bool -> Z -> string -> fit_side;
  synchronize_edges :
    image -> labels -> image -> Z -> Z -> fit_side -> Z -> fit_side ->
    string -> Z -> list Z ->
    list (list float) * list (list float) * list Z * fit_side * fit_side;
  pca_order_slit_edges :
    image -> labels -> list (list float) -> list (list float) -> list Z ->
    list (list float) -> list (list float) -> image -> list (list float) -> pixlocn_t ->
    string -> Z -> Z -> list Z -> list Z ->
    slitarr * slitarr * list bool;
  pca_pixel_slit_edges :
    image -> labels -> fit_side -> fit_side ->
    list (list float) -> list (list float) -> image -> string -> Z -> list Z ->
    slitarr * slitarr * list bool;
  (* pixels *)
  phys_to_pix : slitarr -> pixlocn_t -> Z -> list (list Z);
  slit_pixels : slitarr -> slitarr -> nat * nat -> Z -> list (list Z);
  ximg_and_edgemask :
    slitarr -> slitarr -> list (list Z) -> float * float -> image * list (list bool);
  (* utils: the fitted function evaluated at one abscissa *)
  func_val : list float -> float -> string -> float -> float -> float
}.

(** ** Python values for a dynamically typed argument

    [plate_scale] defaults to [None] and is used as a number. *)

Inductive pyval : Type :=
| PyNone
| PyFloat (f : float)
| PyObject (kind : string).

Definition none_times_float : exn :=
  TypeError "unsupported operand type(s) for *: 'float' and 'NoneType'".

(** [x * v] for a numpy float [x]. *)
Definition float_mul (x : float) (v : pyval) : result float :=
  match v with
  | PyFloat f => Ok (x * f)%float
  | PyNone => Raise none_times_float
  | PyObject k =>
      Raise (TypeError (String.append "unsupported operand type(s) for *: 'float' and " k))
  end.

(** ** The state-and-exception monad of the methods *)

Definition M (A : Type) : Type := TraceSlits -> result (A * TraceSlits).

Definition ret {A} (a : A) : M A := fun s => Ok (a, s).

Definition bind {A B} (m : M A) (k : A -> M B) : M B :=
  fun s => match m s with
           | Ok (a, s') => k a s'
           | Raise e => Raise e
           end.

Definition raise {A} (e : exn) : M A := fun _ => Raise e.

Definition lift {A} (r : result A) : M A :=
  fun s => match r with
           | Ok a => Ok (a, s)
           | Raise e => Raise e
           end.

Definition gets {A} (f : TraceSlits -> A) : M A := fun s => Ok (f s, s).

Definition modify (f : TraceSlits -> TraceSlits) : M unit :=
  fun s => Ok (tt, f s).

Definition when (b : bool) (m : M unit) : M unit :=
  if b then m else ret tt.

Declare Scope py_scope.
Delimit Scope py_scope with py.
Notation "x <- m ;; k" := (bind m (fun x => k))
  (at level 61, m at next level, right associativity) : py_scope.
Notation "m ;; k" := (bind m (fun _ => k))
  (at level 61, right associativity) : py_scope.
Local Open Scope py_scope.

(** [self.steps.append(name)] *)
Definition append_step (name : string) : M unit :=
  modify (fun s => set_steps (steps s ++ [name]) s).

(** ** A moving average with mirrored ends

    A stand-in for [scipy.ndimage.uniform_filter] with [mode='mirror'] in
    the examples: a 1-D moving average along every axis whose size exceeds
    one, the input copied along the others; outside the array the input is
    extended by reflecting about the centre of the last pixel.  The sums
    are taken in window order; nothing is claimed on how scipy rounds. *)

Module Ndimage.

(** The index read for position [i] of an axis of [n] pixels. *)
Definition mirror (n : nat) (i : Z) : nat :=
  if (n <=? 1)%nat then 0%nat
  else let p := 2 * Z.of_nat n - 2 in
       let m := i mod p in
       Z.to_nat (if m <? Z.of_nat n then m else p - m).

(** The positions covered by a centred window of [size] pixels at [i]. *)
Definition window (size i : nat) : list Z :=
  map (fun k => Z.of_nat i - Z.of_nat (size / 2) + Z.of_nat k) (seq 0 size).

Definition average (size : nat) (l : list float) : float :=
  (fold_left PrimFloat.add l 0 / float_of_nat size)%float.

Definition uniform_filter1d (size : nat) (v : list float) : list float :=
  map (fun i =>
         average size
           (map (fun k => nth (mirror (List.length v) k) v 0%float) (window size i)))
      (seq 0 (List.length v)).

Definition pixel (a : image) (i j : nat) : float := nth j (nth i a []) 0%float.

Definition nrows (a : image) : nat := List.length a.
Definition ncols (a : image) : nat := List.length (hd [] a).

(** Along axis 0 (the rows, i.e. the spectral direction). *)
Definition filter_axis0 (size : nat) (a : image) : image :=
  map (fun i =>
         map (fun j =>
                average size
                  (map (fun k => pixel a (mirror (nrows a) k) j)
                       (window size i)))
             (seq 0 (ncols a)))
      (seq 0 (nrows a)).

(** Along axis 1 (the columns, i.e. the spatial direction). *)
Definition filter_axis1 (size : nat) (a : image) : image :=
  map (uniform_filter1d size) a.

Definition moving_average (a : image) (size : nat * nat) : image :=
  let a0 := if (1 <? fst size)%nat then filter_axis0 (fst size) a else a in
  if (1 <? snd size)%nat then filter_axis1 (snd size) a0 else a0.

End Ndimage.

(** ** Helpers on arrays *)

(** [a.shape] of a 2-D image. *)
Definition shape {A} (a : list (list A)) : nat * nat :=
  (List.length a, List.length (hd [] a)).

(** Python indexing of a list, negative indices counting from the end. *)
Definition py_index {A} (l : list A) (i : Z) : result A :=
  let n := Z.of_nat (List.length l) in
  let j := if i <? 0 then n + i else i in
  if (j <? 0) || (n <=? j)
  then Raise (IndexError "list index out of range")
  else of_option (IndexError "list index out of range")
                 (nth_error l (Z.to_nat j)).

(** [np.max] and [np.min] of the selected pixels of an integer image. *)
Definition zmax (l : list Z) : result Z :=
  match l with
  | [] => Raise (Np.zero_size "maximum")
  | x :: t => Ok (fold_left Z.max t x)
  end.

Definition zmin (l : list Z) : result Z :=
  match l with
  | [] => Raise (Np.zero_size "minimum")
  | x :: t => Ok (fold_left Z.min t x)
  end.

(** [a[np.where(cond)]]: the selected pixels, in row-major order. *)
Definition select (cond : Z -> bool) (a : labels) : list Z :=
  filter cond (List.concat a).

(** [a[np.where(cond)] = f(a[np.where(cond)])], pixel by pixel. *)
Definition update_where (cond : Z -> bool) (f : Z -> Z) (a : labels) : labels :=
  map (map (fun v => if cond v then f v else v)) a.

(** [pixlocn[:, :, k]] and [pixlocn[:, 0, 0]]. *)
Definition plane (k : nat) (p : pixlocn_t) : image :=
  map (map (fun c => nth k c 0%float)) p.

Definition first_column (p : pixlocn_t) : result (list float) :=
  match p with
  | [] => Ok []
  | r :: _ =>
      match r with
      | [] => Raise (IndexError "index 0 is out of bounds for axis 1 with size 0")
      | _ => Ok (map (fun row => nth 0 (hd [] row) 0%float) p)
      end
  end.

(** [a[0, 0]] and [a[-1, 0]] of a 2-D image. *)
Definition corner_first (a : image) : result float :=
  match a with
  | (x :: _) :: _ => Ok x
  | _ => Raise (IndexError "index 0 is out of bounds")
  end.

Definition corner_last (a : image) : result float :=
  match a with
  | [] => Raise (IndexError "index -1 is out of bounds for axis 0 with size 0")
  | _ => match last a [] with
         | x :: _ => Ok x
         | [] => Raise (IndexError "index 0 is out of bounds for axis 1 with size 0")
         end
  end.

(** [np.all(a, axis=1)]: every entry of the row is non-zero. *)
Definition all_nonzero (row : list float) : bool :=
  forallb (fun x => negb (x =? 0)%float) row.

(** Elementwise combination of two 2-D arrays, with numpy's broadcasting
    rule on both axes. *)
Fixpoint all_ok {A} (l : list (result A)) : result (list A) :=
  match l with
  | [] => Ok []
  | r :: t => rbind r (fun x => rbind (all_ok t) (fun xs => Ok (x :: xs)))
  end.

Definition zip_cols (f : float -> float -> float) (a b : list (list float))
  : result (list (list float)) :=
  rbind (Np.broadcast2 (Np.broadcast2 f) a b) all_ok.

(** [a.astype(np.int)] on one float: truncation towards zero; what has no
    int64 value (NaN, the infinities, a magnitude of [2^63] or more) gives
    the least int64, as the conversion does on x86-64. *)
Definition trunc (x : float) : Z :=
  match Prim2SF x with
  | S754_zero _ => 0
  | S754_finite s m e =>
      let a := if 0 <=? e then Z.pos m * 2 ^ e else Z.pos m / 2 ^ (- e) in
      let v := if s then - a else a in
      if (- 2 ^ 63 <=? v) && (v <=? 2 ^ 63 - 1) then v else - 2 ^ 63
  | _ => - 2 ^ 63
  end.

Notation "'let?' x := r 'in' k" := (rbind r (fun x => k))
  (at level 10, x name, r at level 100, k at level 200) : py_scope.

(** ** Names in scope in the body of [add_user_slits]

    Its parameters, and the names bound at the top level of the module. *)

Definition add_user_slits_locals : list string :=
  ["self"; "user_slits"; "run_to_finish"]%string.

Definition module_globals : list string :=
  ["absolute_import"; "division"; "print_function"; "inspect"; "np"; "os";
   "Popen"; "ndimage"; "reload"; "fits"; "ltu"; "msgs"; "debugger"; "pixels";
   "trace_slits"; "utils"; "masterframe"; "ginga"; "traceimage"; "pypeitpar";
   "parset_to_dict"; "TraceSlits"; "load_traceslit_files"]%string.

(** Loading a name that is not a number yields an object of that kind;
    a name bound nowhere raises [NameError]. *)
Definition load_name (scope : list string) (x : string) : result pyval :=
  if existsb (String.eqb x) scope then Ok (PyObject x)
  else Raise (NameError x).

(** The message of the sanity check of [_match_edges]. *)
Definition budget_message : string :=
  "Found more edges than allowed by ednum. Set ednum to a larger number.".

(** ** The loop body and the selection of [_trim_slits] *)

Definition column_of (a : option slitarr) (o : nat) : result (list float) :=
  match a with
  | None => Raise (TypeError "'NoneType' object is not subscriptable")
  | Some r => of_option (IndexError "index is out of bounds for axis 1")
                        (nth_error r o)
  end.

Definition trim_body (ncol : nat) (trim_short_slits : bool)
           (plate_scale : pyval) (min_slit_width : float)
           (lcen : slitarr) (rcen : option slitarr)
           (o : nat) (mask : list Z) : result (list Z) :=
  let lcol := nth o lcen [] in
  let? lo := Np.min lcol in
  let? mask1 :=
    (if (float_of_nat ncol <? lo)%float
     then Ok (Np.set_item mask o 1)
     else let? rcol := column_of rcen o in
          let? hi := Np.max rcol in
          if (hi <? 0)%float then Ok (Np.set_item mask o 1) else Ok mask) in
  if trim_short_slits
  then let? rcol := column_of rcen o in
       let? widths := Np.broadcast2 PrimFloat.sub rcol lcol in
       let? this_width := float_mul (Np.median widths) plate_scale in
       if (this_width <? min_slit_width)%float
       then Ok (Np.set_item mask1 o 1)
       else Ok mask1
  else Ok mask1.

Definition trim_arrays (ncol : nat) (trim_short_slits : bool)
           (plate_scale : pyval) (min_slit_width : float)
           (lcen : slitarr) (rcen : option slitarr)
  : result (slitarr * slitarr) :=
  let nslit := List.length lcen in
  let mask := repeat 0 nslit in
  let? mask :=
    for_each (trim_body ncol trim_short_slits plate_scale min_slit_width
                        lcen rcen)
             (seq 0 nslit) mask in
  let wok := Np.where_zero mask in
  let? l' := Np.take lcen wok in
  let? r' := match rcen with
             | None => Raise (TypeError "'NoneType' object is not subscriptable")
             | Some r => Np.take r wok
             end in
  Ok (l', r').

(** ** The methods of [TraceSlits] *)

Section Methods.

Variable K : Kernels.

Definition make_binarr : M image :=
  ms <- gets mstrace ;;
  let b := uniform_filter K ms (3%nat, 1%nat) "mirror" in
  modify (set_binarr b) ;;
  append_step "make_binarr" ;;
  gets binarr.

Definition _edgearr_from_binarr : M unit :=
  s <- gets (fun s => s) ;;
  let '(sig, e) :=
    edgearr_from_binarr K (binarr s) (binbpx s) (par_medrep (par s))
                        (par_sobel_mode (par s)) (par_sigdetect (par s))
                        (par_number (par s)) in
  modify (set_siglev sig) ;;
  modify (set_edgearr e) ;;
  append_step "_edgearr_from_binarr".

Definition _edgearr_single_slit : M unit :=
  s <- gets (fun s => s) ;;
  d <- lift (of_option
               (TypeError "unsupported operand type(s) for -: 'NoneType' and 'int'")
               (det s)) ;;
  let iledge := (d - 1) * 2 in
  let iredge := (d - 1) * 2 + 1 in
  le <- lift (py_index (par_single (par s)) iledge) ;;
  re <- lift (py_index (par_single (par s)) iredge) ;;
  modify (set_edgearr (edgearr_from_user K (shape (mstrace s)) le re d)) ;;
  modify (set_siglev None) ;;
  append_step "_edgearr_single_slit".

Definition _add_left_right : M bool :=
  s <- gets (fun s => s) ;;
  let '(e, lc, rc) :=
    edgearr_add_left_right K (edgearr s) (binarr s) (binbpx s)
                           (lcnt s) (rcnt s) (ednum s) in
  modify (set_edgearr e) ;;
  modify (set_lcnt lc) ;;
  modify (set_rcnt rc) ;;
  let any_slits := if (lc =? 0) && (rc =? 0) then false else true in
  append_step "_add_left_right" ;;
  ret any_slits.

Definition reset_edgearr_ednum : M unit :=
  s <- gets (fun s => s) ;;
  mx <- lift (zmax (List.concat (edgearr s))) ;;
  when (mx <? ednum s)
    (modify (fun s => set_edgearr
               (update_where (fun v => v <? 0) (fun v => v - (ednum s - 1))
                             (edgearr s)) s) ;;
     modify (fun s => set_edgearr
               (update_where (fun v => 0 <? v) (fun v => v + (ednum s - 1))
                             (edgearr s)) s)).

Definition _set_lrminx : M unit :=
  e <- gets edgearr ;;
  let neg := select (fun v => v <? 0) e in
  nmax <- lift (zmax neg) ;;
  nmin <- lift (zmin neg) ;;
  let pos := select (fun v => 0 <? v) e in
  pmin <- lift (zmin pos) ;;
  pmax <- lift (zmax pos) ;;
  modify (set_lr {| lmin := - nmax; lmax := - nmin; rmin := pmin; rmax := pmax |}).

Definition _fit_edges (side : string) : M unit :=
  s <- gets (fun s => s) ;;
  let plxbin := plane 0 (pixlocn s) in
  let plybin := plane 1 (pixlocn s) in
  (if String.eqb side "left"
   then modify (set_lfit (fit_edges K (edgearr s) (lmin (lr s)) (lmax (lr s))
                                    plxbin plybin true (par_polyorder (par s))
                                    (par_function (par s))))
   else modify (set_rfit (fit_edges K (edgearr s) (rmin (lr s)) (rmax (lr s))
                                    plxbin plybin false (par_polyorder (par s))
                                    (par_function (par s))))) ;;
  append_step (String.append "_fit_edges" (String.append "_" side)).

Definition _synchronize : M unit :=
  s <- gets (fun s => s) ;;
  let plxbin := plane 0 (pixlocn s) in
  let '(lct, rct, go, lf, rf) :=
    synchronize_edges K (binarr s) (edgearr s) plxbin (lmin (lr s))
                      (lmax (lr s)) (lfit s) (rmin (lr s)) (rfit s)
                      (par_function (par s)) (par_polyorder (par s))
                      (par_pcaextrap (par s)) in
  modify (set_lfit lf) ;;
  modify (set_rfit rf) ;;
  (* slitcen = 0.5*(lcent+rcent).T, held by columns *)
  sc <- lift (zip_cols (fun a b => 0.5 * (a + b))%float lct rct) ;;
  modify (set_sync {| lcent := lct; rcent := rct; gord := go; slitcen := sc |}) ;;
  append_step "_synchronize".

Definition _pca_order_slit_edges : M unit :=
  s <- gets (fun s => s) ;;
  let plxbin := plane 0 (pixlocn s) in
  let '(l, r, ex) :=
    pca_order_slit_edges K (binarr s) (edgearr s) (lcent (sync s))
                         (rcent (sync s)) (gord (sync s)) (coeff (lfit s))
                         (coeff (rfit s)) plxbin (slitcen (sync s))
                         (pixlocn s) (par_function (par s))
                         (par_polyorder (par s)) (par_diffpolyorder (par s))
                         (par_pcapar (par s)) (par_pcaextrap (par s)) in
  modify (set_lcen (Some l)) ;;
  modify (set_rcen (Some r)) ;;
  modify (set_extrapord (Some ex)) ;;
  append_step "_pca_order_slit_edges".

Definition _pca_pixel_slit_edges : M unit :=
  s <- gets (fun s => s) ;;
  let plxbin := plane 0 (pixlocn s) in
  let '(l, r, ex) :=
    pca_pixel_slit_edges K (binarr s) (edgearr s) (lfit s) (rfit s)
                         (lcent (sync s)) (rcent (sync s)) plxbin
                         (par_function (par s)) (par_polyorder (par s))
                         (par_pcapar (par s)) in
  modify (set_lcen (Some l)) ;;
  modify (set_rcen (Some r)) ;;
  modify (set_extrapord (Some ex)) ;;
  append_step "_pca_pixel_slit_edges".

(** The orders kept when no PCA is performed: those whose [lcent] and
    [rcent] rows have no zero entry. *)
Definition unmasked_orders (lct rct : list (list float)) : result (list nat) :=
  let? bad := Np.broadcast2 orb (map (fun r => negb (all_nonzero r)) lct)
                                (map (fun r => negb (all_nonzero r)) rct) in
  let maskord := filter (fun o => nth o bad false) (seq 0 (List.length bad)) in
  Ok (filter (fun o => negb (existsb (Nat.eqb o) maskord))
             (seq 0 (List.length lct))).

Definition _pca : M unit :=
  s <- gets (fun s => s) ;;
  if String.eqb (par_pcatype (par s)) "order" then _pca_order_slit_edges
  else if String.eqb (par_pcatype (par s)) "pixel" then _pca_pixel_slit_edges
  else
    ww <- lift (unmasked_orders (lcent (sync s)) (rcent (sync s))) ;;
    l <- lift (Np.take (lcent (sync s)) ww) ;;
    modify (set_lcen (Some l)) ;;
    r <- lift (Np.take (rcent (sync s)) ww) ;;
    modify (set_rcen (Some r)) ;;
    modify (set_extrapord (Some (repeat false (List.length l)))).

Definition _trim_slits (trim_short_slits : bool) (plate_scale : pyval) : M unit :=
  s <- gets (fun s => s) ;;
  l <- lift (of_option
               (AttributeError "'NoneType' object has no attribute 'shape'")
               (lcen s)) ;;
  lr' <- lift (trim_arrays (snd (shape (mstrace s))) trim_short_slits
                           plate_scale (par_min_slit_width (par s))
                           l (rcen s)) ;;
  modify (set_lcen (Some (fst lr'))) ;;
  modify (set_rcen (Some (snd lr'))) ;;
  append_step "_trim_slits".

Definition _match_edges : M unit :=
  s <- gets (fun s => s) ;;
  let '(e, lc, rc) := match_edges K (edgearr s) (ednum s) in
  modify (set_edgearr e) ;;
  modify (set_lcnt lc) ;;
  modify (set_rcnt rc) ;;
  (if (ednum s <=? lc) || (ednum s <=? rc)
   then raise (PypeItError budget_message)
   else ret tt) ;;
  append_step "_match_edges".

Definition _assign_edges : M unit :=
  s <- gets (fun s => s) ;;
  (* Assign left edges *)
  (if lcnt s =? 1
   then modify (fun s => set_edgearr
                  (update_where (fun v => v <=? -2 * ednum s)
                                (fun _ => - ednum s) (edgearr s)) s)
   else modify (fun s => set_edgearr
                  (assign_slits K (binarr s) (edgearr s) (-1)
                                (par_function (par s)) (par_polyorder (par s)))
                  s)) ;;
  (* Assign right edges *)
  (if rcnt s =? 1
   then modify (fun s => set_edgearr
                  (update_where (fun v => 2 * ednum s <=? v)
                                (fun _ => ednum s) (edgearr s)) s)
   else modify (fun s => set_edgearr
                  (assign_slits K (binarr s) (edgearr s) 1
                                (par_function (par s)) (par_polyorder (par s)))
                  s)) ;;
  append_step "_assign_edges".

Definition _maxgap_prep : M unit :=
  e <- gets edgearr ;;
  modify (set_edgearrcp e) ;;
  mx <- lift (zmax (List.concat e)) ;;
  mn <- lift (zmin (List.concat e)) ;;
  modify (set_edgearr
            (update_where (fun v => v <? 0) (fun v => v + (1 + mx - mn)) e)) ;;
  append_step "_maxgap_prep".

Definition _maxgap_close (maxgap : Z) : M unit :=
  s <- gets (fun s => s) ;;
  modify (set_edgearr
            (edgearr_close_slits K (binarr s) (edgearr s) (edgearrcp s)
                                 (ednum s) maxgap (par_function (par s))
                                 (par_polyorder (par s)))) ;;
  append_step "_maxgap_close".

Definition _final_left_right : M unit :=
  s <- gets (fun s => s) ;;
  let '(e, lc, rc) :=
    edgearr_final_left_right K (edgearr s) (ednum s) (siglev s) in
  modify (set_edgearr e) ;;
  modify (set_lcnt lc) ;;
  modify (set_rcnt rc) ;;
  append_step "_final_left_right".

Definition _mslit_tcrude (maxshift : float) : M unit :=
  s <- gets (fun s => s) ;;
  let _maxshift := match par_maxshift (par s) with
                   | Some m => m
                   | None => maxshift
                   end in
  let '(e, tc) := edgearr_tcrude K (edgearr s) (siglev s) (ednum s) _maxshift in
  modify (set_edgearr e) ;;
  modify (set_tc_dict (Some tc)) ;;
  append_step "_mslit_tcrude".

Definition _mslit_sync : M unit :=
  s <- gets (fun s => s) ;;
  modify (set_edgearr (edgearr_mslit_sync K (edgearr s) (tc_dict s) (ednum s))) ;;
  append_step "_mslit_sync".

Definition _ignore_orders : M unit :=
  s <- gets (fun s => s) ;;
  let '(e, m) := edgearr_ignore_orders K (edgearr s) (par_fracignore (par s)) in
  modify (set_edgearr e) ;;
  modify (set_lr m) ;;
  append_step "_ignore_orders".

Definition _chk_for_longslit : M bool :=
  s <- gets (fun s => s) ;;
  if (lmax (lr s) + 1 - lmin (lr s) =? 1) && (rmax (lr s) + 1 - rmin (lr s) =? 1)
  then
    let plxbin := plane 0 (pixlocn s) in
    minvf <- lift (corner_first plxbin) ;;
    maxvf <- lift (corner_last plxbin) ;;
    xint <- lift (first_column (pixlocn s)) ;;
    let nrow := fst (shape (mstrace s)) in
    modify (set_lcen (Some [repeat 0%float nrow])) ;;
    modify (set_rcen (Some [repeat 0%float nrow])) ;;
    lc <- lift (py_index (coeff (lfit s)) 0) ;;
    lcol <- lift (Np.assign_column nrow
                    (map (fun x => func_val K lc x (par_function (par s))
                                            minvf maxvf) xint)) ;;
    modify (set_lcen (Some [lcol])) ;;
    rc <- lift (py_index (coeff (rfit s)) 0) ;;
    rcol <- lift (Np.assign_column nrow
                    (map (fun x => func_val K rc x (par_function (par s))
                                            minvf maxvf) xint)) ;;
    modify (set_rcen (Some [rcol])) ;;
    ret true
  else ret false.

(** The boundaries used downstream: the tweaked ones when present. *)
Definition boundaries (s : TraceSlits) : option slitarr * option slitarr :=
  match lcen_tweak s with
  | Some _ => (lcen_tweak s, rcen_tweak s)
  | None => (lcen s, rcen s)
  end.

Definition as_array (a : option slitarr) : result slitarr :=
  of_option (TypeError "unsupported operand type(s): 'NoneType'") a.

Definition _make_pixel_arrays : M unit :=
  s <- gets (fun s => s) ;;
  let '(ol, or) := boundaries s in
  l <- lift (as_array ol) ;;
  r <- lift (as_array or) ;;
  mid <- lift (zip_cols (fun a b => 0.5 * (a + b))%float l r) ;;
  let pixcen' := phys_to_pix K mid (pixlocn s) 1 in
  wid <- lift (zip_cols PrimFloat.sub r l) ;;
  let pixwid' := map (fun c => trunc (Np.mean c)) wid in
  let lordpix' := phys_to_pix K l (pixlocn s) 1 in
  let rordpix' := phys_to_pix K r (pixlocn s) 1 in
  let slitpix' := slit_pixels K l r (shape (mstrace s)) (par_pad (par s)) in
  let '(ximg', edge_mask') :=
    ximg_and_edgemask K l r slitpix' (par_trim (par s)) in
  modify (set_pix {| pixcen := pixcen'; pixwid := pixwid';
                     lordpix := lordpix'; rordpix := rordpix';
                     slitpix := slitpix'; ximg := ximg';
                     edge_mask := edge_mask' |}).

(** [getattr(self, 'ximg')] raises on an instance whose pixel arrays were
    never made. *)
Definition _fill_tslits_dict : M tslits_dict_t :=
  s <- gets (fun s => s) ;;
  let '(ol, or) := boundaries s in
  p <- lift (of_option
               (AttributeError "'TraceSlits' object has no attribute 'ximg'")
               (pix s)) ;;
  let d := {| d_lcen := ol; d_rcen := or; d_pix := p;
              d_extrapord := extrapord s |} in
  modify (set_tslits_dict (Some d)) ;;
  ret d.

Definition add_user_slits (user_slits : user_slits_t) (run_to_finish : bool)
  : M unit :=
  reset_edgearr_ednum ;;
  s <- gets (fun s => s) ;;
  modify (set_edgearr
            (add_user_edges K (edgearr s) (siglev s) (tc_dict s) user_slits)) ;;
  when run_to_finish
    (_set_lrminx ;;
     _fit_edges "left" ;;
     _fit_edges "right" ;;
     _synchronize ;;
     _pca ;;
     plate_scale <- lift (load_name (add_user_slits_locals ++ module_globals)
                                    "plate_scale") ;;
     _trim_slits true plate_scale) ;;
  append_step "add_user_slits".

(** [run] returns the dictionary, or [None] when no slit was found. *)
Definition run (arms ignore_orders : bool)
           (add_user_slits_arg : option user_slits_t) (plate_scale : pyval)
  : M (option tslits_dict_t) :=
  single <- gets (fun s => par_single (par s)) ;;
  (if (0 <? List.length single)%nat
   then _edgearr_single_slit ;; modify (set_user_set (Some true))
   else _edgearr_from_binarr ;; modify (set_user_set (Some false))) ;;
  _match_edges ;;
  any_slits <- _add_left_right ;;
  if negb any_slits then ret None
  else
    maxgap <- gets (fun s => par_maxgap (par s)) ;;
    (match maxgap with Some _ => _maxgap_prep | None => ret tt end) ;;
    _assign_edges ;;
    (match maxgap with Some g => _maxgap_close g | None => ret tt end) ;;
    us <- gets user_set ;;
    when (negb (match us with Some true => true | _ => false end))
         _final_left_right ;;
    when arms (_mslit_tcrude 0.15 ;; _mslit_sync) ;;
    (match add_user_slits_arg with
     | Some u => add_user_slits u false
     | None => ret tt
     end) ;;
    when ignore_orders _ignore_orders ;;
    _set_lrminx ;;
    _fit_edges "left" ;;
    _fit_edges "right" ;;
    longslit <- _chk_for_longslit ;;
    (if longslit
     then modify (set_extrapord (Some (repeat false 1)))
     else _synchronize ;;
          _pca ;;
          _trim_slits arms plate_scale) ;;
    _make_pixel_arrays ;;
    d <- _fill_tslits_dict ;;
    ret (Some d).

(** The two assignments of [_assign_edges], one for each side. *)
Definition assign_left : M unit :=
  s <- gets (fun s => s) ;;
  if lcnt s =? 1
  then modify (fun s => set_edgearr
                 (update_where (fun v => v <=? -2 * ednum s)
                               (fun _ => - ednum s) (edgearr s)) s)
  else modify (fun s => set_edgearr
                 (assign_slits K (binarr s) (edgearr s) (-1)
                               (par_function (par s)) (par_polyorder (par s)))
                 s).

Definition assign_right : M unit :=
  s <- gets (fun s => s) ;;
  if rcnt s =? 1
  then modify (fun s => set_edgearr
                 (update_where (fun v => 2 * ednum s <=? v)
                               (fun _ => ednum s) (edgearr s)) s)
  else modify (fun s => set_edgearr
                 (assign_slits K (binarr s) (edgearr s) 1
                               (par_function (par s)) (par_polyorder (par s)))
                 s).

(** The steps of the [run_to_finish] branch of [add_user_slits] that come
    before its call of [_trim_slits]. *)
Definition add_user_slits_before_trim (user_slits : user_slits_t) : M unit :=
  reset_edgearr_ednum ;;
  s <- gets (fun s => s) ;;
  modify (set_edgearr
            (add_user_edges K (edgearr s) (siglev s) (tc_dict s) user_slits)) ;;
  _set_lrminx ;;
  _fit_edges "left" ;;
  _fit_edges "right" ;;
  _synchronize ;;
  _pca.

(** The three consecutive parts of the body of [run], used to name the
    instance's state between them (lemma [run_split]): up to the test of
    [any_slits]; from there to the two edge fits; the rest. *)
Definition run_detect : M bool :=
  single <- gets (fun s => par_single (par s)) ;;
  (if (0 <? List.length single)%nat
   then _edgearr_single_slit ;; modify (set_user_set (Some true))
   else _edgearr_from_binarr ;; modify (set_user_set (Some false))) ;;
  _match_edges ;;
  _add_left_right.

Definition run_trace (arms ignore_orders : bool)
           (add_user_slits_arg : option user_slits_t) : M unit :=
  maxgap <- gets (fun s => par_maxgap (par s)) ;;
  (match maxgap with Some _ => _maxgap_prep | None => ret tt end) ;;
  _assign_edges ;;
  (match maxgap with Some g => _maxgap_close g | None => ret tt end) ;;
  us <- gets user_set ;;
  when (negb (match us with Some true => true | _ => false end))
       _final_left_right ;;
  when arms (_mslit_tcrude 0.15 ;; _mslit_sync) ;;
  (match add_user_slits_arg with
   | Some u => add_user_slits u false
   | None => ret tt
   end) ;;
  when ignore_orders _ignore_orders ;;
  _set_lrminx ;;
  _fit_edges "left" ;;
  _fit_edges "right".

Definition run_finish (arms : bool) (plate_scale : pyval)
  : M (option tslits_dict_t) :=
  longslit <- _chk_for_longslit ;;
  (if longslit
   then modify (set_extrapord (Some (repeat false 1)))
   else _synchronize ;;
        _pca ;;
        _trim_slits arms plate_scale) ;;
  _make_pixel_arrays ;;
  d <- _fill_tslits_dict ;;
  ret (Some d).

(** What remains of [run] after the edge fits when the longslit test
    succeeds: the test itself, the all-False [extrapord], the pixel arrays
    and the dictionary. *)
Definition longslit_finish : M (option tslits_dict_t) :=
  _chk_for_longslit ;;
  modify (set_extrapord (Some (repeat false 1))) ;;
  _make_pixel_arrays ;;
  d <- _fill_tslits_dict ;;
  ret (Some d).

(** What remains of [run] after the edge fits otherwise. *)
Definition general_finish (arms : bool) (plate_scale : pyval)
  : M (option tslits_dict_t) :=
  _synchronize ;;
  _pca ;;
  _trim_slits arms plate_scale ;;
  _make_pixel_arrays ;;
  d <- _fill_tslits_dict ;;
  ret (Some d).

(** The test of [_chk_for_longslit]. *)
Definition one_edge_each (s : TraceSlits) : bool :=
  (lmax (lr s) + 1 - lmin (lr s) =? 1) && (rmax (lr s) + 1 - rmin (lr s) =? 1).

(** [__init__] for a given trace image and parameter set: every attribute
    is reset, then [binarr] is computed.  Attributes that start as [None]
    and are always assigned before they are read start here as empty
    arrays. *)
Definition unset_fit : fit_side :=
  {| coeff := []; nmbrarr := []; diffarr := []; wghtarr := [] |}.

Definition fresh (mstrace : image) (pixlocn : pixlocn_t)
           (par : TraceSlitsPar) (det : option Z) (binbpx : option image)
           (ednum : Z) : TraceSlits :=
  {| mstrace := mstrace; pixlocn := pixlocn; par := par; det := det;
     ednum := ednum;
     binbpx := match binbpx with
               | Some b => b
               | None => map (map (fun _ => 0%float)) mstrace
               end;
     binarr := []; lcen := None; rcen := None; tc_dict := None;
     edgearr := []; edgearrcp := []; siglev := None; steps := [];
     extrapord := None;
     pix := None;
     lcen_tweak := None; rcen_tweak := None; user_set := None;
     lr := {| lmin := 0; lmax := 0; rmin := 0; rmax := 0 |};
     lcnt := 0; rcnt := 0; lfit := unset_fit; rfit := unset_fit;
     sync := {| lcent := []; rcent := []; gord := []; slitcen := [] |};
     tslits_dict := None |}.

Definition __init__ (mstrace : image) (pixlocn : pixlocn_t)
           (par : TraceSlitsPar) (det : option Z) (binbpx : option image)
           (ednum : Z) : result TraceSlits :=
  let? r := make_binarr (fresh mstrace pixlocn par det binbpx ednum) in
  Ok (snd r).

End Methods.

(** * Specification vocabulary *)

(** The decision the loop body of [_trim_slits] takes for slit [o]; it
    does not depend on the mask built so far (lemma [trim_body_dropped]). *)
Definition slit_dropped (ncol : nat) (trim_short_slits : bool)
           (plate_scale : pyval) (min_slit_width : float)
           (lcen : slitarr) (rcen : option slitarr) (o : nat) : result bool :=
  let lcol := nth o lcen [] in
  let? lo := Np.min lcol in
  let? off :=
    (if (float_of_nat ncol <? lo)%float then Ok true
     else let? rcol := column_of rcen o in
          let? hi := Np.max rcol in
          Ok (hi <? 0)%float) in
  if trim_short_slits
  then let? rcol := column_of rcen o in
       let? widths := Np.broadcast2 PrimFloat.sub rcol lcol in
       let? this_width := float_mul (Np.median widths) plate_scale in
       Ok (off || (this_width <? min_slit_width)%float)
  else Ok off.

(** The median width of a slit, [np.median(rcol - lcol)]. *)
Definition median_width (lcol rcol : list float) : result float :=
  let? d := Np.broadcast2 PrimFloat.sub rcol lcol in
  Ok (Np.median d).

(** The decision as a function of the three reductions of the slit that
    the loop body computes. *)
Definition trim_decision (ncol : nat) (trim_short_slits : bool)
           (plate_scale : pyval) (min_slit_width : float)
           (lo hi md : result float) : result bool :=
  let? lo := lo in
  let? off :=
    (if (float_of_nat ncol <? lo)%float then Ok true
     else let? hi := hi in Ok (hi <? 0)%float) in
  if trim_short_slits
  then let? m := md in
       let? this_width := float_mul m plate_scale in
       Ok (off || (this_width <? min_slit_width)%float)
  else Ok off.

(** ** The predicates of trimming, on the two edges of one slit

    The three tests of the loop of [_trim_slits], as the code computes
    them in binary64, and their negations.  A comparison with a NaN is
    false, so a quantity that is NaN passes every test. *)

Section TrimPredicates.

Variables (ncol : nat) (trim_short_slits : bool) (plate_scale : pyval)
          (min_slit_width : float).

Local Open Scope float_scope.

(** [np.median(rcen[:,o]-lcen[:,o])*plate_scale] is the float [w]. *)
Definition width_is (lcol rcol : list float) (w : float) : Prop :=
  exists d p, Np.broadcast2 PrimFloat.sub rcol lcol = Ok d /\
              plate_scale = PyFloat p /\
              w = Np.median d * p.

(** The left edge lies entirely beyond the last detector column. *)
Definition off_right (lcol : list float) : Prop :=
  exists lo, Np.min lcol = Ok lo /\ (float_of_nat ncol <? lo) = true.

(** The right edge lies entirely below column zero. *)
Definition off_left (rcol : list float) : Prop :=
  exists hi, Np.max rcol = Ok hi /\ (hi <? 0) = true.

(** The short-slit cut is enabled and the median width, converted with
    [plate_scale], is below [min_slit_width]. *)
Definition too_short (lcol rcol : list float) : Prop :=
  trim_short_slits = true /\
  exists w, width_is lcol rcol w /\ (w <? min_slit_width) = true.

(** The minimum of the left edge does not exceed the number of columns
    and the maximum of the right edge is not below zero. *)
Definition on_detector (lcol rcol : list float) : Prop :=
  (exists lo, Np.min lcol = Ok lo /\ (float_of_nat ncol <? lo) = false) /\
  (exists hi, Np.max rcol = Ok hi /\ (hi <? 0) = false).

(** With the cut enabled, the width is not below [min_slit_width]. *)
Definition not_short (lcol rcol : list float) : Prop :=
  trim_short_slits = true ->
  exists w, width_is lcol rcol w /\ (w <? min_slit_width) = false.


Definition violates (lcol rcol : list float) : Prop :=
  off_right lcol \/ off_left rcol \/ too_short lcol rcol.

(** No test fires. *)
Definition satisfies (lcol rcol : list float) : Prop :=
  on_detector lcol rcol /\ not_short lcol rcol.

End TrimPredicates.

(** Both arrays have [n] rows and one column for each slit. *)
Definition rectangular (n : nat) (l r : slitarr) : Prop :=
  List.length l = List.length r /\
  Forall (fun c => List.length c = n) l /\
  Forall (fun c => List.length c = n) r.

(** Unfolding of the monad's operations in proofs. *)
Ltac run_m :=
  unfold bind, gets, lift, modify, append_step, ret, raise, when in *;
  simpl in *.


(** The pixel maps as a function of what [_make_pixel_arrays] reads: the
    slit boundaries in use, the pixel locations, the shape of the trace
    image, and the padding and trimming parameters. *)
Definition pixel_maps (K : Kernels)
           (bounds : option slitarr * option slitarr) (pixlocn : pixlocn_t)
           (shp : nat * nat) (pad : Z) (trim : float * float) : result pixel_arrays :=
  let? l := as_array (fst bounds) in
  let? r := as_array (snd bounds) in
  let? mid := zip_cols (fun a b => 0.5 * (a + b))%float l r in
  let? wid := zip_cols PrimFloat.sub r l in
  let slitpix' := slit_pixels K l r shp pad in
  let xe := ximg_and_edgemask K l r slitpix' trim in
  Ok {| pixcen := phys_to_pix K mid pixlocn 1;
        pixwid := map (fun c => trunc (Np.mean c)) wid;
        lordpix := phys_to_pix K l pixlocn 1;
        rordpix := phys_to_pix K r pixlocn 1;
        slitpix := slitpix';
        ximg := fst xe;
        edge_mask := snd xe |}.

(** The arrays read by [_chk_for_longslit] are in order: the trace image
    has [n >= 1] rows, [pixlocn] has as many, each with a first pixel, and
    each fit has the coefficients of a first edge. *)
Definition longslit_ready (n : nat) (s : TraceSlits) : Prop :=
  fst (shape (mstrace s)) = n /\ (0 < n)%nat /\
  List.length (pixlocn s) = n /\
  Forall (fun row => row <> []) (pixlocn s) /\
  coeff (lfit s) <> [] /\ coeff (rfit s) <> [].

(** The abscissae and the range handed to [func_val] by the longslit
    shortcut. *)
Definition xint_of (s : TraceSlits) : list float :=
  map (fun row => nth 0 (hd [] row) 0%float) (pixlocn s).

Definition minvf_of (s : TraceSlits) : float :=
  nth 0 (nth 0 (plane 0 (pixlocn s)) []) 0%float.

Definition maxvf_of (s : TraceSlits) : float :=
  nth 0 (last (plane 0 (pixlocn s)) []) 0%float.

(** The invariant of a slit set: on every row of every slit the left edge
    is to the left of the right edge. *)
Definition left_lt_right (l r : slitarr) : Prop :=
  forall k row, (k < List.length l)%nat ->
                (row < List.length (nth k l []))%nat ->
                (nth row (nth k l []) 0 <? nth row (nth k r []) 0)%float
                = true.

(** * Concrete data for examples *)

Module Demo.

Definition par0 : TraceSlitsPar :=
  {| par_function := "legendre"; par_polyorder := 3; par_medrep := 0;
     par_number := -1; par_trim := (0%float, 0%float); par_maxgap := None;
     par_maxshift := Some 0.15%float; par_pad := 0; par_sigdetect := 20%float;
     par_fracignore := 0.01%float; par_min_slit_width := 6%float;
     par_diffpolyorder := 2; par_single := []; par_sobel_mode := "nearest";
     par_pcatype := "pixel"; par_pcapar := [3; 2; 1; 0];
     par_pcaextrap := [0; 0] |}.

(** A trace image of 3 rows and 50 columns, and its pixel locations. *)
Definition mstrace0 : image := repeat (repeat 1%float 50) 3.

Definition pixlocn0 : pixlocn_t :=
  map (fun i => map (fun j => [float_of_nat i; float_of_nat j;
                               1%float; 1%float])
                    (seq 0 50))
      (seq 0 3).

Definition state0 : TraceSlits :=
  set_steps ["make_binarr"%string]
    (set_binarr (Ndimage.moving_average mstrace0 (3%nat, 1%nat))
       (fresh mstrace0 pixlocn0 par0 (Some 1) None 100000)).

(** Four slits: the second lies beyond the last column, the third has
    crossing edges on its last row, the fourth is narrow. *)
Definition L4 : slitarr :=
  [[10; 10; 10]; [60; 60; 60]; [10; 10; 40]; [20; 20; 20]]%float.
Definition R4 : slitarr :=
  [[30; 30; 30]; [70; 70; 70]; [30; 30; 20]; [22; 22; 22]]%float.

Definition state_sync : TraceSlits :=
  set_rcen (Some R4) (set_lcen (Some L4) state0).


(** Horner evaluation, as a stand-in for [utils.func_val]. *)
Definition horner (c : list float) (x : float) : float :=
  fold_right (fun a acc => a + x * acc)%float 0%float c.

(** A simple implementation of the collaborators: the edge image [E] and
    the counts [cnt] are what detection and matching report, [fit] what a
    fit returns, [lct], [rct] what synchronisation returns; the other
    functions pass their input on. *)
Definition stub (E : labels) (cnt : Z * Z) (fit : bool -> fit_side)
           (lct rct : list (list float)) : Kernels :=
  {| uniform_filter := fun a size _ => Ndimage.moving_average a size;
     edgearr_from_binarr := fun b _ _ _ _ _ => (Some b, E);
     edgearr_from_user := fun _ _ _ _ => E;
     match_edges := fun e _ => (e, fst cnt, snd cnt);
     edgearr_add_left_right := fun e _ _ lc rc _ => (e, lc, rc);
     add_user_edges := fun e _ _ _ => e;
     assign_slits := fun _ e _ _ _ => e;
     edgearr_close_slits := fun _ e _ _ _ _ _ => e;
     edgearr_final_left_right := fun e _ _ => (e, fst cnt, snd cnt);
     edgearr_tcrude := fun e _ _ _ => (e, []);
     edgearr_mslit_sync := fun e _ _ => e;
     edgearr_ignore_orders :=
       fun e _ => (e, {| lmin := 1; lmax := 1; rmin := 1; rmax := 1 |});
     fit_edges := fun _ _ _ _ _ left _ _ => fit left;
     synchronize_edges :=
       fun _ _ _ _ _ lf _ rf _ _ _ => (lct, rct, [], lf, rf);
     pca_order_slit_edges :=
       fun _ _ lc rc _ _ _ _ _ _ _ _ _ _ _ =>
         (lc, rc, repeat false (List.length lc));
     pca_pixel_slit_edges :=
       fun _ _ _ _ lc rc _ _ _ _ => (lc, rc, repeat false (List.length lc));
     phys_to_pix := fun a _ _ => map (map trunc) a;
     slit_pixels := fun _ _ _ _ => [];
     ximg_and_edgemask := fun _ _ _ _ => ([], []);
     func_val := fun c x _ _ _ => horner c x |}.

(** A label image of the shape of [mstrace0] holding the given label on
    the given columns of every row, and zero elsewhere. *)
Definition label_at (marks : list (nat * Z)) (j : nat) : Z :=
  match find (fun m => Nat.eqb (fst m) j) marks with
  | Some m => snd m
  | None => 0
  end.

Definition label_image (marks : list (nat * Z)) : labels :=
  repeat (map (label_at marks) (seq 0 50)) 3.

(** No edge. *)
Definition E0 : labels := label_image [].

(** One left and one right edge group. *)
Definition E1 : labels :=
  label_image [(10%nat, -100000); (30%nat, 100000)].

(** Two left and two right edge groups. *)
Definition E2 : labels :=
  label_image [(10%nat, -100000); (20%nat, 100000);
               (30%nat, -100001); (40%nat, 100001)].

(** Straight edges: 10 + x on the left, 30 + x on the right. *)
Definition fit0 (left : bool) : fit_side :=
  {| coeff := [[if left then 10 else 30; 1]%float];
     nmbrarr := []; diffarr := []; wghtarr := [] |}.

(** Two slits are detected and synchronisation returns the four of [L4],
    [R4]. *)
Definition K4 : Kernels := stub E2 (2, 2) fit0 L4 R4.


(** One slit is detected. *)
Definition K1 : Kernels := stub E1 (1, 1) fit0 [] [].

(** No edge is detected. *)
Definition K0 : Kernels := stub E0 (0, 0) fit0 [] [].

(** Three left groups and one right group are reported. *)
Definition K31 : Kernels := stub E2 (3, 1) fit0 [] [].

(** Two slits are detected and synchronisation returns none. *)
Definition K_none : Kernels := stub E2 (2, 2) fit0 [] [].

(** The instance after the first and the second part of [run] with
    [K1]. *)
Definition st_detect1 : TraceSlits :=
  match run_detect K1 state0 with
  | Ok (_, s) => s
  | Raise _ => state0
  end.

Definition st_fit1 : TraceSlits :=
  match run_trace K1 true false None st_detect1 with
  | Ok (_, s) => s
  | Raise _ => state0
  end.

(** The instance after the first and the second part of [run] with
    [K_none]. *)
Definition st_detect_none : TraceSlits :=
  match run_detect K_none state0 with
  | Ok (_, s) => s
  | Raise _ => state0
  end.

Definition st_fit_none : TraceSlits :=
  match run_trace K_none true false None st_detect_none with
  | Ok (_, s) => s
  | Raise _ => state0
  end.

End Demo.

(** * Further methods and vocabulary *)

(** The property [nslit]: the number of columns of [lcen], zero while
    [lcen] is unset. *)
Definition nslit (s : TraceSlits) : nat :=
  match lcen s with
  | None => 0%nat
  | Some l => List.length l
  end.

(** What [reset_edgearr_ednum] does to one label when it acts and [ednum]
    is at least one: left labels move down and right labels up by
    [ednum - 1]. *)
Definition reset_label (ednum v : Z) : Z :=
  if v <? 0 then v - (ednum - 1)
  else if 0 <? v then v + (ednum - 1)
  else v.

(** The labels of an edge image, in row-major order. *)
Definition pixels_of (e : labels) : list Z := List.concat e.

(** ** The range of the labels

    The edge image is a numpy array of int64, and the class computes on
    its labels in place.  The methods are written on integers; the
    statements on what they compute assume that it stays within int64,
    where numpy's arithmetic and the integers agree. *)
Definition fits_int64 (v : Z) : bool :=
  (- 2 ^ 63 <=? v) && (v <=? 2 ^ 63 - 1).

(** [d] is an int64 and every label can be moved by [d] either way. *)
Definition shift_fits (d : Z) (px : list Z) : bool :=
  fits_int64 d &&
  forallb (fun v => fits_int64 (v - d) && fits_int64 (v + d)) px.

(** Every label is an int64 and so is its opposite. *)
Definition negation_fits (px : list Z) : bool :=
  forallb (fun v => fits_int64 v && fits_int64 (- v)) px.

(** Every label is an int64 and so are [1 + mx] and the gap
    [1 + mx - mn]. *)
Definition gap_fits (mx mn : Z) (px : list Z) : bool :=
  forallb fits_int64 px && fits_int64 (1 + mx) && fits_int64 (1 + mx - mn).


(** A parameter set asking for no PCA, and an instance holding three
    synchronised orders of two rows: the second has a zero on its left
    edge, the third on its right edge. *)
Definition par_nopca : TraceSlitsPar :=
  {| par_function := "legendre"; par_polyorder := 3; par_medrep := 0;
     par_number := -1; par_trim := (0%float, 0%float); par_maxgap := None;
     par_maxshift := None; par_pad := 0; par_sigdetect := 20%float;
     par_fracignore := 0.01%float; par_min_slit_width := 6%float;
     par_diffpolyorder := 2; par_single := []; par_sobel_mode := "nearest";
     par_pcatype := "off"; par_pcapar := [3; 2; 1; 0];
     par_pcaextrap := [0; 0] |}.

Definition state_nopca : TraceSlits :=
  set_sync {| lcent := [[1; 2]; [0; 3]; [4; 5]]%float;
              rcent := [[6; 7]; [8; 9]; [10; 0]]%float;
              gord := []; slitcen := [] |}
           (fresh Demo.mstrace0 Demo.pixlocn0 par_nopca (Some 1) None 100000).

(** The attributes a run only reads: the trace image and its smoothed
    version, the pixel locations, the parameters, the detector number,
    [ednum], the bad-pixel mask and the tweaked boundaries. *)
Definition inputs_kept (s s' : TraceSlits) : Prop :=
  mstrace s' = mstrace s /\ pixlocn s' = pixlocn s /\ par s' = par s /\
  det s' = det s /\ ednum s' = ednum s /\ binbpx s' = binbpx s /\
  binarr s' = binarr s /\
  lcen_tweak s' = lcen_tweak s /\ rcen_tweak s' = rcen_tweak s.

(** The log of steps has only grown. *)
Definition steps_extended (s s' : TraceSlits) : Prop :=
  exists l, steps s' = steps s ++ l.

Definition framed (s s' : TraceSlits) : Prop :=
  inputs_kept s s' /\ steps_extended s s'.

(** A computation that, whenever it returns, has kept the inputs and only
    appended to the log. *)
Definition preserves {A} (m : M A) : Prop :=
  forall s a s', m s = Ok (a, s') -> framed s s'.

(** The outcome of a run with one slit detected ([Demo.K1]): the
    dictionary returned and the instance it leaves. *)
Definition run1_result : option tslits_dict_t :=
  match run Demo.K1 true false None PyNone Demo.state0 with
  | Ok (r, _) => r
  | Raise _ => None
  end.

Definition st_run1 : TraceSlits :=
  match run Demo.K1 true false None PyNone Demo.state0 with
  | Ok (_, s) => s
  | Raise _ => Demo.state0
  end.

(** The same for a run with two slits detected and four synchronised
    ([Demo.K4]), with a plate scale of one half. *)
Definition run4_result : option tslits_dict_t :=
  match run Demo.K4 true false None (PyFloat 0.5) Demo.state0 with
  | Ok (r, _) => r
  | Raise _ => None
  end.

Definition st_run4 : TraceSlits :=
  match run Demo.K4 true false None (PyFloat 0.5) Demo.state0 with
  | Ok (_, s) => s
  | Raise _ => Demo.state0
  end.

(** ** The log of steps of a run *)

(** The state [s'] is [s] with the given step names appended to the log,
    the same parameters and the same [user_set]. *)
Definition logged (names : list string) (s s' : TraceSlits) : Prop :=
  steps s' = steps s ++ names /\ par s' = par s /\ user_set s' = user_set s.

Definition logs {A} (names : list string) (m : M A) : Prop :=
  forall s a s', m s = Ok (a, s') -> logged names s s'.

(** Is the single-slit override in use? *)
Definition single_set (p : TraceSlitsPar) : bool :=
  (0 <? List.length (par_single p))%nat.

Definition step_if (b : bool) (names : list string) : list string :=
  if b then names else [].

Definition is_some {A} (o : option A) : bool :=
  match o with Some _ => true | None => false end.

(** The steps recorded up to the test of [any_slits]. *)
Definition detect_log (p : TraceSlitsPar) : list string :=
  [(if single_set p then "_edgearr_single_slit" else "_edgearr_from_binarr")%string;
   "_match_edges"%string; "_add_left_right"%string].

(** The steps recorded from there to the two edge fits. *)
Definition trace_log (p : TraceSlitsPar) (arms ignore_orders user : bool)
  : list string :=
  step_if (is_some (par_maxgap p)) ["_maxgap_prep"%string]
  ++ ["_assign_edges"%string]
  ++ step_if (is_some (par_maxgap p)) ["_maxgap_close"%string]
  ++ step_if (negb (single_set p)) ["_final_left_right"%string]
  ++ step_if arms ["_mslit_tcrude"%string; "_mslit_sync"%string]
  ++ step_if user ["add_user_slits"%string]
  ++ step_if ignore_orders ["_ignore_orders"%string]
  ++ ["_fit_edges_left"%string; "_fit_edges_right"%string].

(** The step recorded by [_pca]. *)
Definition pca_log (p : TraceSlitsPar) : list string :=
  if String.eqb (par_pcatype p) "order" then ["_pca_order_slit_edges"%string]
  else if String.eqb (par_pcatype p) "pixel" then ["_pca_pixel_slit_edges"%string]
  else [].

(** The steps recorded after the fits on the general path. *)
Definition general_log (p : TraceSlitsPar) : list string :=
  ["_synchronize"%string] ++ pca_log p ++ ["_trim_slits"%string].

(** ** The single-slit override and the trivial assignment *)

(** The position in [par['single']] of the left edge of detector [d], for
    a list of [n] entries: Python counts a negative index from the end. *)
Definition single_index (n d : Z) : Z :=
  if d <? 1 then n + (d - 1) * 2 else (d - 1) * 2.

(** What [_assign_edges] does to one label when both counts are one. *)
Definition clamp_label (ednum v : Z) : Z :=
  if v <=? -2 * ednum then - ednum
  else if 2 * ednum <=? v then ednum
  else v.

(** A parameter set with the edges of two detectors given by hand, and an
    instance for detector 2. *)
Definition par_single2 : TraceSlitsPar :=
  {| par_function := "legendre"; par_polyorder := 3; par_medrep := 0;
     par_number := -1; par_trim := (0%float, 0%float); par_maxgap := None;
     par_maxshift := None; par_pad := 0; par_sigdetect := 20%float;
     par_fracignore := 0.01%float; par_min_slit_width := 6%float;
     par_diffpolyorder := 2; par_single := [5; 20; 7; 30]%float;
     par_sobel_mode := "nearest";
     par_pcatype := "pixel"; par_pcapar := [3; 2; 1; 0];
     par_pcaextrap := [0; 0] |}.

Definition state_single2 : TraceSlits :=
  fresh Demo.mstrace0 Demo.pixlocn0 par_single2 (Some 2) None 100000.

(** An instance with one group of edges on each side, some of them still
    carrying a doubled id. *)
Definition state_one_group : TraceSlits :=
  set_rcnt 1 (set_lcnt 1
    (set_edgearr [[-200000; -5; 0]; [7; 200001; -300000]] state_nopca)).

(** ** [__repr__] *)

(** [txt[:-2]]. *)
Definition drop_last2 (t : string) : string :=
  String.substring 0 (String.length t - 2) t.

(** [__repr__] of an instance of the class itself, whose
    [__class__.__name__] is ["TraceSlits"]. *)
Definition __repr__ (s : TraceSlits) : string :=
  let txt := "<TraceSlits: "%string in
  let txt :=
    if (0 <? List.length (steps s))%nat
    then
      let txt := String.append txt " steps: [" in
      let txt := fold_left
                   (fun t step => String.append t (String.append step ", "))
                   (steps s) txt in
      String.append (drop_last2 txt) "]"
    else txt in
  String.append txt ">".

(** ** [load_traceslit_files] *)

(** A Python dict with string keys, in insertion order. *)
Definition dict (A : Type) : Type := list (string * A).

Fixpoint dict_get {A} (d : dict A) (key : string) : option A :=
  match d with
  | [] => None
  | (k, v) :: t => if String.eqb k key then Some v else dict_get t key
  end.

Fixpoint dict_set {A} (d : dict A) (key : string) (v : A) : dict A :=
  match d with
  | [] => [(key, v)]
  | (k, w) :: t =>
      if String.eqb k key then (k, v) :: t else (k, w) :: dict_set t key v
  end.

(** [names.index(key)]. *)
Fixpoint index_of (key : string) (names : list string) : option nat :=
  match names with
  | [] => None
  | n :: t => if String.eqb n key then Some 0%nat
              else option_map S (index_of key t)
  end.

(** The extensions [load_traceslit_files] looks for. *)
Definition master_keys : list string :=
  ["MSTRACE"; "PIXLOCN"; "BINBPX"; "LCEN"; "RCEN"; "LCEN_TWEAK";
   "RCEN_TWEAK"; "EDGEARR"; "SIGLEV"]%string.

Definition out_of_date_message : string :=
  "This is an out-of-date MasterTrace flat.  You will need to make a new one".

Section LoadFiles.

(** The data of an extension and the content of the JSON file. *)
Variables (A J : Type).

(** The file system and the two readers: [os.path.isfile], [fits.open]
    (giving the name and the data of each extension) and [ltu.loadjson]. *)
Variable isfile : string -> bool.
Variable fits_open : string -> result (list (string * A)).
Variable loadjson : string -> result J.

(** One turn of the loop over the keys. *)
Definition load_key (hdul : list (string * A)) (key : string)
           (fits_dict : dict A) : result (dict A) :=
  let names := map fst hdul in
  if existsb (String.eqb key) names
  then
    let? i := of_option (ValueError "is not in list")
                        (index_of key names) in
    let? h := of_option (IndexError "list index out of range")
                        (nth_error hdul i) in
    Ok (dict_set fits_dict key (snd h))
  else Ok fits_dict.

Fixpoint load_keys (hdul : list (string * A)) (keys : list string)
         (fits_dict : dict A) : result (dict A) :=
  match keys with
  | [] => Ok fits_dict
  | key :: rest =>
      let? d := load_key hdul key fits_dict in
      load_keys hdul rest d
  end.

Definition load_traceslit_files (root : string)
  : result (option (dict A) * option J) :=
  let fits_dict := [] in
  let fits_file := String.append root ".fits.gz" in
  if negb (isfile fits_file) then Ok (None, None)
  else
    let? hdul := fits_open fits_file in
    let names := map fst hdul in
    if existsb (String.eqb "SLITPIXELS") names
    then Raise (PypeItError out_of_date_message)
    else
      let? fits_dict := load_keys hdul master_keys fits_dict in
      let json_file := String.append root ".json" in
      let? ts_dict := loadjson json_file in
      Ok (Some fits_dict, Some ts_dict).

(** The data of the first extension of a given name. *)
Definition first_named (hdul : list (string * A)) (key : string) : option A :=
  option_map snd (find (fun h => String.eqb (fst h) key) hdul).

End LoadFiles.

(** * [PypeItImage]: an image and its companions

    The class of [pypeit/images/pypeitimage.py] and the two functions that
    write and read it.  An instance is its dictionary of attributes; the
    values that occur are [None], arrays, FITS headers and tuples of
    names.  What the module takes from elsewhere is gathered in
    [Externals]: the [mask_attributes] and the [__init__] of the base
    class [ImageMask], the [in] test on a value that is no tuple, the
    printed form of a value, and [initialize_header]. *)

Module PypeItImage.

(** [str.lower] and [str.upper] on ASCII names, as FITS has them. *)
Definition lower_char (c : Ascii.ascii) : Ascii.ascii :=
  let n := Ascii.nat_of_ascii c in
  if ((65 <=? n) && (n <=? 90))%nat then Ascii.ascii_of_nat (n + 32) else c.

Definition upper_char (c : Ascii.ascii) : Ascii.ascii :=
  let n := Ascii.nat_of_ascii c in
  if ((97 <=? n) && (n <=? 122))%nat then Ascii.ascii_of_nat (n - 32) else c.

Fixpoint map_string (f : Ascii.ascii -> Ascii.ascii) (s : string) : string :=
  match s with
  | EmptyString => EmptyString
  | String c t => String (f c) (map_string f t)
  end.

Definition lower : string -> string := map_string lower_char.
Definition upper : string -> string := map_string upper_char.

Section Image.

Variables (A H : Type).

Inductive value : Type :=
| VNone
| VArray (a : A)
| VHeader (h : H)
| VNames (l : list string).

Definition object : Type := dict value.

(** One HDU of an opened FITS file. *)
Record hdu : Type := {
  hdu_name : string;
  hdu_header : H;
  hdu_data : value
}.

Record Externals : Type := {
  mask_attributes : list string;
  ImageMask__init__ : value -> object;
  contains : value -> string -> result bool;
  format_value : value -> string;
  initialize_header : H
}.

Variable X : Externals.

Definition getattr (o : object) (name : string) : result value :=
  of_option
    (AttributeError
       (String.append "'PypeItImage' object has no attribute '"
                      (String.append name "'")))
    (dict_get o name).

Definition setattr (o : object) (name : string) (v : value) : object :=
  dict_set o name v.

Definition is_none (v : value) : bool :=
  match v with VNone => true | _ => false end.

(** [name in v]. *)
Definition is_in (name : string) (v : value) : result bool :=
  match v with
  | VNames l => Ok (existsb (String.eqb name) l)
  | VNone => Raise (TypeError "argument of type 'NoneType' is not iterable")
  | _ => contains X v name
  end.

Definition __init__ (image ivar rn2img bpm state binning crmask mask : value)
  : object :=
  let self := ImageMask__init__ X bpm in
  let self := setattr self "image" image in
  let self := setattr self "ivar" ivar in
  let self := setattr self "rn2img" rn2img in
  let self := setattr self "state" state in
  let self := setattr self "binning" binning in
  let self := setattr self "head0" VNone in
  let self := setattr self "crmask" crmask in
  let self := setattr self "mask" mask in
  setattr self "allowed_attributes"
          (VNames (["image"; "ivar"; "rn2img"]%string ++ mask_attributes X)).

(** The arguments [save_images] hands to [save.write_fits]: the header,
    the images, the file and the extension names. *)
Definition write_fits_call : Type := H * list value * string * list string.

(** The loop over [ivar] and [mask]. *)
Fixpoint save_items (pypeitImage : object) (items : list string)
         (data : list value) (ext : list string)
  : result (list value * list string) :=
  match items with
  | [] => Ok (data, ext)
  | item :: rest =>
      let? v := getattr pypeitImage item in
      if negb (is_none v)
      then save_items pypeitImage rest (data ++ [v]) (ext ++ [upper item])
      else save_items pypeitImage rest data ext
  end.

Definition save_images (pypeitImage : object) (outfile : string)
           (hdr : option H) (iext : option string) : result write_fits_call :=
  let hdr := match hdr with Some h => h | None => initialize_header X end in
  let? image := getattr pypeitImage "image" in
  let data := [image] in
  let ext := match iext with None => ["IMAGE"%string] | Some n => [n] end in
  let? de := save_items pypeitImage ["ivar"; "mask"]%string data ext in
  Ok (hdr, fst de, outfile, snd de).

Definition not_allowed_message (name : string) (allowed : value) : string :=
  String.append "Extenstion "
    (String.append name
       (String.append " is not an allowed attribute of "
                      (format_value X allowed))).

(** The loop over the extensions from the third HDU on. *)
Fixpoint load_extensions (exts : list hdu) (pypeitImage : object)
  : result object :=
  match exts with
  | [] => Ok pypeitImage
  | h :: rest =>
      let? allowed := getattr pypeitImage "allowed_attributes" in
      let? ok := is_in (lower (hdu_name h)) allowed in
      if negb ok
      then Raise (PypeItError (not_allowed_message (hdu_name h) allowed))
      else load_extensions rest
             (setattr pypeitImage (lower (hdu_name h)) (hdu_data h))
  end.

(** [load_images] on the opened file. *)
Definition load_images (hdul : list hdu) : result object :=
  let? h0 := py_index hdul 0 in
  let head0 := hdu_header h0 in
  let? h1 := py_index hdul 1 in
  let pypeitImage :=
    __init__ (hdu_data h1) VNone VNone VNone VNone VNone VNone VNone in
  let pypeitImage := setattr pypeitImage "head0" (VHeader head0) in
  load_extensions (skipn 2 hdul) pypeitImage.

(** The names an instance accepts. *)
Definition allowed : list string :=
  ["image"; "ivar"; "rn2img"]%string ++ mask_attributes X.

Definition is_allowed (h : hdu) : bool :=
  existsb (String.eqb (lower (hdu_name h))) allowed.

(** The instance [load_images] starts from, before the loop. *)
Definition loaded_base (h0 h1 : hdu) : object :=
  setattr (__init__ (hdu_data h1) VNone VNone VNone VNone VNone VNone VNone)
          "head0" (VHeader (hdu_header h0)).

(** The opened file holds the images handed to [save.write_fits]: after
    the primary HDU it has one extension for each image, in their order,
    with that image as data, and the extensions after the first bear the
    names given.  Nothing is assumed on the primary HDU, whose header the
    FITS library completes, nor on the name of the first extension. *)
Definition holds (hdul : list hdu) (c : write_fits_call) : Prop :=
  let '(_, data, _, ext) := c in
  exists h0 h1 rest,
    hdul = h0 :: h1 :: rest /\
    map hdu_data (h1 :: rest) = data /\
    map hdu_name rest = tl ext.

End Image.

Arguments VNone {A H}.
Arguments VArray {A H} a.
Arguments VHeader {A H} h.
Arguments VNames {A H} l.
Arguments hdu_name {A H} h.
Arguments hdu_header {A H} h.
Arguments hdu_data {A H} h.
Arguments mask_attributes {A H} e.
Arguments getattr {A H} o name.
Arguments setattr {A H} o name v.
Arguments is_none {A H} v.
Arguments __init__ {A H} X image ivar rn2img bpm state binning crmask mask.
Arguments save_images {A H} X pypeitImage outfile hdr iext.
Arguments load_extensions {A H} X exts pypeitImage.
Arguments load_images {A H} X hdul.
Arguments allowed {A H} X.
Arguments is_allowed {A H} X h.
Arguments loaded_base {A H} X h0 h1.
Arguments holds {A H} hdul c.

End PypeItImage.

(** A base class with three mask attributes, a file with two IVAR
    extensions, and an instance with every image set. *)
Definition image_externals : PypeItImage.Externals Z string :=
  {| PypeItImage.mask_attributes := ["bpm"; "crmask"; "mask"]%string;
     PypeItImage.ImageMask__init__ := fun bpm => [("bpm"%string, bpm)];
     PypeItImage.contains := fun _ _ => Ok false;
     PypeItImage.format_value := fun _ => "?"%string;
     PypeItImage.initialize_header := "new header"%string |}.

Definition image_hdu (name : string) (data : PypeItImage.value Z string)
  : PypeItImage.hdu Z string :=
  {| PypeItImage.hdu_name := name;
     PypeItImage.hdu_header := "extension header"%string;
     PypeItImage.hdu_data := data |}.

Definition image_file : list (PypeItImage.hdu Z string) :=
  [ {| PypeItImage.hdu_name := "PRIMARY"%string;
       PypeItImage.hdu_header := "primary header"%string;
       PypeItImage.hdu_data := PypeItImage.VNone |};
    image_hdu "IMAGE" (PypeItImage.VArray 1);
    image_hdu "IVAR" (PypeItImage.VArray 2);
    image_hdu "MASK" (PypeItImage.VArray 3);
    image_hdu "IVAR" (PypeItImage.VArray 4) ].

Definition image_object : PypeItImage.object Z string :=
  PypeItImage.__init__ image_externals
    (PypeItImage.VArray 1) (PypeItImage.VArray 2) (PypeItImage.VArray 9)
    PypeItImage.VNone PypeItImage.VNone PypeItImage.VNone
    (PypeItImage.VArray 8) (PypeItImage.VArray 3).

Definition image_written : list (PypeItImage.hdu Z string) :=
  [ {| PypeItImage.hdu_name := "PRIMARY"%string;
       PypeItImage.hdu_header := "SIMPLE, BITPIX, NAXIS, EXTEND, new header"%string;
       PypeItImage.hdu_data := PypeItImage.VNone |};
    image_hdu "IMAGE" (PypeItImage.VArray 1);
    image_hdu "IVAR" (PypeItImage.VArray 2);
    image_hdu "MASK" (PypeItImage.VArray 3) ].

Definition image_call : PypeItImage.write_fits_call Z string :=
  ("new header"%string,
   [PypeItImage.VArray 1; PypeItImage.VArray 2; PypeItImage.VArray 3],
   "out.fits"%string, ["IMAGE"; "IVAR"; "MASK"]%string).

(** * Properties *)

(** ** Masks, selections and the trimming loop *)

Section MaskFacts.

Lemma set_item_length (m : list Z) (o : nat) (v : Z) :
  List.length (Np.set_item m o v) = List.length m.
Proof.
  revert o; induction m as [|x m IH]; intros [|o]; simpl; auto.
Qed.

Lemma nth_set_item_same (m : list Z) (o : nat) (v d : Z) :
  (o < List.length m)%nat -> nth o (Np.set_item m o v) d = v.
Proof.
  revert o; induction m as [|x m IH]; intros [|o] H; simpl in *;
    try lia; auto.
  apply IH; lia.
Qed.

Lemma nth_set_item_other (m : list Z) (o o' : nat) (v d : Z) :
  o <> o' -> nth o' (Np.set_item m o v) d = nth o' m d.
Proof.
  revert o o'; induction m as [|x m IH]; intros [|o] [|o'] H; simpl;
    auto; try congruence.
Qed.

Lemma where_zero_from_In (mask : list Z) (i o : nat) :
  In o (Np.where_zero_from i mask) <->
  (i <= o < i + List.length mask)%nat /\ nth (o - i) mask 1 = 0.
Proof.
  revert i; induction mask as [|m mask IH]; intros i; simpl.
  - split; [tauto | lia].
  - destruct (Z.eqb_spec m 0) as [E|E]; simpl; rewrite IH.
    + split.
      * intros [<-|[Hr Hn]].
        -- rewrite Nat.sub_diag. split; [lia | assumption].
        -- split; [lia|].
           destruct (o - i)%nat as [|k] eqn:Ek; [lia|].
           replace (o - S i)%nat with k in Hn by lia. assumption.
      * intros [Hr Hn].
        destruct (o - i)%nat as [|k] eqn:Ek.
        -- left; lia.
        -- right. split; [lia|].
           replace (o - S i)%nat with k by lia. assumption.
    + split.
      * intros [Hr Hn]. split; [lia|].
        destruct (o - i)%nat as [|k] eqn:Ek; [lia|].
        replace (o - S i)%nat with k in Hn by lia. assumption.
      * intros [Hr Hn].
        destruct (o - i)%nat as [|k] eqn:Ek; [congruence|].
        split; [lia|].
        replace (o - S i)%nat with k by lia. assumption.
Qed.

Lemma where_zero_from_sorted (mask : list Z) (i : nat) :
  StronglySorted lt (Np.where_zero_from i mask).
Proof.
  revert i; induction mask as [|m mask IH]; intros i; simpl.
  - constructor.
  - destruct (m =? 0); [|apply IH].
    constructor; [apply IH|].
    apply Forall_forall. intros o Ho.
    apply where_zero_from_In in Ho. lia.
Qed.

Lemma where_zero_In (mask : list Z) (o : nat) :
  In o (Np.where_zero mask) <->
  (o < List.length mask)%nat /\ nth o mask 1 = 0.
Proof.
  unfold Np.where_zero. rewrite where_zero_from_In, Nat.sub_0_r.
  intuition lia.
Qed.

Lemma where_zero_length (mask : list Z) :
  (List.length (Np.where_zero mask) <= List.length mask)%nat.
Proof.
  unfold Np.where_zero. generalize 0%nat.
  induction mask as [|m mask IH]; intros i; simpl; [lia|].
  destruct (m =? 0); simpl; specialize (IH (S i)); lia.
Qed.

Lemma take_in_range {A} (a : list A) (d : A) (idx : list nat) :
  Forall (fun o => (o < List.length a)%nat) idx ->
  Np.take a idx = Ok (map (fun o => nth o a d) idx).
Proof.
  induction 1 as [|o idx Ho _ IH]; simpl; [reflexivity|].
  destruct (nth_error a o) as [c|] eqn:E.
  - rewrite IH. simpl. f_equal. f_equal.
    symmetry. apply nth_error_nth. assumption.
  - apply nth_error_None in E. lia.
Qed.

Lemma take_ok_inv {A} (a : list A) (d : A) (idx : list nat) (out : list A) :
  Np.take a idx = Ok out ->
  Forall (fun o => (o < List.length a)%nat) idx /\
  out = map (fun o => nth o a d) idx.
Proof.
  revert out; induction idx as [|o idx IH]; simpl; intros out H.
  - inversion H. split; constructor.
  - destruct (nth_error a o) as [c|] eqn:E; [|discriminate].
    destruct (Np.take a idx) as [t|] eqn:Et; simpl in H; [|discriminate].
    inversion H; subst. destruct (IH _ eq_refl) as [Hf ->].
    split.
    + constructor; [|assumption]. apply nth_error_Some. congruence.
    + simpl. f_equal. symmetry. apply nth_error_nth. assumption.
Qed.

End MaskFacts.

Section TrimLoop.

Variables (ncol : nat) (trim_short_slits : bool) (plate_scale : pyval)
          (min_slit_width : float) (lcen : slitarr) (rcen : option slitarr).

Local Abbreviation body :=
  (trim_body ncol trim_short_slits plate_scale min_slit_width lcen rcen).
Local Abbreviation dropped :=
  (slit_dropped ncol trim_short_slits plate_scale min_slit_width lcen rcen).

Lemma set_item_twice (m : list Z) (o : nat) (v : Z) :
  Np.set_item (Np.set_item m o v) o v = Np.set_item m o v.
Proof.
  revert o; induction m as [|x m IH]; intros [|o]; simpl; auto.
  now rewrite IH.
Qed.

Lemma trim_body_dropped (o : nat) (mask : list Z) :
  body o mask =
  let? d := dropped o in
  Ok (if d then Np.set_item mask o 1 else mask).
Proof.
  unfold trim_body, slit_dropped.
  destruct (Np.min (nth o lcen [])) as [lo|e]; simpl; [|reflexivity].
  destruct ((float_of_nat ncol <? lo)%float); simpl.
  - destruct trim_short_slits; [|reflexivity].
    destruct (column_of rcen o) as [rcol|e]; simpl; [|reflexivity].
    destruct (Np.broadcast2 PrimFloat.sub rcol (nth o lcen [])) as [w|e]; simpl;
      [|reflexivity].
    destruct (float_mul (Np.median w) plate_scale) as [tw|e]; simpl;
      [|reflexivity].
    destruct ((tw <? min_slit_width)%float); [|reflexivity].
    now rewrite set_item_twice.
  - destruct (column_of rcen o) as [rcol|e]; simpl; [|reflexivity].
    destruct (Np.max rcol) as [hi|e]; simpl; [|reflexivity].
    destruct ((hi <? 0)%float); simpl.
    + destruct trim_short_slits; [|reflexivity].
      destruct (Np.broadcast2 PrimFloat.sub rcol (nth o lcen [])) as [w|e]; simpl;
        [|reflexivity].
      destruct (float_mul (Np.median w) plate_scale) as [tw|e]; simpl;
        [|reflexivity].
      destruct ((tw <? min_slit_width)%float); [|reflexivity].
      now rewrite set_item_twice.
    + destruct trim_short_slits; [|reflexivity].
      destruct (Np.broadcast2 PrimFloat.sub rcol (nth o lcen [])) as [w|e]; simpl;
        [|reflexivity].
      destruct (float_mul (Np.median w) plate_scale) as [tw|e]; simpl;
        [|reflexivity].
      destruct ((tw <? min_slit_width)%float); reflexivity.
Qed.

(** Loop invariant: after the iterations [a .. a+k-1] the mask holds [1]
    exactly at the iterated slits that were dropped, and is otherwise as
    before. *)
Lemma trim_loop_inv (k a : nat) (m m' : list Z) :
  (a + k <= List.length m)%nat ->
  for_each body (seq a k) m = Ok m' ->
  List.length m' = List.length m /\
  forall o,
    ((a <= o < a + k)%nat ->
     exists d, dropped o = Ok d /\
               nth o m' 1 = if d then 1 else nth o m 1) /\
    (~ (a <= o < a + k)%nat -> nth o m' 1 = nth o m 1).
Proof.
  revert a m m'; induction k as [|k IH]; intros a m m' Hlen H; simpl in H.
  - inversion H; subst. split; [reflexivity|].
    intros o; split; [lia | reflexivity].
  - rewrite trim_body_dropped in H.
    destruct (dropped a) as [d|e] eqn:Ed; simpl in H; [|discriminate].
    set (m1 := if d then Np.set_item m a 1 else m) in *.
    assert (Hl1 : List.length m1 = List.length m)
      by (unfold m1; destruct d; [apply set_item_length | reflexivity]).
    destruct (IH (S a) m1 m') as [Hl Hn]; [lia | assumption |].
    split; [congruence|].
    intros o; split.
    + intros Ho. destruct (Nat.eq_dec o a) as [->|Hne].
      * exists d. split; [assumption|].
        destruct (Hn a) as [_ Hout]. rewrite Hout by lia.
        unfold m1; destruct d; [|reflexivity].
        apply nth_set_item_same; lia.
      * destruct (Hn o) as [Hin _].
        destruct Hin as [d' [Hd' Hv]]; [lia|].
        exists d'. split; [assumption|]. rewrite Hv.
        destruct d'; [reflexivity|].
        unfold m1; destruct d; [|reflexivity].
        apply nth_set_item_other; congruence.
    + intros Ho. destruct (Hn o) as [_ Hout]. rewrite Hout by lia.
      unfold m1; destruct d; [|reflexivity].
      apply nth_set_item_other; lia.
Qed.


End TrimLoop.

Section TrimPredicateFacts.

Variables (ncol : nat) (trim_short_slits : bool) (plate_scale : pyval)
          (min_slit_width : float).

Local Abbreviation satisfies :=
  (satisfies ncol trim_short_slits plate_scale min_slit_width).
Local Abbreviation violates :=
  (violates ncol trim_short_slits plate_scale min_slit_width).

Lemma width_is_unique (lcol rcol : list float) (w w' : float) :
  width_is plate_scale lcol rcol w -> width_is plate_scale lcol rcol w' ->
  w = w'.
Proof.
  intros (d & p & Hd & Hp & ->) (d' & p' & Hd' & Hp' & ->).
  rewrite Hd in Hd'. rewrite Hp in Hp'. congruence.
Qed.

(** A slit cannot both satisfy and violate the predicates. *)
Lemma satisfies_not_violates (lcol rcol : list float) :
  satisfies lcol rcol -> ~ violates lcol rcol.
Proof.
  intros [[[lo [Hlo Hle]] [hi [Hhi Hge]]] Hw] [Hv|[Hv|Hv]].
  - destruct Hv as [lo' [Hlo' Hlt]]. rewrite Hlo in Hlo'.
    inversion Hlo'; subst. congruence.
  - destruct Hv as [hi' [Hhi' Hlt]]. rewrite Hhi in Hhi'.
    inversion Hhi'; subst. congruence.
  - destruct Hv as [Ht [w [Hw1 Hlt]]].
    destruct (Hw Ht) as [w' [Hw2 Hge']].
    rewrite (width_is_unique _ _ _ _ Hw1 Hw2) in Hlt. congruence.
Qed.

End TrimPredicateFacts.

Section TrimSelection.

Variables (ncol : nat) (trim_short_slits : bool) (plate_scale : pyval)
          (min_slit_width : float) (lcen : slitarr) (rcen : slitarr).

Local Abbreviation dropped :=
  (slit_dropped ncol trim_short_slits plate_scale min_slit_width
                lcen (Some rcen)).
Local Abbreviation sat :=
  (satisfies ncol trim_short_slits plate_scale min_slit_width).
Local Abbreviation viol :=
  (violates ncol trim_short_slits plate_scale min_slit_width).

Lemma kept_satisfies (o : nat) :
  dropped o = Ok false -> sat (nth o lcen []) (nth o rcen []).
Proof.
  unfold slit_dropped, column_of, satisfies,
    on_detector, not_short, width_is.
  destruct (Np.min (nth o lcen [])) as [lo|e] eqn:Emin; simpl;
    [|discriminate].
  destruct (float_of_nat ncol <? lo)%float eqn:Eoff; simpl.
  { destruct trim_short_slits; [|discriminate].
    destruct (nth_error rcen o); simpl; [|discriminate].
    destruct (Np.broadcast2 _ _ _); simpl; [|discriminate].
    destruct (float_mul _ _); simpl; discriminate. }
  destruct (nth_error rcen o) as [rcol|] eqn:Er; simpl; [|discriminate].
  rewrite (nth_error_nth _ _ [] Er).
  destruct (Np.max rcol) as [hi|e] eqn:Emax; simpl; [|discriminate].
  destruct (hi <? 0)%float eqn:Ehi; simpl.
  { destruct trim_short_slits; [|discriminate].
    destruct (Np.broadcast2 _ _ _); simpl; [|discriminate].
    destruct (float_mul _ _); simpl; discriminate. }
  intros H. split.
  - split; [exists lo | exists hi]; auto.
  - intros Ht. rewrite Ht in H.
    destruct (Np.broadcast2 PrimFloat.sub rcol (nth o lcen [])) as [w|e];
      simpl in H; [|discriminate].
    destruct plate_scale as [|p|k]; simpl in H; try discriminate.
    exists (Np.median w * p)%float. split.
    + exists w, p. repeat split; reflexivity.
    + now inversion H.
Qed.

Lemma dropped_violates (o : nat) :
  dropped o = Ok true -> viol (nth o lcen []) (nth o rcen []).
Proof.
  unfold slit_dropped, column_of, violates,
    off_right, off_left, too_short, width_is.
  destruct (Np.min (nth o lcen [])) as [lo|e] eqn:Emin; simpl;
    [|discriminate].
  destruct (float_of_nat ncol <? lo)%float eqn:Eoff; simpl.
  { intros _. left. exists lo. split; [reflexivity | exact Eoff]. }
  destruct (nth_error rcen o) as [rcol|] eqn:Er; simpl; [|discriminate].
  rewrite (nth_error_nth _ _ [] Er).
  destruct (Np.max rcol) as [hi|e] eqn:Emax; simpl; [|discriminate].
  destruct (hi <? 0)%float eqn:Ehi; simpl.
  { intros _. right; left. exists hi. split; [reflexivity | exact Ehi]. }
  destruct trim_short_slits; [|discriminate].
  destruct (Np.broadcast2 PrimFloat.sub rcol (nth o lcen [])) as [w|e];
    simpl; [|discriminate].
  destruct plate_scale as [|p|k]; simpl; try discriminate.
  intros H. right; right. split; [reflexivity|].
  exists (Np.median w * p)%float. split.
  - exists w, p. repeat split; reflexivity.
  - now inversion H.
Qed.

(** The decision reads a slit through three reductions only. *)
Lemma slit_dropped_decision (o : nat) (rcol : list float) :
  nth_error rcen o = Some rcol ->
  dropped o =
  trim_decision ncol trim_short_slits plate_scale min_slit_width
                (Np.min (nth o lcen [])) (Np.max rcol)
                (median_width (nth o lcen []) rcol).
Proof.
  intros Er. unfold slit_dropped, trim_decision, median_width, column_of.
  rewrite Er. simpl.
  destruct (Np.min (nth o lcen [])) as [lo|e]; simpl; [|reflexivity].
  destruct (float_of_nat ncol <? lo)%float; simpl.
  - destruct trim_short_slits; [|reflexivity].
    destruct (Np.broadcast2 _ _ _); reflexivity.
  - destruct (Np.max rcol) as [hi|e]; simpl; [|reflexivity].
    destruct trim_short_slits; [|reflexivity].
    destruct (Np.broadcast2 _ _ _); reflexivity.
Qed.

(** What [trim_arrays] computes: the columns of the slits that are not
    dropped, in increasing order of slit index. *)
Lemma trim_arrays_selection (l' r' : slitarr) :
  trim_arrays ncol trim_short_slits plate_scale min_slit_width
              lcen (Some rcen) = Ok (l', r') ->
  exists wok,
    StronglySorted lt wok /\
    l' = map (fun o => nth o lcen []) wok /\
    r' = map (fun o => nth o rcen []) wok /\
    (List.length wok <= List.length lcen)%nat /\
    (forall o, In o wok <->
               (o < List.length lcen)%nat /\ dropped o = Ok false) /\
    (forall o, (o < List.length lcen)%nat -> ~ In o wok ->
               dropped o = Ok true).
Proof.
  unfold trim_arrays.
  destruct (for_each _ _ _) as [mask|e] eqn:Eloop; simpl; [|discriminate].
  apply trim_loop_inv in Eloop; [|rewrite repeat_length; lia].
  destruct Eloop as [Hlen Hmask]. rewrite repeat_length in Hlen.
  destruct (Np.take lcen _) as [tl|e] eqn:Etl; simpl; [|discriminate].
  destruct (Np.take rcen _) as [tr|e] eqn:Etr; simpl; [|discriminate].
  intros H; inversion H; subst l' r'; clear H.
  apply (take_ok_inv _ []) in Etl, Etr.
  destruct Etl as [_ ->]. destruct Etr as [_ ->].
  assert (Hin : forall o, (o < List.length lcen)%nat ->
     exists d, dropped o = Ok d /\ nth o mask 1%Z = if d then 1%Z else 0%Z).
  { intros o Ho. destruct (Hmask o) as [Hi _].
    destruct Hi as [d [Hd Hv]]; [lia|]. exists d. split; [exact Hd|].
    rewrite Hv. destruct d; [reflexivity|].
    apply nth_repeat_lt. assumption. }
  exists (Np.where_zero mask). repeat split.
  - apply where_zero_from_sorted.
  - pose proof (where_zero_length mask). lia.
  - apply where_zero_In in H. lia.
  - apply where_zero_In in H. destruct H as [Ho Hz].
    rewrite Hlen in Ho. destruct (Hin o Ho) as [d [Hd Hv]].
    destruct d; [rewrite Hv in Hz; discriminate | exact Hd].
  - intros [Ho Hd]. apply where_zero_In. split; [lia|].
    destruct (Hin o Ho) as [d [Hd' Hv]].
    rewrite Hd in Hd'. inversion Hd'; subst d. exact Hv.
  - intros o Ho Hnot. destruct (Hin o Ho) as [d [Hd Hv]].
    destruct d; [exact Hd|].
    exfalso. apply Hnot. apply where_zero_In. split; [lia | exact Hv].
Qed.

End TrimSelection.

(** ** The method [_trim_slits] *)

Lemma min_nonempty (c : list float) :
  c <> [] -> exists lo, Np.min c = Ok lo.
Proof. destruct c; [congruence | eexists; reflexivity]. Qed.

Lemma max_nonempty (c : list float) :
  c <> [] -> exists hi, Np.max c = Ok hi.
Proof. destruct c; [congruence | eexists; reflexivity]. Qed.



(** What [_trim_slits] does on the instance, given what [trim_arrays]
    returns. *)
Lemma trim_slits_unfold (tss : bool) (ps : pyval) (st : TraceSlits)
      (l : slitarr) :
  lcen st = Some l ->
  _trim_slits tss ps st =
  let? out := trim_arrays (snd (shape (mstrace st))) tss ps
                          (par_min_slit_width (par st)) l (rcen st) in
  Ok (tt, set_steps (steps st ++ ["_trim_slits"%string])
            (set_rcen (Some (snd out)) (set_lcen (Some (fst out)) st))).
Proof.
  intros Hl. unfold _trim_slits. run_m. rewrite Hl. simpl.
  destruct (trim_arrays _ _ _ _ _ _) as [[l' r']|e]; reflexivity.
Qed.



(** ** Comparisons of floats *)

Section FloatFacts.





End FloatFacts.




(** ** Facts on the sorted data *)

Section MedianFacts.

Local Open Scope float_scope.

Lemma insert_length (y : float) (l : list float) :
  List.length (Np.insert y l) = S (List.length l).
Proof.
  induction l as [|z l IH]; simpl; [reflexivity|].
  destruct (y <=? z); simpl; congruence.
Qed.

Lemma sort_length (l : list float) :
  List.length (Np.sort l) = List.length l.
Proof.
  induction l as [|y l IH]; simpl; [reflexivity|].
  rewrite insert_length. congruence.
Qed.

End MedianFacts.

Lemma nth_map_in_range {A B} (f : A -> B) (l : list A) (k : nat) (d : B) (a : A) :
  (k < List.length l)%nat -> nth k (map f l) d = f (nth k l a).
Proof.
  intros Hk. rewrite (nth_indep _ d (f a)) by (rewrite length_map; exact Hk).
  apply map_nth.
Qed.

(** C1 (as amended).  The trimming stage does not test [left < right] row
    by row.  Whenever [_trim_slits] returns, the slits it keeps are exactly
    those on which none of its three tests fires, and those it drops
    exactly those on which one does: minimum of the left edge above the
    number of detector columns, maximum of the right edge below zero, or
    (short-slit cut on) median of right minus left times [plate_scale]
    below [min_slit_width], as computed in binary64.  The decision reads a
    slit through these three reductions only: two slits with the same
    minimum of the left edge, maximum of the right edge and median width
    are kept or dropped together, whatever their rows. *)
Theorem trim_applies_no_row_wise_test
        (tss : bool) (ps : pyval) (st st' : TraceSlits) (l r : slitarr) :
  lcen st = Some l -> rcen st = Some r ->
  _trim_slits tss ps st = Ok (tt, st') ->
  exists wok,
    lcen st' = Some (map (fun o => nth o l []) wok) /\
    rcen st' = Some (map (fun o => nth o r []) wok) /\
    (forall o, (o < List.length l)%nat ->
       (In o wok <->
        satisfies (snd (shape (mstrace st))) tss ps
                  (par_min_slit_width (par st)) (nth o l []) (nth o r [])) /\
       (~ In o wok <->
        violates (snd (shape (mstrace st))) tss ps
                 (par_min_slit_width (par st)) (nth o l []) (nth o r []))) /\
    (forall o o' rcol rcol',
       (o < List.length l)%nat -> (o' < List.length l)%nat ->
       nth_error r o = Some rcol -> nth_error r o' = Some rcol' ->
       Np.min (nth o l []) = Np.min (nth o' l []) ->
       Np.max rcol = Np.max rcol' ->
       median_width (nth o l []) rcol = median_width (nth o' l []) rcol' ->
       (In o wok <-> In o' wok)).
Proof.
  intros Hl Hr Hrun.
  rewrite (trim_slits_unfold tss ps st l Hl), Hr in Hrun.
  destruct (trim_arrays _ _ _ _ _ _) as [[l' r']|e] eqn:Et; simpl in Hrun;
    [|discriminate].
  inversion Hrun; subst st'; clear Hrun. simpl.
  destruct (trim_arrays_selection _ _ _ _ _ _ _ _ Et)
    as (wok & _ & -> & -> & _ & Hin & Hout).
  exists wok. split; [reflexivity|]. split; [reflexivity|].
  assert (Hkept : forall o, In o wok ->
            satisfies (snd (shape (mstrace st))) tss ps
                      (par_min_slit_width (par st)) (nth o l []) (nth o r [])).
  { intros o Ho. apply Hin in Ho. now apply kept_satisfies. }
  assert (Hdrop : forall o, (o < List.length l)%nat -> ~ In o wok ->
            violates (snd (shape (mstrace st))) tss ps
                     (par_min_slit_width (par st)) (nth o l []) (nth o r [])).
  { intros o Ho Hn. apply dropped_violates. now apply Hout. }
  split.
  - intros o Ho. split; split.
    + apply Hkept.
    + intros Hsat. destruct (in_dec Nat.eq_dec o wok) as [Hi|Hn];
        [exact Hi|].
      exfalso. exact (satisfies_not_violates _ _ _ _ _ _ Hsat (Hdrop o Ho Hn)).
    + apply Hdrop, Ho.
    + intros Hv Hi.
      exact (satisfies_not_violates _ _ _ _ _ _ (Hkept o Hi) Hv).
  - intros o o' rcol rcol' Ho Ho' Er Er' Emin Emax Emed.
    rewrite !Hin.
    rewrite (slit_dropped_decision _ _ _ _ _ _ o rcol Er).
    rewrite (slit_dropped_decision _ _ _ _ _ _ o' rcol' Er').
    rewrite Emin, Emax, Emed. tauto.
Qed.

Lemma trim_applies_no_row_wise_test_witness :
  exists st', _trim_slits true (PyFloat 0.5) Demo.state_sync = Ok (tt, st') /\
  exists wok,
    lcen st' = Some (map (fun o => nth o Demo.L4 []) wok) /\
    rcen st' = Some (map (fun o => nth o Demo.R4 []) wok) /\
    (forall o, (o < List.length Demo.L4)%nat ->
       (In o wok <->
        satisfies (snd (shape (mstrace Demo.state_sync))) true (PyFloat 0.5)
                  (par_min_slit_width (par Demo.state_sync))
                  (nth o Demo.L4 []) (nth o Demo.R4 [])) /\
       (~ In o wok <->
        violates (snd (shape (mstrace Demo.state_sync))) true (PyFloat 0.5)
                 (par_min_slit_width (par Demo.state_sync))
                 (nth o Demo.L4 []) (nth o Demo.R4 []))) /\
    (forall o o' rcol rcol',
       (o < List.length Demo.L4)%nat -> (o' < List.length Demo.L4)%nat ->
       nth_error Demo.R4 o = Some rcol -> nth_error Demo.R4 o' = Some rcol' ->
       Np.min (nth o Demo.L4 []) = Np.min (nth o' Demo.L4 []) ->
       Np.max rcol = Np.max rcol' ->
       median_width (nth o Demo.L4 []) rcol
         = median_width (nth o' Demo.L4 []) rcol' ->
       (In o wok <-> In o' wok)).
Proof.
  eexists. split; [vm_compute; reflexivity|].
  apply (trim_applies_no_row_wise_test true (PyFloat 0.5) Demo.state_sync _
           Demo.L4 Demo.R4).
  - reflexivity.
  - reflexivity.
  - vm_compute. reflexivity.
Defined.

(** ** Examples of trimming *)

Lemma init_demo :
  __init__ Demo.K4 Demo.mstrace0 Demo.pixlocn0 Demo.par0 (Some 1) None 100000
  = Ok Demo.state0.
Proof. vm_compute. reflexivity. Qed.

Lemma demo_rectangular : rectangular 3 Demo.L4 Demo.R4.
Proof.
  split; [reflexivity|]. split; repeat constructor.
Qed.

(** Rounding decides: in binary64 [(14.6 - 4.7) * 0.1] is below [0.99],
    and [(3 - 0) * 0.1] is [0.30000000000000004]. *)
Lemma trim_rounding_examples :
  slit_dropped 50 true (PyFloat 0.1) 0.99 [[4.7]%float] (Some [[14.6]%float]) 0
    = Ok true /\
  slit_dropped 50 true (PyFloat 0.1) 0.30000000000000004 [[0]%float]
               (Some [[3]%float]) 0
    = Ok false.
Proof. split; vm_compute; reflexivity. Qed.

(** C1 (counterexample).  The slit with left edge [10, 10, 40] and right
    edge [30, 30, 20] has its edges crossed on the last row; its median
    width is 20, so trimming keeps it, and [run] returns it in
    [tslits_dict]. *)
Lemma run_output_violates_left_lt_right :
  (exists st' l' r',
     _trim_slits true (PyFloat 0.5) Demo.state_sync = Ok (tt, st') /\
     lcen st' = Some l' /\ rcen st' = Some r' /\ ~ left_lt_right l' r') /\
  (exists d st' l' r',
     run Demo.K4 true false None (PyFloat 0.5) Demo.state0 = Ok (Some d, st') /\
     d_lcen d = Some l' /\ d_rcen d = Some r' /\ ~ left_lt_right l' r').
Proof.
  assert (Hbad : ~ left_lt_right [[10; 10; 10]; [10; 10; 40]]%float
                                 [[30; 30; 30]; [30; 30; 20]]%float).
  { intros H. specialize (H 1%nat 2%nat). simpl in H.
    assert (Hlt : (40 <? 20)%float = true) by (apply H; lia).
    vm_compute in Hlt. discriminate. }
  split.
  - eexists; eexists; eexists.
    split; [vm_compute; reflexivity|].
    split; [reflexivity|]. split; [reflexivity|]. exact Hbad.
  - eexists; eexists; eexists; eexists.
    split; [vm_compute; reflexivity|].
    split; [reflexivity|]. split; [reflexivity|]. exact Hbad.
Qed.

(** ** The monad, pointwise *)

Section MonadFacts.

Context {A B C : Type}.

Lemma bind_assoc (m : M A) (f : A -> M B) (g : B -> M C) (s : TraceSlits) :
  bind (bind m f) g s = bind m (fun a => bind (f a) g) s.
Proof. unfold bind. destruct (m s) as [[a s']|e]; reflexivity. Qed.

Lemma bind_ext (m : M A) (f g : A -> M B) (s : TraceSlits) :
  (forall a s', f a s' = g a s') -> bind m f s = bind m g s.
Proof. intros H. unfold bind. destruct (m s) as [[a s']|e]; auto. Qed.

Lemma bind_ok_inv (m : M A) (k : A -> M B) (s : TraceSlits) (r : B * TraceSlits) :
  bind m k s = Ok r -> exists a s', m s = Ok (a, s') /\ k a s' = Ok r.
Proof.
  unfold bind. destruct (m s) as [[a s']|e]; [|discriminate].
  intros H. exists a, s'. auto.
Qed.

Lemma bind_ok (m : M A) (k : A -> M B) (s s' : TraceSlits) (a : A) :
  m s = Ok (a, s') -> bind m k s = k a s'.
Proof. unfold bind. now intros ->. Qed.

Lemma bind_raise (m : M A) (k : A -> M B) (s : TraceSlits) (e : exn) :
  m s = Raise e -> bind m k s = Raise e.
Proof. unfold bind. now intros ->. Qed.

End MonadFacts.

(** ** The structure of [run] *)

Section RunStructure.

Variable K : Kernels.
Variables (arms ignore_orders : bool)
          (add_user_slits_arg : option user_slits_t) (plate_scale : pyval).

Lemma run_split (st : TraceSlits) :
  run K arms ignore_orders add_user_slits_arg plate_scale st =
  bind (run_detect K)
       (fun any_slits =>
          if negb any_slits then ret None
          else bind (run_trace K arms ignore_orders add_user_slits_arg)
                    (fun _ => run_finish K arms plate_scale)) st.
Proof.
  unfold run, run_detect, run_trace, run_finish.
  rewrite bind_assoc. apply bind_ext. intros single s1.
  rewrite bind_assoc. apply bind_ext. intros _ s2.
  rewrite bind_assoc. apply bind_ext. intros _ s3.
  apply bind_ext. intros any s4.
  destruct (negb any); [reflexivity|].
  rewrite bind_assoc. apply bind_ext. intros maxgap s5.
  rewrite bind_assoc. apply bind_ext. intros _ s6.
  rewrite bind_assoc. apply bind_ext. intros _ s7.
  rewrite bind_assoc. apply bind_ext. intros _ s8.
  rewrite bind_assoc. apply bind_ext. intros us s9.
  rewrite bind_assoc. apply bind_ext. intros _ s10.
  rewrite bind_assoc. apply bind_ext. intros _ s11.
  rewrite bind_assoc. apply bind_ext. intros _ s12.
  rewrite bind_assoc. apply bind_ext. intros _ s13.
  rewrite bind_assoc. apply bind_ext. intros _ s14.
  rewrite bind_assoc. apply bind_ext. intros _ s15.
  reflexivity.
Qed.

End RunStructure.

(** ** The no-slits outcome of [run] *)

Section NoSlits.

Variable K : Kernels.

Lemma add_left_right_spec (s : TraceSlits) :
  exists s1,
    _add_left_right K s =
      Ok (negb ((lcnt s1 =? 0) && (rcnt s1 =? 0)), s1) /\
    steps s1 = steps s ++ ["_add_left_right"%string].
Proof.
  unfold _add_left_right. run_m.
  destruct (edgearr_add_left_right K _ _ _ _ _ _) as [[e lc] rc].
  simpl.
  exists (set_steps (steps s ++ ["_add_left_right"%string])
            (set_rcnt rc (set_lcnt lc (set_edgearr e s)))).
  split; reflexivity.
Qed.

Lemma run_detect_last (st st1 : TraceSlits) (any : bool) :
  run_detect K st = Ok (any, st1) ->
  (any = false <-> lcnt st1 = 0 /\ rcnt st1 = 0) /\
  exists l, steps st1 = l ++ ["_add_left_right"%string].
Proof.
  unfold run_detect. intros H.
  apply bind_ok_inv in H. destruct H as (single & s1 & _ & H).
  apply bind_ok_inv in H. destruct H as (u & s2 & _ & H).
  apply bind_ok_inv in H. destruct H as (u' & s3 & _ & H).
  destruct (add_left_right_spec s3) as (s4 & Hrun & Hsteps).
  rewrite Hrun in H. inversion H; subst any st1; clear H.
  split; [|eexists; exact Hsteps].
  rewrite negb_false_iff, andb_true_iff, !Z.eqb_eq. tauto.
Qed.

Lemma run_finish_some (arms : bool) (ps : pyval) (s s' : TraceSlits)
      (r : option tslits_dict_t) :
  run_finish K arms ps s = Ok (r, s') -> exists d, r = Some d.
Proof.
  unfold run_finish. intros H.
  apply bind_ok_inv in H. destruct H as (b & s1 & _ & H).
  apply bind_ok_inv in H. destruct H as (u & s2 & _ & H).
  apply bind_ok_inv in H. destruct H as (u' & s3 & _ & H).
  apply bind_ok_inv in H. destruct H as (d & s4 & _ & H).
  inversion H. eexists; reflexivity.
Qed.

(** C4.  [run] returns [None] exactly when the edge counts left by
    [_add_left_right] are both zero.  It then returns normally, in the
    state in which [_add_left_right] left the instance, whose last recorded
    step is that one: no later stage has run. *)
Theorem run_returns_none_iff_no_edges
        (arms ignore_orders : bool) (add_user_slits_arg : option user_slits_t)
        (plate_scale : pyval) (st : TraceSlits) :
  (forall st',
     run K arms ignore_orders add_user_slits_arg plate_scale st
       = Ok (None, st') <->
     run_detect K st = Ok (false, st')) /\
  (forall any st1,
     run_detect K st = Ok (any, st1) ->
     (any = false <-> lcnt st1 = 0 /\ rcnt st1 = 0) /\
     exists l, steps st1 = l ++ ["_add_left_right"%string]).
Proof.
  split; [|intros any st1; apply run_detect_last].
  intros st'. rewrite run_split. split.
  - intros H. apply bind_ok_inv in H. destruct H as (any & s1 & Hd & H).
    destruct any; simpl in H.
    + apply bind_ok_inv in H. destruct H as (u & s2 & _ & H).
      apply run_finish_some in H. destruct H as [d H]. discriminate.
    + inversion H; subst. exact Hd.
  - intros Hd. rewrite (bind_ok _ _ _ _ _ Hd). reflexivity.
Qed.

End NoSlits.

(** With no edge reported on either side, [run] returns [None] after
    three steps. *)
Lemma run_no_slits_example :
  exists st',
    run Demo.K0 true false None PyNone Demo.state0 = Ok (None, st') /\
    steps st' = ["make_binarr"; "_edgearr_from_binarr"; "_match_edges";
                 "_add_left_right"]%string.
Proof. eexists. split; vm_compute; reflexivity. Qed.

(** ** Edge matching and the budget of edge ids *)

(** C5 (as amended).  [_match_edges] fails, with the error of [msgs.error],
    exactly when the count of edge groups on either side is at least
    [ednum]; otherwise it returns and stores the image and the two counts as
    [match_edges] reported them, unchanged. *)
Theorem match_edges_fails_iff_count_reaches_ednum (K : Kernels) (st : TraceSlits) :
  let '(e, lc, rc) := match_edges K (edgearr st) (ednum st) in
  (ednum st <= lc \/ ednum st <= rc <->
   _match_edges K st = Raise (PypeItError budget_message)) /\
  (lc < ednum st /\ rc < ednum st <->
   _match_edges K st =
     Ok (tt, set_steps (steps st ++ ["_match_edges"%string])
               (set_rcnt rc (set_lcnt lc (set_edgearr e st))))).
Proof.
  destruct (match_edges K (edgearr st) (ednum st)) as [[e lc] rc] eqn:E.
  unfold _match_edges. run_m. rewrite E. simpl.
  destruct (Z.leb_spec (ednum st) lc) as [Hl|Hl];
    destruct (Z.leb_spec (ednum st) rc) as [Hr|Hr]; simpl;
    (split; split; intros H; try reflexivity; try discriminate; try lia).
Qed.

(** C5 (counterexample).  With [ednum = 3] and three left groups, no count
    exceeds the budget and yet the step fails. *)
Lemma match_edges_fails_without_exceeding :
  let K := Demo.K31 in
  let st := set_edgearr Demo.E2
              (fresh Demo.mstrace0 Demo.pixlocn0 Demo.par0 (Some 1) None 3) in
  match_edges K (edgearr st) (ednum st) = (edgearr st, 3, 1) /\
  ~ (ednum st < 3 \/ ednum st < 1) /\
  _match_edges K st = Raise (PypeItError budget_message).
Proof.
  cbv zeta. split; [reflexivity|]. split; [simpl; lia|].
  vm_compute. reflexivity.
Qed.

(** ** Assignment of the edges *)

Section AssignEdges.

Variable K : Kernels.

Lemma assign_edges_split (st : TraceSlits) :
  _assign_edges K st =
  bind (assign_left K)
       (fun _ => bind (assign_right K)
                      (fun _ => append_step "_assign_edges")) st.
Proof.
  unfold _assign_edges, assign_left, assign_right. run_m.
  destruct (lcnt st =? 1); simpl; destruct (rcnt st =? 1); reflexivity.
Qed.

End AssignEdges.

(** C6.  When the left count is one, the left assignment only relabels:
    every pixel of [edgearr] at most [-2*ednum] becomes [-ednum], every
    other pixel and every other attribute is unchanged, and no collaborator
    is called (the outcome is the same for all of them).  Likewise on the
    right with pixels at least [2*ednum] becoming [ednum].  [_assign_edges]
    is the left assignment, then the right one, then the record of the
    step. *)
Theorem assign_edges_single_group_relabels (K : Kernels) (st : TraceSlits) :
  (lcnt st = 1 ->
   forall K',
     assign_left K' st =
     Ok (tt, set_edgearr
               (map (map (fun v => if v <=? -2 * ednum st
                                   then - ednum st else v))
                    (edgearr st)) st)) /\
  (rcnt st = 1 ->
   forall K',
     assign_right K' st =
     Ok (tt, set_edgearr
               (map (map (fun v => if 2 * ednum st <=? v
                                   then ednum st else v))
                    (edgearr st)) st)) /\
  _assign_edges K st =
  bind (assign_left K)
       (fun _ => bind (assign_right K)
                      (fun _ => append_step "_assign_edges")) st.
Proof.
  split; [|split; [|apply assign_edges_split]].
  - intros H K'. unfold assign_left. run_m. rewrite H. reflexivity.
  - intros H K'. unfold assign_right. run_m. rewrite H. reflexivity.
Qed.

(** One group on each side: the doubled ids are relabelled, the other
    pixels are left alone. *)
Lemma assign_edges_example :
  let st := set_rcnt 1 (set_lcnt 1
              (set_edgearr [[-200000; -5; 0; 7; 200001]]
                 Demo.state0)) in
  exists st',
    _assign_edges Demo.K4 st = Ok (tt, st') /\
    edgearr st' = [[-100000; -5; 0; 7; 100000]].
Proof. eexists. split; vm_compute; reflexivity. Qed.

(** ** Smoothing: [make_binarr] *)



(** With the moving average of module [Ndimage] as the filter: a column
    with rows 3, 6, 9, 30 and a column of zeros. *)
Lemma make_binarr_example :
  Ndimage.moving_average [[3; 0]; [6; 0]; [9; 0]; [30; 0]]%float
                         (3%nat, 1%nat)
  = [[5; 0]; [6; 0]; [15; 0]; [16; 0]]%float.
Proof. vm_compute. reflexivity. Qed.

(** ** Pixel maps: [_make_pixel_arrays] *)

Section PixelMaps.

Variable K : Kernels.

Lemma make_pixel_arrays_unfold (st : TraceSlits) :
  _make_pixel_arrays K st =
  let? p := pixel_maps K (boundaries st) (pixlocn st) (shape (mstrace st))
                       (par_pad (par st)) (par_trim (par st)) in
  Ok (tt, set_pix p st).
Proof.
  unfold _make_pixel_arrays, pixel_maps. run_m.
  destruct (boundaries st) as [ol or]. simpl.
  destruct (as_array ol) as [l|e]; simpl; [|reflexivity].
  destruct (as_array or) as [r|e]; simpl; [|reflexivity].
  destruct (zip_cols _ l r) as [mid|e]; simpl; [|reflexivity].
  destruct (zip_cols PrimFloat.sub r l) as [wid|e]; simpl; [|reflexivity].
  destruct (ximg_and_edgemask K l r _ _) as [xi em]. reflexivity.
Qed.

Lemma boundaries_set_pix (p : pixel_arrays) (st : TraceSlits) :
  boundaries (set_pix p st) = boundaries st.
Proof. reflexivity. Qed.

End PixelMaps.

(** C8.  Rebuilding the pixel maps is idempotent.  The maps are a function
    of the boundaries in use ([lcen], [rcen] or their tweaked versions), of
    [pixlocn], of the shape of the trace image and of the padding and
    trimming parameters, none of which [_make_pixel_arrays] changes: two
    successive invocations end as one does, with the same [pixcen],
    [pixwid], [lordpix], [rordpix], [slitpix], [ximg] and [edge_mask]. *)
Theorem make_pixel_arrays_idempotent (K : Kernels) (st : TraceSlits) :
  bind (_make_pixel_arrays K) (fun _ => _make_pixel_arrays K) st
    = _make_pixel_arrays K st /\
  (forall st1, _make_pixel_arrays K st = Ok (tt, st1) ->
     _make_pixel_arrays K st1 = Ok (tt, st1) /\
     boundaries st1 = boundaries st /\ pixlocn st1 = pixlocn st /\
     mstrace st1 = mstrace st /\ par st1 = par st) /\
  (forall st2 st1 st2',
     boundaries st2 = boundaries st -> pixlocn st2 = pixlocn st ->
     shape (mstrace st2) = shape (mstrace st) ->
     par_pad (par st2) = par_pad (par st) ->
     par_trim (par st2) = par_trim (par st) ->
     _make_pixel_arrays K st = Ok (tt, st1) ->
     _make_pixel_arrays K st2 = Ok (tt, st2') ->
     pix st2' = pix st1).
Proof.
  assert (Hidem : forall st1, _make_pixel_arrays K st = Ok (tt, st1) ->
                              _make_pixel_arrays K st1 = Ok (tt, st1)).
  { intros st1 H. rewrite make_pixel_arrays_unfold in H.
    destruct (pixel_maps K _ _ _ _ _) as [p|e] eqn:Ep; simpl in H;
      [|discriminate].
    inversion H; subst st1; clear H.
    rewrite make_pixel_arrays_unfold. simpl.
    change (boundaries (set_pix p st)) with (boundaries st).
    rewrite Ep. reflexivity. }
  split; [|split].
  - unfold bind at 1.
    destruct (_make_pixel_arrays K st) as [[[] st1]|e] eqn:E; [|reflexivity].
    now apply Hidem.
  - intros st1 H. split; [now apply Hidem|].
    rewrite make_pixel_arrays_unfold in H.
    destruct (pixel_maps K _ _ _ _ _) as [p|e]; simpl in H; [|discriminate].
    inversion H; subst st1. repeat split; reflexivity.
  - intros st2 st1 st2' Hb Hp Hs Hpad Htrim H1 H2.
    rewrite make_pixel_arrays_unfold in H1, H2.
    rewrite Hb, Hp, Hs, Hpad, Htrim in H2.
    destruct (pixel_maps K _ _ _ _ _) as [p|e]; simpl in H1, H2;
      [|discriminate].
    inversion H1; inversion H2; subst. reflexivity.
Qed.

(** The pixel maps of the two kept slits of [Demo] are built, and built
    again to the same result. *)
Lemma make_pixel_arrays_example :
  let st := set_rcen (Some [[30; 30; 30]; [30; 30; 20]]%float)
              (set_lcen (Some [[10; 10; 10]; [10; 10; 40]]%float) Demo.state0) in
  exists st1,
    _make_pixel_arrays Demo.K4 st = Ok (tt, st1) /\
    _make_pixel_arrays Demo.K4 st1 = Ok (tt, st1) /\
    option_map pixwid (pix st1) = Some [20; 6].
Proof.
  eexists. split; [vm_compute; reflexivity|].
  split; vm_compute; reflexivity.
Qed.

(** ** The longslit shortcut *)

Section Longslit.

Variable K : Kernels.

Lemma chk_for_longslit_false (s : TraceSlits) :
  one_edge_each s = false -> _chk_for_longslit K s = Ok (false, s).
Proof.
  unfold one_edge_each, _chk_for_longslit. run_m. now intros ->.
Qed.

(** The column computed for one side by the shortcut. *)
Lemma chk_for_longslit_true (s : TraceSlits) :
  one_edge_each s = true ->
  _chk_for_longslit K s =
  let nrow := fst (shape (mstrace s)) in
  let? minvf := corner_first (plane 0 (pixlocn s)) in
  let? maxvf := corner_last (plane 0 (pixlocn s)) in
  let? xint := first_column (pixlocn s) in
  let? lc := py_index (coeff (lfit s)) 0 in
  let? lcol := Np.assign_column nrow
                 (map (fun x => func_val K lc x (par_function (par s))
                                         minvf maxvf) xint) in
  let? rc := py_index (coeff (rfit s)) 0 in
  let? rcol := Np.assign_column nrow
                 (map (fun x => func_val K rc x (par_function (par s))
                                         minvf maxvf) xint) in
  Ok (true, set_rcen (Some [rcol]) (set_lcen (Some [lcol]) s)).
Proof.
  unfold one_edge_each, _chk_for_longslit. run_m. intros ->.
  destruct (corner_first _) as [minvf|e]; simpl; [|reflexivity].
  destruct (corner_last _) as [maxvf|e]; simpl; [|reflexivity].
  destruct (first_column _) as [xint|e]; simpl; [|reflexivity].
  destruct (py_index (coeff (lfit s)) 0) as [lc|e]; simpl; [|reflexivity].
  destruct (Np.assign_column _ _) as [lcol|e]; simpl; [|reflexivity].
  destruct (py_index (coeff (rfit s)) 0) as [rc|e]; simpl; [|reflexivity].
  destruct (Np.assign_column _ _) as [rcol|e]; simpl; reflexivity.
Qed.

Lemma chk_for_longslit_result (s s' : TraceSlits) (b : bool) :
  _chk_for_longslit K s = Ok (b, s') -> b = one_edge_each s.
Proof.
  destruct (one_edge_each s) eqn:H.
  - rewrite (chk_for_longslit_true s H). cbv zeta.
    destruct (corner_first _) as [minvf|e]; simpl; [|discriminate].
    destruct (corner_last _) as [maxvf|e]; simpl; [|discriminate].
    destruct (first_column _) as [xint|e]; simpl; [|discriminate].
    destruct (py_index (coeff (lfit s)) 0) as [lc|e]; simpl; [|discriminate].
    destruct (Np.assign_column _ _) as [lcol|e]; simpl; [|discriminate].
    destruct (py_index (coeff (rfit s)) 0) as [rc|e]; simpl; [|discriminate].
    destruct (Np.assign_column _ _) as [rcol|e]; simpl; [|discriminate].
    intros E; now inversion E.
  - rewrite (chk_for_longslit_false s H). intros E; now inversion E.
Qed.

Lemma run_finish_longslit (arms : bool) (ps : pyval) (s : TraceSlits) :
  one_edge_each s = true ->
  run_finish K arms ps s = longslit_finish K s.
Proof.
  intros H. unfold run_finish, longslit_finish.
  destruct (_chk_for_longslit K s) as [[b s']|e] eqn:E.
  - rewrite !(bind_ok _ _ _ _ _ E).
    apply chk_for_longslit_result in E. rewrite H in E. subst b. reflexivity.
  - now rewrite !(bind_raise _ _ _ _ E).
Qed.

Lemma run_finish_general (arms : bool) (ps : pyval) (s : TraceSlits) :
  one_edge_each s = false ->
  run_finish K arms ps s = general_finish K arms ps s.
Proof.
  intros H. unfold run_finish, general_finish.
  rewrite (bind_ok _ _ _ _ _ (chk_for_longslit_false s H)).
  rewrite bind_assoc. apply bind_ext. intros _ s1.
  rewrite bind_assoc. apply bind_ext. intros _ s2.
  reflexivity.
Qed.

Lemma assign_column_length (n : nat) (src out : list float) :
  Np.assign_column n src = Ok out -> List.length out = n.
Proof.
  unfold Np.assign_column.
  destruct (Nat.eqb_spec (List.length src) n) as [E|E].
  - intros H; inversion H; subst out; exact E.
  - destruct src as [|x [|y t]]; try discriminate.
    intros H; inversion H. apply repeat_length.
Qed.

Lemma assign_column_same (n : nat) (src : list float) :
  List.length src = n -> Np.assign_column n src = Ok src.
Proof.
  intros H. unfold Np.assign_column. now rewrite H, Nat.eqb_refl.
Qed.

End Longslit.

Section LongslitResult.

Variable K : Kernels.

Lemma first_column_value (p : pixlocn_t) (x : list float) :
  first_column p = Ok x -> x = map (fun row => nth 0 (hd [] row) 0%float) p.
Proof.
  destruct p as [|[|c r] p']; simpl; intros H; inversion H; reflexivity.
Qed.

Lemma corner_first_value (a : image) (v : float) :
  corner_first a = Ok v -> v = nth 0 (nth 0 a []) 0%float.
Proof.
  destruct a as [|[|x r] a']; simpl; intros H; inversion H; reflexivity.
Qed.

Lemma corner_last_value (a : image) (v : float) :
  corner_last a = Ok v -> v = nth 0 (last a []) 0%float.
Proof.
  unfold corner_last. destruct a as [|r a']; [discriminate|].
  destruct (last (r :: a') []) as [|x t]; [discriminate|].
  intros H; inversion H; reflexivity.
Qed.

Lemma py_index_zero_value {A} (l : list A) (c d : A) :
  py_index l 0 = Ok c -> c = nth 0 l d.
Proof.
  destruct l as [|x t]; unfold py_index; simpl; [discriminate|].
  intros H; inversion H; reflexivity.
Qed.

Lemma assign_column_value (n : nat) (src out : list float) :
  Np.assign_column n src = Ok out -> List.length src = n -> out = src.
Proof.
  intros H E. rewrite (assign_column_same n src E) in H. now inversion H.
Qed.

(** What the shortcut leaves behind, whenever it returns. *)
Lemma longslit_finish_result (s st' : TraceSlits) (r : option tslits_dict_t) :
  one_edge_each s = true ->
  longslit_finish K s = Ok (r, st') ->
  let nrow := fst (shape (mstrace s)) in
  let col c := map (fun x => func_val K (nth 0 c []) x
                                      (par_function (par s))
                                      (minvf_of s) (maxvf_of s))
                   (xint_of s) in
  exists d lcol rcol,
    r = Some d /\
    lcen st' = Some [lcol] /\ rcen st' = Some [rcol] /\
    List.length lcol = nrow /\ List.length rcol = nrow /\
    extrapord st' = Some [false] /\ d_extrapord d = Some [false] /\
    steps st' = steps s /\ sync st' = sync s /\
    (lcen_tweak s = None -> d_lcen d = Some [lcol] /\ d_rcen d = Some [rcol]) /\
    (List.length (pixlocn s) = nrow ->
     lcol = col (coeff (lfit s)) /\ rcol = col (coeff (rfit s))).
Proof.
  intros Hone H. cbv zeta. unfold longslit_finish in H.
  apply bind_ok_inv in H. destruct H as (b & s1 & Hchk & H).
  apply bind_ok_inv in H. destruct H as (u & s2 & Hmod & H).
  apply bind_ok_inv in H. destruct H as (u' & s3 & Hpix & H).
  apply bind_ok_inv in H. destruct H as (d & s4 & Hfill & H).
  inversion H; subst r st'; clear H.
  rewrite (chk_for_longslit_true K s Hone) in Hchk. cbv zeta in Hchk.
  destruct (corner_first _) as [minvf|e] eqn:Emin; simpl in Hchk;
    [|discriminate].
  destruct (corner_last _) as [maxvf|e] eqn:Emax; simpl in Hchk;
    [|discriminate].
  destruct (first_column _) as [xint|e] eqn:Ex; simpl in Hchk;
    [|discriminate].
  destruct (py_index (coeff (lfit s)) 0) as [lc|e] eqn:Elc; simpl in Hchk;
    [|discriminate].
  destruct (Np.assign_column _ _) as [lcol|e] eqn:El; simpl in Hchk;
    [|discriminate].
  destruct (py_index (coeff (rfit s)) 0) as [rc|e] eqn:Erc; simpl in Hchk;
    [|discriminate].
  destruct (Np.assign_column _ _) as [rcol|e] eqn:Er in Hchk; simpl in Hchk;
    [|discriminate].
  inversion Hchk; subst b s1; clear Hchk.
  unfold modify in Hmod. inversion Hmod; subst u s2; clear Hmod.
  rewrite make_pixel_arrays_unfold in Hpix.
  destruct (pixel_maps K _ _ _ _ _) as [p|e]; simpl in Hpix; [|discriminate].
  inversion Hpix; subst s3; clear Hpix.
  unfold _fill_tslits_dict in Hfill. run_m.
  exists d, lcol, rcol.
  apply first_column_value in Ex. apply corner_first_value in Emin.
  apply corner_last_value in Emax.
  apply (py_index_zero_value _ _ []) in Elc, Erc.
  pose proof (assign_column_length _ _ _ El) as Hll.
  pose proof (assign_column_length _ _ _ Er) as Hlr.
  assert (Hd : d_extrapord d = Some [false] /\
               (lcen_tweak s = None ->
                d_lcen d = Some [lcol] /\ d_rcen d = Some [rcol]) /\
               s4 = set_tslits_dict (Some d)
                      (set_pix p (set_extrapord (Some [false])
                         (set_rcen (Some [rcol]) (set_lcen (Some [lcol]) s))))).
  { unfold boundaries in Hfill. simpl in Hfill.
    destruct (lcen_tweak s) eqn:Et; simpl in Hfill;
      inversion Hfill; subst; simpl; repeat split; auto; discriminate. }
  destruct Hd as (Hde & Hdl & ->).
  repeat split; try reflexivity; try assumption.
  - now apply Hdl.
  - now apply Hdl.
  - apply assign_column_value in El;
      [|rewrite length_map, Ex, length_map; exact H].
    subst. reflexivity.
  - apply assign_column_value in Er;
      [|rewrite length_map, Ex, length_map; exact H].
    subst. reflexivity.
Qed.

End LongslitResult.

Section LongslitTotal.

Variable K : Kernels.

Lemma last_in {A} (l : list A) (d : A) : l <> [] -> In (last l d) l.
Proof.
  induction l as [|x [|y t] IH]; intros H; [congruence | left; reflexivity |].
  right. apply IH. discriminate.
Qed.

Lemma last_of_map {A B} (f : A -> B) (l : list A) (d : A) :
  last (map f l) (f d) = f (last l d).
Proof.
  induction l as [|x [|y t] IH]; try reflexivity.
  exact IH.
Qed.

Lemma fill_tslits_dict_spec (s : TraceSlits) (p : pixel_arrays) :
  pix s = Some p ->
  _fill_tslits_dict s =
  let d := {| d_lcen := fst (boundaries s); d_rcen := snd (boundaries s);
              d_pix := p; d_extrapord := extrapord s |} in
  Ok (d, set_tslits_dict (Some d) s).
Proof.
  intros Hp. unfold _fill_tslits_dict, bind, gets, lift.
  destruct (boundaries s). rewrite Hp. reflexivity.
Qed.

(** On an instance whose pixel arrays were never made the dictionary is not
    built: reading [ximg] raises. *)
Lemma fill_tslits_dict_unset (s : TraceSlits) :
  pix s = None ->
  _fill_tslits_dict s =
  Raise (AttributeError "'TraceSlits' object has no attribute 'ximg'").
Proof.
  intros Hp. unfold _fill_tslits_dict, bind, gets, lift.
  destruct (boundaries s). rewrite Hp. reflexivity.
Qed.

Lemma zip_cols_single (f : float -> float -> float) (a b : list float) :
  List.length a = List.length b ->
  zip_cols f [a] [b] = Ok [Np.map2 f a b].
Proof.
  intros H. unfold zip_cols, Np.broadcast2. simpl.
  rewrite H, Nat.eqb_refl. reflexivity.
Qed.

Lemma longslit_finish_total (n : nat) (s : TraceSlits) :
  one_edge_each s = true -> longslit_ready n s -> lcen_tweak s = None ->
  exists d st', longslit_finish K s = Ok (Some d, st').
Proof.
  intros Hone (Hn & Hpos & Hp & Hrows & Hlc & Hrc) Htw.
  unfold longslit_finish.
  assert (Hchk : exists lcol rcol,
            _chk_for_longslit K s =
              Ok (true, set_rcen (Some [rcol]) (set_lcen (Some [lcol]) s)) /\
            List.length lcol = n /\ List.length rcol = n).
  { rewrite (chk_for_longslit_true K s Hone). cbv zeta.
    destruct (pixlocn s) as [|row0 p'] eqn:Ep; [simpl in Hp; lia|].
    assert (Hr0 : row0 <> []) by (inversion Hrows; assumption).
    assert (Hlast : last (row0 :: p') [] <> []).
    { rewrite Forall_forall in Hrows. apply Hrows, last_in. discriminate. }
    assert (Hcf : exists v, corner_first (plane 0 (row0 :: p')) = Ok v).
    { destruct row0; [congruence|]. simpl. eexists; reflexivity. }
    assert (Hcl : exists v, corner_last (plane 0 (row0 :: p')) = Ok v).
    { unfold corner_last, plane.
      pose proof (last_of_map (map (fun c : list float => nth 0 c 0%float))
                              (row0 :: p') []) as Hlm.
      change (map (fun c : list float => nth 0 c 0%float) []) with (@nil float) in Hlm.
      destruct (map (map (fun c : list float => nth 0 c 0%float)) (row0 :: p'))
        as [|r1 a'] eqn:Em; [discriminate|].
      rewrite Hlm.
      destruct (last (row0 :: p') []) as [|x t]; [congruence|].
      simpl. eexists; reflexivity. }
    assert (Hfc : first_column (row0 :: p') =
                  Ok (map (fun row => nth 0 (hd [] row) 0%float) (row0 :: p'))).
    { destruct row0; [congruence|]. reflexivity. }
    destruct Hcf as [minvf Hcf]. destruct Hcl as [maxvf Hcl].
    rewrite Hcf, Hcl, Hfc. cbn [rbind].
    destruct (coeff (lfit s)) as [|lc lt]; [congruence|].
    destruct (coeff (rfit s)) as [|rc rt]; [congruence|].
    unfold py_index. cbn [List.length Z.of_nat Z.ltb Z.compare orb Z.leb
                          Z.to_nat nth_error of_option rbind].
    rewrite !assign_column_same by (rewrite !length_map, Hn; exact Hp).
    cbn [rbind]. eexists; eexists. split; [reflexivity|].
    rewrite !length_map. split; exact Hp. }
  destruct Hchk as (lcol & rcol & Hchk & Hll & Hlr).
  rewrite (bind_ok _ _ _ _ _ Hchk).
  set (s1 := set_rcen (Some [rcol]) (set_lcen (Some [lcol]) s)).
  set (s2 := set_extrapord (Some (repeat false 1)) s1).
  assert (Hmod : modify (set_extrapord (Some (repeat false 1))) s1
                 = Ok (tt, s2)) by reflexivity.
  rewrite (bind_ok _ _ _ _ _ Hmod).
  assert (Hpix : exists p, _make_pixel_arrays K s2 = Ok (tt, set_pix p s2)).
  { rewrite make_pixel_arrays_unfold. unfold boundaries. simpl.
    rewrite Htw. unfold pixel_maps. simpl.
    rewrite !zip_cols_single by congruence. simpl.
    eexists; reflexivity. }
  destruct Hpix as [p Hpix]. rewrite (bind_ok _ _ _ _ _ Hpix).
  rewrite (bind_ok _ _ _ _ _ (fill_tslits_dict_spec (set_pix p s2) p eq_refl)).
  unfold ret. eexists; eexists; reflexivity.
Qed.

End LongslitTotal.

(** C2.  When, after the two edge fits, one left and one right edge group
    remain, [run] takes the longslit shortcut: the rest of the run is the
    longslit check followed by the pixel arrays and the dictionary, whatever
    [arms] and [plate_scale] are; no synchronisation, PCA or trimming takes
    place (no step is recorded after the fits and the synchronisation
    outputs are untouched).  On return [lcen] and [rcen] are single columns
    of as many entries as the trace image has rows, [extrapord] is the
    one-entry all-False mask and, [pixlocn] having that many rows, the two
    columns are the two fitted functions evaluated at the abscissa of every
    row.  The run does return when the arrays the check reads are in
    order. *)
Theorem run_longslit_shortcut
        (K : Kernels) (arms ignore_orders : bool)
        (add_user_slits_arg : option user_slits_t) (plate_scale : pyval)
        (st st1 st2 : TraceSlits) :
  run_detect K st = Ok (true, st1) ->
  run_trace K arms ignore_orders add_user_slits_arg st1 = Ok (tt, st2) ->
  lmax (lr st2) + 1 - lmin (lr st2) = 1 ->
  rmax (lr st2) + 1 - rmin (lr st2) = 1 ->
  let nrow := fst (shape (mstrace st2)) in
  let col c := map (fun x => func_val K (nth 0 c []) x
                                      (par_function (par st2))
                                      (minvf_of st2) (maxvf_of st2))
                   (xint_of st2) in
  run K arms ignore_orders add_user_slits_arg plate_scale st
    = longslit_finish K st2 /\
  (forall r st',
     run K arms ignore_orders add_user_slits_arg plate_scale st = Ok (r, st') ->
     exists d lcol rcol,
       r = Some d /\
       lcen st' = Some [lcol] /\ rcen st' = Some [rcol] /\
       List.length lcol = nrow /\ List.length rcol = nrow /\
       extrapord st' = Some [false] /\ d_extrapord d = Some [false] /\
       steps st' = steps st2 /\ sync st' = sync st2 /\
       (lcen_tweak st2 = None ->
        d_lcen d = Some [lcol] /\ d_rcen d = Some [rcol]) /\
       (List.length (pixlocn st2) = nrow ->
        lcol = col (coeff (lfit st2)) /\ rcol = col (coeff (rfit st2)))) /\
  (forall n, longslit_ready n st2 -> lcen_tweak st2 = None ->
     exists d st',
       run K arms ignore_orders add_user_slits_arg plate_scale st
         = Ok (Some d, st')).
Proof.
  intros Hd Ht Hl Hr. cbv zeta.
  assert (Hone : one_edge_each st2 = true).
  { unfold one_edge_each. rewrite Hl, Hr. reflexivity. }
  assert (Hrun : run K arms ignore_orders add_user_slits_arg plate_scale st
                 = longslit_finish K st2).
  { rewrite run_split, (bind_ok _ _ _ _ _ Hd). simpl.
    rewrite (bind_ok _ _ _ _ _ Ht). now apply run_finish_longslit. }
  rewrite Hrun. split; [reflexivity|]. split.
  - intros r st' H. now apply (longslit_finish_result K st2 st' r Hone).
  - intros n Hready Htw. now apply (longslit_finish_total K n st2).
Qed.

(** With one edge on each side [run] returns the two straight edges
    evaluated on the three rows, whatever [plate_scale] is. *)
Lemma run_longslit_example :
  exists d st',
    run Demo.K1 true false None PyNone Demo.state0 = Ok (Some d, st') /\
    d_lcen d = Some [[10 + 0 * (1 + 0 * 0); 10 + 1 * (1 + 1 * 0);
                      10 + 2 * (1 + 2 * 0)]]%float /\
    d_extrapord d = Some [false] /\
    steps st' = ["make_binarr"; "_edgearr_from_binarr"; "_match_edges";
                 "_add_left_right"; "_assign_edges"; "_final_left_right";
                 "_mslit_tcrude"; "_mslit_sync"; "_fit_edges_left";
                 "_fit_edges_right"]%string.
Proof.
  eexists; eexists.
  split; [vm_compute; reflexivity|]. split; [vm_compute; reflexivity|].
  split; vm_compute; reflexivity.
Qed.

Lemma run_longslit_shortcut_witness :
  exists d st',
    run Demo.K1 true false None PyNone Demo.state0 = Ok (Some d, st').
Proof.
  apply (proj2 (proj2 (run_longslit_shortcut Demo.K1 true false None PyNone
                         Demo.state0 Demo.st_detect1 Demo.st_fit1
                         ltac:(vm_compute; reflexivity)
                         ltac:(vm_compute; reflexivity)
                         ltac:(vm_compute; reflexivity)
                         ltac:(vm_compute; reflexivity))) 3%nat).
  - unfold longslit_ready.
    split; [vm_compute; reflexivity|]. split; [lia|].
    split; [vm_compute; reflexivity|].
    split; [|split; vm_compute; discriminate].
    apply Forall_forall. intros row Hin.
    assert (Hp : pixlocn Demo.st_fit1 = Demo.pixlocn0)
      by (vm_compute; reflexivity).
    rewrite Hp in Hin.
    unfold Demo.pixlocn0 in Hin. apply in_map_iff in Hin.
    destruct Hin as (i & <- & _). discriminate.
  - vm_compute. reflexivity.
Defined.

(** ** [add_user_slits] with [run_to_finish] *)

Section UserSlits.

Variable K : Kernels.

Lemma plate_scale_unbound :
  load_name (add_user_slits_locals ++ module_globals) "plate_scale"
  = Raise (NameError "plate_scale").
Proof. vm_compute. reflexivity. Qed.

Lemma add_user_slits_split (user_slits : user_slits_t) (st : TraceSlits) :
  add_user_slits K user_slits true st =
  bind (add_user_slits_before_trim K user_slits)
       (fun _ =>
          bind (lift (load_name (add_user_slits_locals ++ module_globals)
                                "plate_scale"))
               (fun plate_scale =>
                  bind (_trim_slits true plate_scale)
                       (fun _ => append_step "add_user_slits"))) st.
Proof.
  unfold add_user_slits, add_user_slits_before_trim, when.
  rewrite bind_assoc. apply bind_ext. intros _ s1.
  rewrite bind_assoc. apply bind_ext. intros s s2.
  rewrite bind_assoc. apply bind_ext. intros _ s3.
  rewrite !bind_assoc. apply bind_ext. intros _ s4.
  rewrite !bind_assoc. apply bind_ext. intros _ s5.
  rewrite !bind_assoc. apply bind_ext. intros _ s6.
  rewrite !bind_assoc. apply bind_ext. intros _ s7.
  rewrite !bind_assoc. apply bind_ext. intros _ s8.
  rewrite !bind_assoc. reflexivity.
Qed.

End UserSlits.

(** C9 (as amended).  [add_user_slits] with [run_to_finish=True] never
    returns.  When the steps of the branch that precede the trimming call
    complete, the call raises the unbound-name error for [plate_scale],
    which is neither a parameter of the method nor a name of the module;
    when one of them raises, that exception is the outcome. *)
Theorem add_user_slits_run_to_finish_never_returns
        (K : Kernels) (user_slits : user_slits_t) (st : TraceSlits) :
  (forall r, add_user_slits K user_slits true st <> Ok r) /\
  (forall st1,
     add_user_slits_before_trim K user_slits st = Ok (tt, st1) ->
     add_user_slits K user_slits true st = Raise (NameError "plate_scale")) /\
  (forall e,
     add_user_slits_before_trim K user_slits st = Raise e ->
     add_user_slits K user_slits true st = Raise e).
Proof.
  rewrite add_user_slits_split.
  destruct (add_user_slits_before_trim K user_slits st) as [[[] s1]|e] eqn:E.
  - rewrite (bind_ok _ _ _ _ _ E).
    assert (Hname :
      bind (lift (load_name (add_user_slits_locals ++ module_globals)
                            "plate_scale"))
           (fun plate_scale =>
              bind (_trim_slits true plate_scale)
                   (fun _ => append_step "add_user_slits")) s1
      = Raise (NameError "plate_scale")).
    { unfold bind at 1, lift. rewrite plate_scale_unbound. reflexivity. }
    rewrite Hname. split; [discriminate|]. split; [reflexivity|].
    intros e He. discriminate.
  - rewrite (bind_raise _ _ _ _ E). split; [discriminate|].
    split; [discriminate|]. intros e' He. inversion He. reflexivity.
Qed.

(** On an instance holding two left and two right edge groups the trimming
    call is reached and the name is found unbound. *)
Lemma add_user_slits_name_error_example :
  add_user_slits Demo.K4 [] true (set_edgearr Demo.E2 Demo.state0)
  = Raise (NameError "plate_scale").
Proof. vm_compute. reflexivity. Qed.

(** C9 (counterexample).  On the instance left by a run that found no slit
    the label image has no left edge: with no user slit to add,
    [_set_lrminx] raises the error of a reduction over an empty selection
    before the trimming call is reached. *)
Lemma add_user_slits_raises_before_trim :
  exists st,
    run Demo.K0 true false None PyNone Demo.state0 = Ok (None, st) /\
    add_user_slits Demo.K0 [] true st
      = Raise (ValueError "zero-size array to reduction operation maximum which has no identity") /\
    add_user_slits Demo.K0 [] true st <> Raise (NameError "plate_scale").
Proof.
  eexists.
  split; [vm_compute; reflexivity|].
  split; [vm_compute; reflexivity|].
  vm_compute. discriminate.
Qed.

(** ** [run] with the default [plate_scale] *)

Section DefaultPlateScale.

Lemma slit_dropped_none_raises (ncol : nat) (msw : float) (l : slitarr)
      (r : option slitarr) (o : nat) :
  exists e, slit_dropped ncol true PyNone msw l r o = Raise e.
Proof.
  unfold slit_dropped.
  destruct (Np.min (nth o l [])) as [lo|e]; simpl; [|eexists; reflexivity].
  destruct ((float_of_nat ncol <? lo)%float); simpl.
  - destruct (column_of r o) as [rcol|e]; simpl; [|eexists; reflexivity].
    destruct (Np.broadcast2 PrimFloat.sub rcol (nth o l [])) as [w|e]; simpl;
      eexists; reflexivity.
  - destruct (column_of r o) as [rcol|e]; simpl; [|eexists; reflexivity].
    destruct (Np.max rcol) as [hi|e]; simpl; [|eexists; reflexivity].
    destruct (Np.broadcast2 PrimFloat.sub rcol (nth o l [])) as [w|e]; simpl;
      eexists; reflexivity.
Qed.

Lemma slit_dropped_none_type_error (ncol n : nat) (msw : float) (l r : slitarr)
      (o : nat) :
  rectangular n l r -> (0 < n)%nat -> (o < List.length l)%nat ->
  slit_dropped ncol true PyNone msw l (Some r) o = Raise none_times_float.
Proof.
  intros (Hlen & Hl & Hr) Hn Ho.
  rewrite Forall_forall in Hl, Hr.
  assert (Hlo : List.length (nth o l []) = n) by (apply Hl, nth_In, Ho).
  destruct (nth_error r o) as [rcol|] eqn:Er;
    [|apply nth_error_None in Er; lia].
  assert (Hro : List.length rcol = n)
    by (apply Hr; eapply nth_error_In; eassumption).
  unfold slit_dropped, column_of. rewrite Er. simpl.
  destruct (min_nonempty (nth o l [])) as [lo ->];
    [intros E; rewrite E in Hlo; simpl in Hlo; lia|].
  destruct (max_nonempty rcol) as [hi ->];
    [intros E; rewrite E in Hro; simpl in Hro; lia|].
  simpl.
  assert (Hb : Np.broadcast2 PrimFloat.sub rcol (nth o l []) =
               Ok (Np.map2 PrimFloat.sub rcol (nth o l []))).
  { unfold Np.broadcast2. rewrite Hro, Hlo, Nat.eqb_refl. reflexivity. }
  rewrite Hb.
  destruct ((float_of_nat ncol <? lo)%float); reflexivity.
Qed.

Lemma trim_slits_none_raises (s : TraceSlits) (c : list float) (l : slitarr) :
  lcen s = Some (c :: l) -> exists e, _trim_slits true PyNone s = Raise e.
Proof.
  intros Hl. rewrite (trim_slits_unfold true PyNone s _ Hl).
  unfold trim_arrays. cbn [for_each seq List.length rbind].
  rewrite trim_body_dropped.
  destruct (slit_dropped_none_raises (snd (shape (mstrace s)))
              (par_min_slit_width (par s)) (c :: l) (rcen s) 0) as [e ->].
  simpl. eexists; reflexivity.
Qed.

Lemma trim_slits_none_type_error (s : TraceSlits) (n : nat) (l r : slitarr) :
  lcen s = Some l -> rcen s = Some r -> l <> [] ->
  rectangular n l r -> (0 < n)%nat ->
  _trim_slits true PyNone s = Raise none_times_float.
Proof.
  intros Hl Hr Hne Hrect Hn. rewrite (trim_slits_unfold true PyNone s _ Hl).
  destruct l as [|c l]; [congruence|].
  unfold trim_arrays. cbn [for_each seq List.length rbind].
  rewrite trim_body_dropped, Hr.
  rewrite (slit_dropped_none_type_error _ n _ _ _ _ Hrect Hn)
    by (simpl; lia).
  reflexivity.
Qed.

Lemma trim_slits_ok_inv (tss : bool) (ps : pyval) (s s' : TraceSlits) :
  _trim_slits tss ps s = Ok (tt, s') -> exists l, lcen s = Some l.
Proof.
  unfold _trim_slits. run_m.
  destruct (lcen s) as [l|]; simpl; [|discriminate].
  intros _. eexists; reflexivity.
Qed.

End DefaultPlateScale.

(** C10 (as amended).  With [arms=True] and [plate_scale=None], trimming
    raises as soon as one slit reaches it: on arrays in order, the type
    error of multiplying the median width by [None].  Hence a run with
    these arguments that returns has returned [None] (no slit found), or
    has taken the longslit shortcut, or has reached [_trim_slits] with an
    empty slit set. *)
Theorem run_without_plate_scale_completes_only_without_trimmed_slit
        (K : Kernels) (ignore_orders : bool)
        (add_user_slits_arg : option user_slits_t) (st : TraceSlits) :
  (forall s c l,
     lcen s = Some (c :: l) -> exists e, _trim_slits true PyNone s = Raise e) /\
  (forall s n l r,
     lcen s = Some l -> rcen s = Some r -> l <> [] ->
     rectangular n l r -> (0 < n)%nat ->
     _trim_slits true PyNone s = Raise none_times_float) /\
  (forall r st',
     run K true ignore_orders add_user_slits_arg PyNone st = Ok (r, st') ->
     r = None \/
     exists st1 st2,
       run_detect K st = Ok (true, st1) /\
       run_trace K true ignore_orders add_user_slits_arg st1 = Ok (tt, st2) /\
       (one_edge_each st2 = true \/
        exists st3,
          bind (_synchronize K) (fun _ => _pca K) st2 = Ok (tt, st3) /\
          lcen st3 = Some [])).
Proof.
  split; [exact trim_slits_none_raises|].
  split; [exact trim_slits_none_type_error|].
  intros r st' H. rewrite run_split in H.
  apply bind_ok_inv in H. destruct H as (any & st1 & Hd & H).
  destruct any; simpl in H; [|inversion H; left; reflexivity].
  right. apply bind_ok_inv in H. destruct H as ([] & st2 & Ht & H).
  exists st1, st2. split; [exact Hd|]. split; [exact Ht|].
  destruct (one_edge_each st2) eqn:Hone; [left; reflexivity|right].
  rewrite (run_finish_general K true PyNone st2 Hone) in H.
  unfold general_finish in H.
  apply bind_ok_inv in H. destruct H as ([] & s3 & Hs & H).
  apply bind_ok_inv in H. destruct H as ([] & s4 & Hp & H).
  apply bind_ok_inv in H. destruct H as ([] & s5 & Htrim & _).
  exists s4. split.
  - rewrite (bind_ok _ _ _ _ _ Hs). exact Hp.
  - destruct (trim_slits_ok_inv _ _ _ _ Htrim) as [[|c l] Hl]; [exact Hl|].
    destruct (trim_slits_none_raises s4 c l Hl) as [e He]. congruence.
Qed.

(** C10 (counterexample).  Trimming an empty slit set never multiplies:
    with [plate_scale=None] it returns, and so does a run on which
    synchronisation leaves no slit, through the general path. *)
Lemma run_completes_without_plate_scale :
  (exists st',
     _trim_slits true PyNone
                 (set_rcen (Some []) (set_lcen (Some []) Demo.state0))
       = Ok (tt, st') /\ lcen st' = Some []) /\
  (exists d st',
     run Demo.K_none true false None PyNone Demo.state0 = Ok (Some d, st') /\
     one_edge_each Demo.st_fit_none = false /\
     steps st' = ["make_binarr"; "_edgearr_from_binarr"; "_match_edges";
                  "_add_left_right"; "_assign_edges"; "_final_left_right";
                  "_mslit_tcrude"; "_mslit_sync"; "_fit_edges_left";
                  "_fit_edges_right"; "_synchronize";
                  "_pca_pixel_slit_edges"; "_trim_slits"]%string).
Proof.
  split.
  - eexists. split; vm_compute; reflexivity.
  - eexists; eexists.
    split; [vm_compute; reflexivity|]. split; vm_compute; reflexivity.
Qed.

(** * Further properties of the methods *)

(** ** Reductions over label images *)

Section Reductions.

Lemma fold_max_spec (t : list Z) (x : Z) :
  let m := fold_left Z.max t x in
  (m = x \/ In m t) /\ x <= m /\ forall y, In y t -> y <= m.
Proof.
  revert x; induction t as [|a t IH]; intros x; simpl.
  - split; [left; reflexivity|]. split; [lia|]. intros y [].
  - destruct (IH (Z.max x a)) as (Hin & Hle & Hall).
    split; [|split].
    + destruct Hin as [Hin|Hin]; [|right; right; exact Hin].
      destruct (Z.max_spec x a) as [[_ E]|[_ E]].
      * right; left; congruence.
      * left; congruence.
    + lia.
    + intros y [<-|Hy]; [lia | now apply Hall].
Qed.

Lemma fold_min_spec (t : list Z) (x : Z) :
  let m := fold_left Z.min t x in
  (m = x \/ In m t) /\ m <= x /\ forall y, In y t -> m <= y.
Proof.
  revert x; induction t as [|a t IH]; intros x; simpl.
  - split; [left; reflexivity|]. split; [lia|]. intros y [].
  - destruct (IH (Z.min x a)) as (Hin & Hle & Hall).
    split; [|split].
    + destruct Hin as [Hin|Hin]; [|right; right; exact Hin].
      destruct (Z.min_spec x a) as [[_ E]|[_ E]].
      * left; congruence.
      * right; left; congruence.
    + lia.
    + intros y [<-|Hy]; [lia | now apply Hall].
Qed.

Lemma zmax_ok (l : list Z) (m : Z) :
  zmax l = Ok m -> In m l /\ forall y, In y l -> y <= m.
Proof.
  destruct l as [|x t]; [discriminate|]. simpl. intros H; inversion H.
  destruct (fold_max_spec t x) as (Hin & Hle & Hall).
  split.
  - destruct Hin as [->|Hin]; [left; reflexivity | right; exact Hin].
  - intros y [<-|Hy]; [exact Hle | now apply Hall].
Qed.

Lemma zmin_ok (l : list Z) (m : Z) :
  zmin l = Ok m -> In m l /\ forall y, In y l -> m <= y.
Proof.
  destruct l as [|x t]; [discriminate|]. simpl. intros H; inversion H.
  destruct (fold_min_spec t x) as (Hin & Hle & Hall).
  split.
  - destruct Hin as [->|Hin]; [left; reflexivity | right; exact Hin].
  - intros y [<-|Hy]; [exact Hle | now apply Hall].
Qed.

Lemma zmax_nonempty (l : list Z) : l <> [] -> exists m, zmax l = Ok m.
Proof. destruct l; [congruence | eexists; reflexivity]. Qed.

Lemma zmin_nonempty (l : list Z) : l <> [] -> exists m, zmin l = Ok m.
Proof. destruct l; [congruence | eexists; reflexivity]. Qed.

Lemma zmax_empty (l : list Z) :
  l = [] -> zmax l = Raise (Np.zero_size "maximum").
Proof. now intros ->. Qed.

Lemma pixels_of_map (f : Z -> Z) (e : labels) :
  pixels_of (map (map f) e) = map f (pixels_of e).
Proof.
  unfold pixels_of. induction e as [|r e IH]; simpl; [reflexivity|].
  now rewrite map_app, IH.
Qed.

End Reductions.

(** ** [reset_edgearr_ednum] *)

Section ResetEdgearr.

Lemma reset_unfold (st : TraceSlits) :
  reset_edgearr_ednum st =
  let? mx := zmax (pixels_of (edgearr st)) in
  Ok (tt,
      if mx <? ednum st
      then set_edgearr
             (update_where (fun v => 0 <? v) (fun v => v + (ednum st - 1))
                (update_where (fun v => v <? 0) (fun v => v - (ednum st - 1))
                              (edgearr st))) st
      else st).
Proof.
  unfold reset_edgearr_ednum, pixels_of. run_m.
  destruct (zmax (List.concat (edgearr st))) as [mx|e]; simpl; [|reflexivity].
  destruct (mx <? ednum st); reflexivity.
Qed.

Lemma reset_two_passes (ednum : Z) (e : labels) :
  1 <= ednum ->
  update_where (fun v => 0 <? v) (fun v => v + (ednum - 1))
     (update_where (fun v => v <? 0) (fun v => v - (ednum - 1)) e)
  = map (map (reset_label ednum)) e.
Proof.
  intros He. unfold update_where. rewrite map_map.
  apply map_ext. intros row. rewrite map_map. apply map_ext. intros v.
  unfold reset_label.
  destruct (Z.ltb_spec v 0) as [Hv|Hv].
  - destruct (Z.ltb_spec 0 (v - (ednum - 1))); [lia | reflexivity].
  - reflexivity.
Qed.

Lemma reset_label_sign (ednum v : Z) :
  1 <= ednum ->
  (v < 0 -> reset_label ednum v <= - ednum) /\
  (0 < v -> ednum <= reset_label ednum v) /\
  (v = 0 -> reset_label ednum v = 0).
Proof.
  intros He. unfold reset_label.
  destruct (Z.ltb_spec v 0); destruct (Z.ltb_spec 0 v); lia.
Qed.

End ResetEdgearr.

(** X1.  When the largest label is below [ednum] (the image is in its
    final numbering), [ednum >= 1] and every label can be moved by
    [ednum - 1] within int64 (so that the arithmetic in place does not
    wrap around), [reset_edgearr_ednum] returns with every left label moved
    down and every right label moved up by [ednum - 1] and nothing else
    changed: afterwards every left label is at most [-ednum], every right
    label at least [ednum], and the pixels without an edge are still
    zero. *)
Theorem reset_edgearr_ednum_relabels (st : TraceSlits) (mx : Z) :
  zmax (pixels_of (edgearr st)) = Ok mx -> mx < ednum st -> 1 <= ednum st ->
  shift_fits (ednum st - 1) (pixels_of (edgearr st)) = true ->
  reset_edgearr_ednum st =
    Ok (tt, set_edgearr (map (map (reset_label (ednum st))) (edgearr st)) st) /\
  forall v, In v (pixels_of (edgearr st)) ->
    (v < 0 -> reset_label (ednum st) v = v - (ednum st - 1)
              /\ reset_label (ednum st) v <= - ednum st) /\
    (0 < v -> reset_label (ednum st) v = v + (ednum st - 1)
              /\ ednum st <= reset_label (ednum st) v) /\
    (v = 0 -> reset_label (ednum st) v = 0).
Proof.
  intros Hmx Hlt He _. split.
  - rewrite reset_unfold, Hmx. simpl.
    destruct (Z.ltb_spec mx (ednum st)); [|lia].
    now rewrite reset_two_passes.
  - intros v _. unfold reset_label.
    destruct (Z.ltb_spec v 0); destruct (Z.ltb_spec 0 v); lia.
Qed.

Lemma reset_edgearr_ednum_relabels_witness :
  let st := set_edgearr [[-1; 0; 1]; [-2; 0; 2]] Demo.state0 in
  reset_edgearr_ednum st =
    Ok (tt, set_edgearr [[-100000; 0; 100000]; [-100001; 0; 100001]] st).
Proof.
  cbv zeta.
  exact (proj1 (reset_edgearr_ednum_relabels
                  (set_edgearr [[-1; 0; 1]; [-2; 0; 2]] Demo.state0) 2
                  eq_refl eq_refl ltac:(discriminate)
                  ltac:(vm_compute; reflexivity))).
Defined.

(** X2.  On an image holding at least one right-edge pixel, with
    [ednum >= 1], resetting twice is resetting once: after the first call
    the largest label is at least [ednum] and the second call changes
    nothing. *)
Theorem reset_edgearr_ednum_idempotent (st : TraceSlits) (v : Z) :
  1 <= ednum st -> In v (pixels_of (edgearr st)) -> 0 < v ->
  bind reset_edgearr_ednum (fun _ => reset_edgearr_ednum) st
    = reset_edgearr_ednum st.
Proof.
  intros He Hin Hpos.
  destruct (zmax_nonempty (pixels_of (edgearr st))) as [mx Hmx].
  { intros E. rewrite E in Hin. exact Hin. }
  destruct (zmax_ok _ _ Hmx) as [_ Hall].
  unfold bind. rewrite (reset_unfold st), Hmx. simpl.
  destruct (Z.ltb_spec mx (ednum st)) as [Hlt|Hge].
  - rewrite reset_two_passes by exact He.
    rewrite reset_unfold. simpl.
    rewrite pixels_of_map.
    destruct (zmax_nonempty (map (reset_label (ednum st))
                                 (pixels_of (edgearr st)))) as [m1 Hm1].
    { intros E. apply map_eq_nil in E. rewrite E in Hin. exact Hin. }
    rewrite Hm1. simpl.
    destruct (zmax_ok _ _ Hm1) as [_ Hall1].
    assert (ednum st <= m1).
    { transitivity (reset_label (ednum st) v).
      - now apply reset_label_sign.
      - apply Hall1, in_map, Hin. }
    destruct (Z.ltb_spec m1 (ednum st)); [lia | reflexivity].
  - rewrite reset_unfold, Hmx. simpl.
    destruct (Z.ltb_spec mx (ednum st)); [lia | reflexivity].
Qed.

Lemma reset_edgearr_ednum_idempotent_witness :
  let st := set_edgearr [[-1; 0; 1]; [-2; 0; 2]] Demo.state0 in
  bind reset_edgearr_ednum (fun _ => reset_edgearr_ednum) st
    = reset_edgearr_ednum st.
Proof.
  cbv zeta.
  apply (reset_edgearr_ednum_idempotent
           (set_edgearr [[-1; 0; 1]; [-2; 0; 2]] Demo.state0) 1).
  - discriminate.
  - simpl. tauto.
  - reflexivity.
Defined.



(** ** [_set_lrminx] *)

Section SetLrminx.

Lemma select_In (c : Z -> bool) (e : labels) (x : Z) :
  In x (select c e) <-> In x (pixels_of e) /\ c x = true.
Proof. unfold select, pixels_of. apply filter_In. Qed.

Lemma set_lrminx_unfold (st : TraceSlits) :
  _set_lrminx st =
  let neg := select (fun v => v <? 0) (edgearr st) in
  let pos := select (fun v => 0 <? v) (edgearr st) in
  let? nmax := zmax neg in
  let? nmin := zmin neg in
  let? pmin := zmin pos in
  let? pmax := zmax pos in
  Ok (tt, set_lr {| lmin := - nmax; lmax := - nmin;
                    rmin := pmin; rmax := pmax |} st).
Proof.
  unfold _set_lrminx. run_m.
  destruct (zmax (select _ _)) as [nmax|e]; simpl; [|reflexivity].
  destruct (zmin (select _ _)) as [nmin|e]; simpl; [|reflexivity].
  destruct (zmin (select _ _)) as [pmin|e]; simpl; [|reflexivity].
  destruct (zmax (select _ _)) as [pmax|e]; simpl; reflexivity.
Qed.

End SetLrminx.

(** X4.  [_set_lrminx] returns exactly when the edge image holds at least
    one left-edge (negative) and one right-edge (positive) pixel.  With no
    left-edge pixel it raises the error of a maximum over an empty
    selection; with a left-edge but no right-edge pixel, that of a minimum
    over an empty selection. *)
Theorem set_lrminx_returns_iff_both_sides (st : TraceSlits) :
  let px := pixels_of (edgearr st) in
  ((exists u v, In u px /\ u < 0 /\ In v px /\ 0 < v) <->
   exists st', _set_lrminx st = Ok (tt, st')) /\
  ((forall u, In u px -> 0 <= u) ->
   _set_lrminx st = Raise (Np.zero_size "maximum")) /\
  ((exists u, In u px /\ u < 0) -> (forall v, In v px -> v <= 0) ->
   _set_lrminx st = Raise (Np.zero_size "minimum")).
Proof.
  cbv zeta. rewrite set_lrminx_unfold. cbv zeta.
  set (neg := select (fun v => v <? 0) (edgearr st)).
  set (pos := select (fun v => 0 <? v) (edgearr st)).
  assert (Hneg : forall u, In u neg <-> In u (pixels_of (edgearr st)) /\ u < 0).
  { intros u. unfold neg. rewrite select_In, Z.ltb_lt. tauto. }
  assert (Hpos : forall v, In v pos <-> In v (pixels_of (edgearr st)) /\ 0 < v).
  { intros v. unfold pos. rewrite select_In, Z.ltb_lt. tauto. }
  split; [|split].
  - split.
    + intros (u & v & Hu & Hu0 & Hv & Hv0).
      destruct neg as [|a n'] eqn:En;
        [exfalso; apply (proj2 (Hneg u)); auto|].
      destruct pos as [|b p'] eqn:Ep;
        [exfalso; apply (proj2 (Hpos v)); auto|].
      simpl. eexists; reflexivity.
    + intros [st' H].
      destruct neg as [|a n'] eqn:En; [discriminate|].
      destruct pos as [|b p'] eqn:Ep; [discriminate|].
      exists a, b.
      destruct (proj1 (Hneg a) (or_introl eq_refl)).
      destruct (proj1 (Hpos b) (or_introl eq_refl)). auto.
  - intros Hall. destruct neg as [|a n'] eqn:En; [reflexivity|].
    destruct (proj1 (Hneg a) (or_introl eq_refl)) as [Ha Ha0].
    specialize (Hall a Ha). lia.
  - intros (u & Hu & Hu0) Hall.
    destruct neg as [|a n'] eqn:En;
      [exfalso; apply (proj2 (Hneg u)); auto|].
    destruct pos as [|b p'] eqn:Ep; [reflexivity|].
    destruct (proj1 (Hpos b) (or_introl eq_refl)) as [Hb Hb0].
    specialize (Hall b Hb). lia.
Qed.

(** X5.  When [_set_lrminx] returns it has changed nothing but the four
    bounds, and these are tight: [1 <= lmin <= lmax] and
    [1 <= rmin <= rmax], every left-edge pixel [u] has
    [lmin <= -u <= lmax], every right-edge pixel [v] has
    [rmin <= v <= rmax], and each bound is the label of some pixel.  The
    opposite of every label is assumed to be an int64 (no label is the
    least int64, whose opposite wraps around). *)
Theorem set_lrminx_bounds_are_tight (st st' : TraceSlits) :
  _set_lrminx st = Ok (tt, st') ->
  negation_fits (pixels_of (edgearr st)) = true ->
  let px := pixels_of (edgearr st) in
  st' = set_lr (lr st') st /\
  1 <= lmin (lr st') <= lmax (lr st') /\
  1 <= rmin (lr st') <= rmax (lr st') /\
  (forall u, In u px -> u < 0 -> lmin (lr st') <= - u <= lmax (lr st')) /\
  (forall v, In v px -> 0 < v -> rmin (lr st') <= v <= rmax (lr st')) /\
  In (- lmin (lr st')) px /\ In (- lmax (lr st')) px /\
  In (rmin (lr st')) px /\ In (rmax (lr st')) px.
Proof.
  rewrite set_lrminx_unfold. cbv zeta.
  set (neg := select (fun v => v <? 0) (edgearr st)).
  set (pos := select (fun v => 0 <? v) (edgearr st)).
  destruct (zmax neg) as [nmax|e] eqn:E1; simpl; [|discriminate].
  destruct (zmin neg) as [nmin|e] eqn:E2; simpl; [|discriminate].
  destruct (zmin pos) as [pmin|e] eqn:E3; simpl; [|discriminate].
  destruct (zmax pos) as [pmax|e] eqn:E4; simpl; [|discriminate].
  unfold neg in E1, E2. unfold pos in E3, E4. clear neg pos.
  intros H _; inversion H; try subst st'; clear H. cbv zeta. simpl.
  apply zmax_ok in E1, E4. apply zmin_ok in E2, E3.
  destruct E1 as [I1 A1]. destruct E2 as [I2 A2].
  destruct E3 as [I3 A3]. destruct E4 as [I4 A4].
  apply select_In in I1, I2, I3, I4.
  rewrite Z.ltb_lt in I1, I2, I3, I4.
  assert (Hn : forall u, In u (pixels_of (edgearr st)) -> u < 0 ->
                         nmin <= u <= nmax).
  { intros u Hu Hu0. split; [apply A2 | apply A1];
      apply select_In; rewrite Z.ltb_lt; auto. }
  assert (Hp : forall v, In v (pixels_of (edgearr st)) -> 0 < v ->
                         pmin <= v <= pmax).
  { intros v Hv Hv0. split; [apply A3 | apply A4];
      apply select_In; rewrite Z.ltb_lt; auto. }
  rewrite !Z.opp_involutive.
  split; [reflexivity|].
  split; [destruct (Hn nmax) as [? ?]; try tauto; lia|].
  split; [destruct (Hp pmin) as [? ?]; try tauto; lia|].
  split; [intros u Hu Hu0; specialize (Hn u Hu Hu0); lia|].
  split; [exact Hp|]. tauto.
Qed.

Lemma set_lrminx_bounds_are_tight_witness :
  exists st',
    _set_lrminx (set_edgearr Demo.E2 Demo.state0) = Ok (tt, st') /\
    lr st' = {| lmin := 100000; lmax := 100001;
                rmin := 100000; rmax := 100001 |} /\
    1 <= lmin (lr st') <= lmax (lr st').
Proof.
  eexists. split; [vm_compute; reflexivity|].
  split; [reflexivity|].
  exact (proj1 (proj2 (set_lrminx_bounds_are_tight
                         (set_edgearr Demo.E2 Demo.state0) _
                         ltac:(vm_compute; reflexivity)
                         ltac:(vm_compute; reflexivity)))).
Defined.

(** ** [_maxgap_prep] *)

Section MaxgapPrep.

Lemma maxgap_prep_unfold (st : TraceSlits) :
  _maxgap_prep st =
  let? mx := zmax (pixels_of (edgearr st)) in
  let? mn := zmin (pixels_of (edgearr st)) in
  Ok (tt, set_steps (steps st ++ ["_maxgap_prep"%string])
            (set_edgearr
               (map (map (fun v => if v <? 0 then v + (1 + mx - mn) else v))
                    (edgearr st))
               (set_edgearrcp (edgearr st) st))).
Proof.
  unfold _maxgap_prep, pixels_of. run_m.
  destruct (zmax (List.concat (edgearr st))) as [mx|e]; simpl; [|reflexivity].
  destruct (zmin (List.concat (edgearr st))) as [mn|e]; simpl; reflexivity.
Qed.

End MaxgapPrep.

(** X6.  [_maxgap_prep] keeps a copy of the edge image in [edgearrcp] and
    adds the gap [1 + max - min] of the labels to every left (negative)
    label, leaving the other pixels alone, and records its step.  The gap
    is positive and lifts every left label above every label of the
    original image, so distinct labels stay distinct (left and right ids
    cannot collide) and, when the image has a pixel that is not a left
    edge, no label is negative afterwards.  The labels, [1 + max] and the
    gap are assumed to be int64. *)
Theorem maxgap_prep_relabels_left_above_right
        (st : TraceSlits) (mx mn : Z) :
  zmax (pixels_of (edgearr st)) = Ok mx ->
  zmin (pixels_of (edgearr st)) = Ok mn ->
  gap_fits mx mn (pixels_of (edgearr st)) = true ->
  _maxgap_prep st =
    Ok (tt, set_steps (steps st ++ ["_maxgap_prep"%string])
              (set_edgearr
                 (map (map (fun v => if v <? 0 then v + (1 + mx - mn) else v))
                      (edgearr st))
                 (set_edgearrcp (edgearr st) st))) /\
  0 < 1 + mx - mn /\
  (forall u w, In u (pixels_of (edgearr st)) -> u < 0 ->
               In w (pixels_of (edgearr st)) -> w < u + (1 + mx - mn)) /\
  (forall u v, In u (pixels_of (edgearr st)) ->
               In v (pixels_of (edgearr st)) ->
               (if u <? 0 then u + (1 + mx - mn) else u)
               = (if v <? 0 then v + (1 + mx - mn) else v) ->
               u = v) /\
  ((exists v, In v (pixels_of (edgearr st)) /\ 0 <= v) ->
   forall w,
     In w (map (fun v => if v <? 0 then v + (1 + mx - mn) else v)
               (pixels_of (edgearr st))) ->
     0 <= w).
Proof.
  intros Emx Emn _.
  destruct (zmax_ok _ _ Emx) as [Imx Amx].
  destruct (zmin_ok _ _ Emn) as [Imn Amn].
  assert (Hgap : 0 < 1 + mx - mn) by (specialize (Amx mn Imn); lia).
  assert (Habove : forall u w, In u (pixels_of (edgearr st)) -> u < 0 ->
                     In w (pixels_of (edgearr st)) ->
                     w < u + (1 + mx - mn)).
  { intros u w Hu Hu0 Hw.
    specialize (Amn u Hu). specialize (Amx w Hw). lia. }
  split.
  { rewrite maxgap_prep_unfold, Emx. cbn [rbind]. rewrite Emn. reflexivity. }
  split; [exact Hgap|]. split; [exact Habove|]. split.
  - intros u v Hu Hv.
    destruct (Z.ltb_spec u 0) as [Hu0|Hu0];
      destruct (Z.ltb_spec v 0) as [Hv0|Hv0]; intros E; try lia.
    + pose proof (Habove u v Hu Hu0 Hv). lia.
    + pose proof (Habove v u Hv Hv0 Hu). lia.
  - intros (v & Hv & Hv0) w Hw.
    apply in_map_iff in Hw. destruct Hw as (u & <- & Hu).
    destruct (Z.ltb_spec u 0) as [Hu0|Hu0]; [|lia].
    pose proof (Habove u v Hu Hu0 Hv). lia.
Qed.

Lemma maxgap_prep_relabels_left_above_right_witness :
  exists st',
    _maxgap_prep (set_edgearr [[-3; 0; 2]; [-1; 0; 5]] Demo.state0)
      = Ok (tt, st') /\
    edgearr st' = [[6; 0; 2]; [8; 0; 5]] /\
    edgearrcp st' = [[-3; 0; 2]; [-1; 0; 5]] /\
    0 < 1 + 5 - -3.
Proof.
  destruct (maxgap_prep_relabels_left_above_right
              (set_edgearr [[-3; 0; 2]; [-1; 0; 5]] Demo.state0) 5 (-3)
              eq_refl eq_refl ltac:(vm_compute; reflexivity))
    as (Hrun & Hgap & _).
  eexists. split; [exact Hrun|].
  split; [reflexivity|]. split; [reflexivity | exact Hgap].
Defined.

(** ** [_pca] without PCA *)

Section NoPca.

Lemma all_nonzero_spec (row : list float) :
  all_nonzero row = true <->
  forall x, In x row -> (x =? 0)%float = false.
Proof.
  unfold all_nonzero. rewrite forallb_forall.
  split; intros H x Hx; specialize (H x Hx).
  - now rewrite negb_true_iff in H.
  - now rewrite negb_true_iff.
Qed.

Lemma existsb_filter_seq (p : nat -> bool) (n o : nat) :
  (o < n)%nat ->
  existsb (Nat.eqb o) (filter p (seq 0 n)) = p o.
Proof.
  intros Ho. destruct (p o) eqn:E.
  - apply existsb_exists. exists o. split; [|apply Nat.eqb_refl].
    apply filter_In. split; [apply in_seq; lia | exact E].
  - destruct (existsb _ _) eqn:Ex; [|reflexivity].
    apply existsb_exists in Ex. destruct Ex as (x & Hx & Hox).
    apply Nat.eqb_eq in Hox. subst x. apply filter_In in Hx.
    destruct Hx. congruence.
Qed.

Lemma filter_seq_sorted (p : nat -> bool) (n a : nat) :
  StronglySorted lt (filter p (seq a n)).
Proof.
  revert a; induction n as [|n IH]; intros a; simpl; [constructor|].
  destruct (p a); [|apply IH].
  constructor; [apply IH|].
  apply Forall_forall. intros x Hx. apply filter_In in Hx.
  destruct Hx as [Hx _]. apply in_seq in Hx. lia.
Qed.

Lemma nth_map2_orb (a b : list bool) (o : nat) :
  List.length a = List.length b -> (o < List.length a)%nat ->
  nth o (Np.map2 orb a b) false = nth o a false || nth o b false.
Proof.
  revert b o; induction a as [|x a IH]; intros [|y b] [|o] Hl Ho;
    simpl in *; try lia; try reflexivity.
  apply IH; lia.
Qed.

Lemma map2_orb_length (a b : list bool) :
  List.length a = List.length b ->
  List.length (Np.map2 orb a b) = List.length a.
Proof.
  revert b; induction a as [|x a IH]; intros [|y b] Hl; simpl in *;
    try lia. rewrite IH; lia.
Qed.

(** The orders kept without PCA, for as many left as right orders. *)
Lemma unmasked_orders_spec (lct rct : list (list float)) :
  List.length lct = List.length rct ->
  unmasked_orders lct rct =
  Ok (filter (fun o => all_nonzero (nth o lct []) &&
                       all_nonzero (nth o rct []))
             (seq 0 (List.length lct))).
Proof.
  intros Hlen. unfold unmasked_orders, Np.broadcast2.
  rewrite !length_map, Hlen, Nat.eqb_refl. cbn [rbind]. f_equal.
  set (bl := map (fun r => negb (all_nonzero r)) lct).
  set (br := map (fun r => negb (all_nonzero r)) rct).
  assert (Hbl : List.length bl = List.length lct)
    by (unfold bl; apply length_map).
  assert (Hbr : List.length br = List.length lct)
    by (unfold br; rewrite length_map; congruence).
  rewrite map2_orb_length by congruence. rewrite Hbl, <- Hlen.
  apply filter_ext_in. intros o Ho. apply in_seq in Ho.
  rewrite existsb_filter_seq by lia.
  rewrite nth_map2_orb by (congruence || lia).
  unfold bl, br.
  assert (Hnth : forall l : list (list float),
            nth o (map (fun r => negb (all_nonzero r)) l) false
            = negb (all_nonzero (nth o l []))).
  { intros l. exact (map_nth (fun r => negb (all_nonzero r)) l [] o). }
  rewrite !Hnth.
  destruct (all_nonzero (nth o lct [])), (all_nonzero (nth o rct []));
    reflexivity.
Qed.

End NoPca.

(** X7.  With a [pcatype] other than 'order' and 'pixel', and as many left
    as right orders from the synchronisation, [_pca] keeps exactly the
    orders none of whose [lcent] and [rcent] entries is zero, in their
    order ([ww]): [lcen] and [rcen] get one column for each and
    [extrapord] is all-False of that length.  It changes nothing else and,
    unlike the two PCA methods, records no step. *)
Theorem pca_off_keeps_complete_orders (K : Kernels) (st : TraceSlits) :
  String.eqb (par_pcatype (par st)) "order" = false ->
  String.eqb (par_pcatype (par st)) "pixel" = false ->
  List.length (lcent (sync st)) = List.length (rcent (sync st)) ->
  exists ww,
    StronglySorted lt ww /\
    (forall o, In o ww <->
       (o < List.length (lcent (sync st)))%nat /\
       (forall x, In x (nth o (lcent (sync st)) []) ->
                  (x =? 0)%float = false) /\
       (forall x, In x (nth o (rcent (sync st)) []) ->
                  (x =? 0)%float = false)) /\
    _pca K st =
      Ok (tt, set_extrapord (Some (repeat false (List.length ww)))
                (set_rcen (Some (map (fun o => nth o (rcent (sync st)) []) ww))
                   (set_lcen
                      (Some (map (fun o => nth o (lcent (sync st)) []) ww))
                      st))).
Proof.
  intros Ho Hp Hlen.
  set (ww := filter (fun o => all_nonzero (nth o (lcent (sync st)) []) &&
                              all_nonzero (nth o (rcent (sync st)) []))
                    (seq 0 (List.length (lcent (sync st))))).
  assert (Hin : forall o, In o ww -> (o < List.length (lcent (sync st)))%nat).
  { intros o H. apply filter_In in H. destruct H as [H _].
    apply in_seq in H. lia. }
  exists ww. split; [apply filter_seq_sorted|]. split.
  - intros o. unfold ww. rewrite filter_In, in_seq, andb_true_iff,
      !all_nonzero_spec. intuition lia.
  - unfold _pca. run_m. rewrite Ho, Hp.
    rewrite (unmasked_orders_spec _ _ Hlen). fold ww. cbn [rbind].
    rewrite (take_in_range (lcent (sync st)) [] ww)
      by (apply Forall_forall; exact Hin).
    cbn [rbind].
    rewrite (take_in_range (rcent (sync st)) [] ww)
      by (apply Forall_forall; intros o H; rewrite <- Hlen; now apply Hin).
    cbn [rbind]. now rewrite length_map.
Qed.

Lemma pca_off_keeps_complete_orders_witness :
  exists ww,
    StronglySorted lt ww /\
    _pca Demo.K4 state_nopca =
      Ok (tt, set_extrapord (Some (repeat false (List.length ww)))
                (set_rcen (Some (map (fun o => nth o [[6; 7]; [8; 9]; [10; 0]]%float
                                                   []) ww))
                   (set_lcen
                      (Some (map (fun o => nth o [[1; 2]; [0; 3]; [4; 5]]%float [])
                                 ww))
                      state_nopca))).
Proof.
  destruct (pca_off_keeps_complete_orders Demo.K4 state_nopca
              eq_refl eq_refl eq_refl) as (ww & Hs & _ & Hrun).
  exists ww. split; [exact Hs | exact Hrun].
Defined.

Lemma pca_off_example :
  exists st',
    _pca Demo.K4 state_nopca = Ok (tt, st') /\
    lcen st' = Some [[1; 2]]%float /\ rcen st' = Some [[6; 7]]%float /\
    extrapord st' = Some [false] /\ steps st' = steps state_nopca.
Proof. eexists. split; [vm_compute; reflexivity|]. repeat split. Qed.

(** ** What a run leaves untouched *)

Section Frame.

Lemma framed_refl (s : TraceSlits) : framed s s.
Proof.
  split; [repeat split|]. exists []. symmetry. apply app_nil_r.
Qed.

Lemma framed_trans (s1 s2 s3 : TraceSlits) :
  framed s1 s2 -> framed s2 s3 -> framed s1 s3.
Proof.
  intros [H1 [l1 E1]] [H2 [l2 E2]]. split.
  - unfold inputs_kept in *. intuition congruence.
  - exists (l1 ++ l2). rewrite E2, E1. symmetry. apply app_assoc.
Qed.

Lemma preserves_bind {A B} (m : M A) (k : A -> M B) :
  preserves m -> (forall a, preserves (k a)) -> preserves (bind m k).
Proof.
  intros Hm Hk s b s' H. apply bind_ok_inv in H.
  destruct H as (a & s1 & H1 & H2).
  eapply framed_trans; [eapply Hm | eapply Hk]; eassumption.
Qed.

Lemma preserves_ret {A} (a : A) : preserves (ret a).
Proof. intros s b s' H. inversion H. apply framed_refl. Qed.

Lemma preserves_gets {A} (f : TraceSlits -> A) : preserves (gets f).
Proof. intros s b s' H. inversion H. apply framed_refl. Qed.

Lemma preserves_lift {A} (r : result A) : preserves (lift r).
Proof.
  intros s b s' H. unfold lift in H. destruct r; inversion H.
  apply framed_refl.
Qed.

Lemma preserves_raise {A} (e : exn) : preserves (@raise A e).
Proof. intros s b s' H. discriminate. Qed.

Lemma preserves_modify (f : TraceSlits -> TraceSlits) :
  (forall s, framed s (f s)) -> preserves (modify f).
Proof. intros Hf s b s' H. inversion H. apply Hf. Qed.

Lemma preserves_when (b : bool) (m : M unit) :
  preserves m -> preserves (when b m).
Proof. intros Hm. destruct b; [exact Hm | apply preserves_ret]. Qed.

End Frame.

(** A setter of an attribute that is not an input, and the record of a
    step, keep the frame. *)
Ltac framed_setter :=
  intros; split;
  [ repeat split
  | first [ exists (@nil string); symmetry; apply app_nil_r
          | eexists; reflexivity ] ].

Ltac preserves_step :=
  first
    [ apply preserves_ret
    | apply preserves_gets
    | apply preserves_lift
    | apply preserves_raise
    | apply preserves_when
    | apply preserves_bind; [|intros ?]
    | apply preserves_modify; framed_setter
    | match goal with
      | |- preserves (match ?x with _ => _ end) => destruct x
      end ].

Ltac preserves_tac := repeat preserves_step.

Section FrameMethods.

Variable K : Kernels.

Lemma preserves_append_step (name : string) : preserves (append_step name).
Proof. unfold append_step. preserves_tac. Qed.

Lemma preserves_edgearr_from_binarr : preserves (_edgearr_from_binarr K).
Proof. unfold _edgearr_from_binarr, append_step. preserves_tac. Qed.

Lemma preserves_edgearr_single_slit : preserves (_edgearr_single_slit K).
Proof. unfold _edgearr_single_slit, append_step. preserves_tac. Qed.

Lemma preserves_match_edges : preserves (_match_edges K).
Proof. unfold _match_edges, append_step. preserves_tac. Qed.

Lemma preserves_add_left_right : preserves (_add_left_right K).
Proof. unfold _add_left_right, append_step. preserves_tac. Qed.

Lemma preserves_maxgap_prep : preserves _maxgap_prep.
Proof. unfold _maxgap_prep, append_step. preserves_tac. Qed.

Lemma preserves_assign_edges : preserves (_assign_edges K).
Proof. unfold _assign_edges, append_step. preserves_tac. Qed.

Lemma preserves_maxgap_close (g : Z) : preserves (_maxgap_close K g).
Proof. unfold _maxgap_close, append_step. preserves_tac. Qed.

Lemma preserves_final_left_right : preserves (_final_left_right K).
Proof. unfold _final_left_right, append_step. preserves_tac. Qed.

Lemma preserves_mslit_tcrude (m : float) : preserves (_mslit_tcrude K m).
Proof. unfold _mslit_tcrude, append_step. preserves_tac. Qed.

Lemma preserves_mslit_sync : preserves (_mslit_sync K).
Proof. unfold _mslit_sync, append_step. preserves_tac. Qed.

Lemma preserves_ignore_orders : preserves (_ignore_orders K).
Proof. unfold _ignore_orders, append_step. preserves_tac. Qed.

Lemma preserves_reset : preserves reset_edgearr_ednum.
Proof. unfold reset_edgearr_ednum. preserves_tac. Qed.

Lemma preserves_set_lrminx : preserves _set_lrminx.
Proof. unfold _set_lrminx. preserves_tac. Qed.

Lemma preserves_fit_edges (side : string) : preserves (_fit_edges K side).
Proof. unfold _fit_edges, append_step. preserves_tac. Qed.

Lemma preserves_chk_for_longslit : preserves (_chk_for_longslit K).
Proof. unfold _chk_for_longslit. preserves_tac. Qed.

Lemma preserves_synchronize : preserves (_synchronize K).
Proof. unfold _synchronize, append_step. preserves_tac. Qed.

Lemma preserves_pca : preserves (_pca K).
Proof.
  unfold _pca, _pca_order_slit_edges, _pca_pixel_slit_edges, append_step.
  preserves_tac.
Qed.

Lemma preserves_trim_slits (tss : bool) (ps : pyval) :
  preserves (_trim_slits tss ps).
Proof. unfold _trim_slits, append_step. preserves_tac. Qed.

Lemma preserves_make_pixel_arrays : preserves (_make_pixel_arrays K).
Proof. unfold _make_pixel_arrays. preserves_tac. Qed.

Lemma preserves_fill_tslits_dict : preserves _fill_tslits_dict.
Proof. unfold _fill_tslits_dict. preserves_tac. Qed.

Lemma preserves_add_user_slits (u : user_slits_t) :
  preserves (add_user_slits K u false).
Proof.
  unfold add_user_slits.
  apply preserves_bind; [apply preserves_reset | intros _].
  apply preserves_bind; [apply preserves_gets | intros s].
  apply preserves_bind; [apply preserves_modify; framed_setter | intros _].
  apply preserves_bind; [apply preserves_ret | intros _].
  apply preserves_append_step.
Qed.

End FrameMethods.

Create HintDb frame.

#[export] Hint Resolve
  preserves_append_step preserves_edgearr_from_binarr
  preserves_edgearr_single_slit preserves_match_edges
  preserves_add_left_right preserves_maxgap_prep preserves_assign_edges
  preserves_maxgap_close preserves_final_left_right preserves_mslit_tcrude
  preserves_mslit_sync preserves_ignore_orders preserves_reset
  preserves_set_lrminx preserves_fit_edges preserves_chk_for_longslit
  preserves_synchronize preserves_pca preserves_trim_slits
  preserves_make_pixel_arrays preserves_fill_tslits_dict
  preserves_add_user_slits preserves_ret preserves_gets : frame.

Ltac frame_tac :=
  repeat first
    [ solve [auto with frame]
    | apply preserves_when
    | apply preserves_bind; [|intros ?]
    | apply preserves_modify; framed_setter
    | match goal with
      | |- preserves (match ?x with _ => _ end) => destruct x
      end ].

(** X8.  Whenever [run] returns, with a dictionary or with [None], it has
    left the trace image, its smoothed version, the pixel locations, the
    parameter set, the detector number, [ednum], the bad-pixel mask and the
    tweaked boundaries as they were, and the log of steps is the former log
    followed by the steps of this run: nothing recorded before is removed
    or reordered. *)
Theorem run_keeps_inputs_and_extends_steps
        (K : Kernels) (arms ignore_orders : bool)
        (add_user_slits_arg : option user_slits_t) (plate_scale : pyval)
        (st st' : TraceSlits) (r : option tslits_dict_t) :
  run K arms ignore_orders add_user_slits_arg plate_scale st = Ok (r, st') ->
  inputs_kept st st' /\ exists l, steps st' = steps st ++ l.
Proof.
  revert st r st'.
  change (preserves (run K arms ignore_orders add_user_slits_arg plate_scale)).
  unfold run. frame_tac.
Qed.

Lemma run_keeps_inputs_and_extends_steps_witness :
  run Demo.K4 true false None (PyFloat 0.5) Demo.state0
    = Ok (run4_result, st_run4) /\
  inputs_kept Demo.state0 st_run4 /\
  exists l, steps st_run4 = steps Demo.state0 ++ l.
Proof.
  split; [vm_compute; reflexivity|].
  apply (run_keeps_inputs_and_extends_steps Demo.K4 true false None
           (PyFloat 0.5) Demo.state0 st_run4 run4_result).
  vm_compute. reflexivity.
Defined.

(** ** The dictionary returned by [run] *)

(** X9.  The dictionary [run] returns is coherent: it is the one stored in
    [tslits_dict]; its boundaries are the tweaked ones when [lcen_tweak] is
    set and [lcen], [rcen] otherwise; and its pixel arrays are those built
    from these very boundaries, the pixel locations, the shape of the
    trace image and the padding and trimming parameters of the instance. *)
Theorem run_dictionary_is_coherent
        (K : Kernels) (arms ignore_orders : bool)
        (add_user_slits_arg : option user_slits_t) (plate_scale : pyval)
        (st st' : TraceSlits) (d : tslits_dict_t) :
  run K arms ignore_orders add_user_slits_arg plate_scale st
    = Ok (Some d, st') ->
  tslits_dict st' = Some d /\
  (d_lcen d, d_rcen d) = boundaries st' /\
  pix st' = Some (d_pix d) /\ d_extrapord d = extrapord st' /\
  pixel_maps K (d_lcen d, d_rcen d) (pixlocn st') (shape (mstrace st'))
             (par_pad (par st')) (par_trim (par st')) = Ok (d_pix d).
Proof.
  intros H. rewrite run_split in H.
  apply bind_ok_inv in H. destruct H as (any & s1 & _ & H).
  destruct (negb any); [discriminate|].
  apply bind_ok_inv in H. destruct H as (u & s2 & _ & H).
  unfold run_finish in H.
  apply bind_ok_inv in H. destruct H as (b & s3 & _ & H).
  apply bind_ok_inv in H. destruct H as (u' & s4 & _ & H).
  apply bind_ok_inv in H. destruct H as (u'' & s5 & Hpix & H).
  apply bind_ok_inv in H. destruct H as (d' & s6 & Hfill & H).
  inversion H; subst d' st'; clear H.
  rewrite make_pixel_arrays_unfold in Hpix.
  destruct (pixel_maps K _ _ _ _ _) as [p|e] eqn:Ep; simpl in Hpix;
    [|discriminate].
  inversion Hpix; subst s5; clear Hpix.
  rewrite (fill_tslits_dict_spec (set_pix p s4) p eq_refl) in Hfill.
  cbv zeta in Hfill.
  inversion Hfill; subst d s6; clear Hfill.
  change (boundaries (set_pix p s4)) with (boundaries s4) in *.
  destruct (boundaries s4) as [ol or] eqn:Eb.
  split; [reflexivity|]. split; [symmetry; exact Eb|].
  split; [reflexivity|]. split; [reflexivity|]. exact Ep.
Qed.

Lemma run_dictionary_is_coherent_witness :
  exists d,
    run4_result = Some d /\ tslits_dict st_run4 = Some d /\
    pix st_run4 = Some (d_pix d).
Proof.
  eexists. split; [vm_compute; reflexivity|].
  split.
  - eapply (run_dictionary_is_coherent Demo.K4 true false None (PyFloat 0.5)
              Demo.state0 st_run4).
    vm_compute. reflexivity.
  - eapply (run_dictionary_is_coherent Demo.K4 true false None (PyFloat 0.5)
              Demo.state0 st_run4).
    vm_compute. reflexivity.
Defined.

(** ** [run] without the short-slit cut *)

Section NoShortCut.

Lemma for_each_ext {S : Type} (f g : nat -> S -> result S)
      (idx : list nat) (s : S) :
  (forall o m, f o m = g o m) -> for_each f idx s = for_each g idx s.
Proof.
  intros H. revert s; induction idx as [|o idx IH]; intros s; simpl;
    [reflexivity|].
  rewrite H. destruct (g o s); simpl; [apply IH | reflexivity].
Qed.

Lemma trim_slits_cut_off (ps ps' : pyval) (s : TraceSlits) :
  _trim_slits false ps s = _trim_slits false ps' s.
Proof.
  unfold _trim_slits. run_m.
  destruct (lcen s) as [l|]; simpl; [|reflexivity].
  unfold trim_arrays.
  rewrite (for_each_ext _ (trim_body (snd (shape (mstrace s))) false ps'
                                     (par_min_slit_width (par s)) l (rcen s)));
    [reflexivity|].
  intros o m. reflexivity.
Qed.

End NoShortCut.

(** X10.  With [arms=False] the argument [plate_scale] is never used:
    [run] has the same outcome, return value and final state or exception,
    for every value of it, [None] included. *)
Theorem run_without_arms_ignores_plate_scale
        (K : Kernels) (ignore_orders : bool)
        (add_user_slits_arg : option user_slits_t) (ps ps' : pyval)
        (st : TraceSlits) :
  run K false ignore_orders add_user_slits_arg ps st
  = run K false ignore_orders add_user_slits_arg ps' st.
Proof.
  rewrite !run_split. apply bind_ext. intros any s1.
  destruct (negb any); [reflexivity|].
  apply bind_ext. intros _ s2.
  unfold run_finish. apply bind_ext. intros longslit s3.
  destruct longslit; [reflexivity|].
  rewrite !bind_assoc. apply bind_ext. intros _ s4.
  rewrite !bind_assoc. apply bind_ext. intros _ s5.
  unfold bind at 1 5. now rewrite (trim_slits_cut_off ps ps').
Qed.

(** ** Trimming twice *)

Section TrimTwice.

Variables (ncol : nat) (tss : bool) (ps : pyval) (msw : float).

Lemma where_zero_from_repeat (n i : nat) :
  Np.where_zero_from i (repeat 0 n) = seq i n.
Proof.
  revert i; induction n as [|n IH]; intros i; simpl; [reflexivity|].
  now rewrite IH.
Qed.

Lemma map_nth_seq {A} (l : list A) (d : A) :
  map (fun o => nth o l d) (seq 0 (List.length l)) = l.
Proof.
  induction l as [|x l IH]; simpl; [reflexivity|].
  f_equal. rewrite <- seq_shift, map_map. exact IH.
Qed.

Lemma take_all {A} (l : list A) (n : nat) :
  n = List.length l -> Np.take l (seq 0 n) = Ok l.
Proof.
  intros ->. destruct l as [|x l'] eqn:E; [reflexivity|]. rewrite <- E.
  rewrite (take_in_range l x).
  - now rewrite map_nth_seq.
  - apply Forall_forall. intros o Ho. apply in_seq in Ho. lia.
Qed.

(** The decision on a slit depends on its two columns only. *)
Lemma slit_dropped_columns (l l' r r' : slitarr) (o o' : nat) :
  nth o l [] = nth o' l' [] -> nth_error r o = nth_error r' o' ->
  slit_dropped ncol tss ps msw l (Some r) o
  = slit_dropped ncol tss ps msw l' (Some r') o'.
Proof.
  intros Hl Hr. unfold slit_dropped, column_of. now rewrite Hl, Hr.
Qed.

Lemma trim_loop_all_kept (l : slitarr) (r : option slitarr) (k a : nat)
      (m : list Z) :
  (forall o, (a <= o < a + k)%nat ->
             slit_dropped ncol tss ps msw l r o = Ok false) ->
  for_each (trim_body ncol tss ps msw l r) (seq a k) m = Ok m.
Proof.
  revert a; induction k as [|k IH]; intros a H; simpl; [reflexivity|].
  rewrite trim_body_dropped, (H a) by lia. simpl.
  apply IH. intros o Ho. apply H. lia.
Qed.

Lemma trim_arrays_fixpoint (l r l' r' : slitarr) :
  trim_arrays ncol tss ps msw l (Some r) = Ok (l', r') ->
  trim_arrays ncol tss ps msw l' (Some r') = Ok (l', r').
Proof.
  intros H.
  destruct (trim_arrays_selection _ _ _ _ _ _ _ _ H)
    as (wok & _ & Hl' & Hr' & _ & Hin & _).
  assert (Hwr : Forall (fun o => (o < List.length r)%nat) wok).
  { unfold trim_arrays in H.
    destruct (for_each _ _ _) as [mask|e]; simpl in H; [|discriminate].
    destruct (Np.take l _) as [tl|e]; simpl in H; [|discriminate].
    destruct (Np.take r _) as [tr|e] eqn:Etr; simpl in H; [|discriminate].
    inversion H; subst tl tr; clear H.
    destruct (take_ok_inv _ [] _ _ Etr) as [Hf Hm].
    assert (Hw : map (fun o => nth o r []) wok
                 = map (fun o => nth o r []) (Np.where_zero mask))
      by congruence.
    revert Hw Hf. generalize (Np.where_zero mask) as w0.
    revert Hin. clear. intros Hin w0 Hw Hf.
    (* the two index lists select the same columns of [l]: they are equal *)
    apply Forall_forall. intros o Ho.
    destruct (Nat.lt_ge_cases o (List.length r)) as [Hlt|Hge]; [exact Hlt|].
    exfalso.
    assert (Hlen : List.length wok = List.length w0).
    { apply (f_equal (@List.length _)) in Hw. now rewrite !length_map in Hw. }
    destruct (In_nth _ _ 0%nat Ho) as (k & Hk & Hnk).
    assert (Hcol : nth o r [] = nth (nth k w0 0%nat) r []).
    { apply (f_equal (fun c => nth k c [])) in Hw.
      rewrite (nth_map_in_range _ wok k [] 0%nat Hk) in Hw.
      rewrite (nth_map_in_range _ w0 k [] 0%nat) in Hw by lia.
      now rewrite Hnk in Hw. }
    assert (Hw0 : (nth k w0 0 < List.length r)%nat).
    { rewrite Forall_forall in Hf. apply Hf, nth_In. lia. }
    apply Hin in Ho. destruct Ho as [_ Hd].
    unfold slit_dropped, column_of in Hd.
    rewrite (proj2 (nth_error_None r o) Hge) in Hd.
    destruct (Np.min (nth o l [])) as [lo|e]; simpl in Hd; [|discriminate].
    destruct ((float_of_nat ncol <? lo)%float); simpl in Hd;
      [|discriminate].
    destruct tss; simpl in Hd; discriminate. }
  subst l' r'.
  assert (Hkept : forall k, (k < List.length wok)%nat ->
            slit_dropped ncol tss ps msw
                         (map (fun o => nth o l []) wok)
                         (Some (map (fun o => nth o r []) wok)) k = Ok false).
  { intros k Hk.
    rewrite (slit_dropped_columns _ l _ r k (nth k wok 0%nat)).
    - apply Hin, nth_In, Hk.
    - exact (nth_map_in_range (fun o => nth o l []) wok k [] 0%nat Hk).
    - rewrite nth_error_map.
      rewrite (nth_error_nth' wok 0%nat Hk). simpl.
      rewrite Forall_forall in Hwr.
      symmetry. apply nth_error_nth'. apply Hwr, nth_In, Hk. }
  unfold trim_arrays. rewrite !length_map.
  rewrite trim_loop_all_kept
    by (intros o Ho; apply Hkept; lia).
  cbn [rbind]. unfold Np.where_zero. rewrite where_zero_from_repeat.
  rewrite !take_all by (now rewrite length_map). reflexivity.
Qed.

End TrimTwice.

(** X11.  Trimming is idempotent on the slit set: after [_trim_slits] has
    returned, a second call with the same arguments returns too and drops
    nothing, leaving [lcen], [rcen] and the number of slits as they are
    (only the step is recorded again). *)
Theorem trim_slits_twice_drops_nothing
        (tss : bool) (ps : pyval) (st st1 : TraceSlits) :
  _trim_slits tss ps st = Ok (tt, st1) ->
  exists st2,
    _trim_slits tss ps st1 = Ok (tt, st2) /\
    lcen st2 = lcen st1 /\ rcen st2 = rcen st1 /\ nslit st2 = nslit st1 /\
    steps st2 = steps st1 ++ ["_trim_slits"%string].
Proof.
  intros H.
  destruct (trim_slits_ok_inv _ _ _ _ H) as [l Hl].
  rewrite (trim_slits_unfold tss ps st l Hl) in H.
  destruct (rcen st) as [r|] eqn:Hr.
  - destruct (trim_arrays _ _ _ _ l (Some r)) as [[l' r']|e] eqn:Et;
      simpl in H; [|discriminate].
    inversion H; subst st1; clear H.
    apply trim_arrays_fixpoint in Et.
    erewrite (trim_slits_unfold tss ps _ l'); [|reflexivity].
    simpl. simpl in Et. rewrite Et. simpl. eexists. split; [reflexivity|].
    repeat split.
  - unfold trim_arrays in H.
    destruct (for_each _ _ _) as [mask|e]; simpl in H; [|discriminate].
    destruct (Np.take l _) as [tl|e]; simpl in H; discriminate.
Qed.

Lemma trim_slits_twice_drops_nothing_witness :
  exists st1 st2,
    _trim_slits true (PyFloat 0.5) Demo.state_sync = Ok (tt, st1) /\
    _trim_slits true (PyFloat 0.5) st1 = Ok (tt, st2) /\
    nslit st1 = 2%nat /\ nslit st2 = nslit st1.
Proof.
  eexists.
  destruct (trim_slits_twice_drops_nothing true (PyFloat 0.5)
              Demo.state_sync _ ltac:(vm_compute; reflexivity))
    as (st2 & H2 & _ & _ & Hn & _).
  exists st2. split; [vm_compute; reflexivity|].
  split; [exact H2|]. split; [reflexivity | exact Hn].
Defined.

(** ** The log of steps *)

Section Logs.

Lemma logged_refl (s : TraceSlits) : logged [] s s.
Proof. split; [symmetry; apply app_nil_r | split; reflexivity]. Qed.

Lemma logged_trans (n1 n2 : list string) (s1 s2 s3 : TraceSlits) :
  logged n1 s1 s2 -> logged n2 s2 s3 -> logged (n1 ++ n2) s1 s3.
Proof.
  intros (E1 & P1 & U1) (E2 & P2 & U2). split; [|split; congruence].
  rewrite E2, E1. symmetry. apply app_assoc.
Qed.

Lemma logs_bind {A B} (n1 n2 : list string) (m : M A) (k : A -> M B) :
  logs n1 m -> (forall a, logs n2 (k a)) -> logs (n1 ++ n2) (bind m k).
Proof.
  intros Hm Hk s b s' H. apply bind_ok_inv in H.
  destruct H as (a & s1 & H1 & H2).
  eapply logged_trans; [eapply Hm | eapply Hk]; eassumption.
Qed.

Lemma logs_bind_nil {A B} (n : list string) (m : M A) (k : A -> M B) :
  logs [] m -> (forall a, logs n (k a)) -> logs n (bind m k).
Proof. intros Hm Hk. exact (logs_bind [] n m k Hm Hk). Qed.

Lemma logs_ret {A} (a : A) : logs [] (ret a).
Proof. intros s b s' H. inversion H. apply logged_refl. Qed.

Lemma logs_gets {A} (f : TraceSlits -> A) : logs [] (gets f).
Proof. intros s b s' H. inversion H. apply logged_refl. Qed.

Lemma logs_lift {A} (r : result A) : logs [] (lift r).
Proof.
  intros s b s' H. unfold lift in H. destruct r; inversion H.
  apply logged_refl.
Qed.

Lemma logs_raise {A} (n : list string) (e : exn) : logs n (@raise A e).
Proof. intros s b s' H. discriminate. Qed.

Lemma logs_modify (n : list string) (f : TraceSlits -> TraceSlits) :
  (forall s, logged n s (f s)) -> logs n (modify f).
Proof. intros Hf s b s' H. inversion H. apply Hf. Qed.

Lemma logs_append_step (name : string) : logs [name] (append_step name).
Proof.
  unfold append_step. apply logs_modify. intros s. repeat split.
Qed.

End Logs.

(** A setter that leaves the log, the parameters and [user_set] alone. *)
Ltac logged_setter :=
  intros; split; [symmetry; apply app_nil_r | split; reflexivity].

Ltac logs_quiet_step :=
  first
    [ apply logs_ret
    | apply logs_gets
    | apply logs_lift
    | apply logs_raise
    | apply logs_bind_nil; [|intros ?]
    | apply logs_modify; logged_setter
    | match goal with
      | |- logs _ (match ?x with _ => _ end) => destruct x
      end ].

(** A method made of quiet operations followed by the record of its
    step. *)
Ltac logs_method :=
  repeat first
    [ apply logs_append_step
    | apply logs_raise
    | apply logs_bind_nil;
      [ solve [repeat logs_quiet_step] | intros ? ]
    | match goal with
      | |- logs _ (match ?x with _ => _ end) => destruct x
      end ].

Section LogsMethods.

Variable K : Kernels.

Lemma logs_edgearr_from_binarr :
  logs ["_edgearr_from_binarr"%string] (_edgearr_from_binarr K).
Proof. unfold _edgearr_from_binarr. logs_method. Qed.

Lemma logs_edgearr_single_slit :
  logs ["_edgearr_single_slit"%string] (_edgearr_single_slit K).
Proof. unfold _edgearr_single_slit. logs_method. Qed.

Lemma logs_match_edges : logs ["_match_edges"%string] (_match_edges K).
Proof. unfold _match_edges. logs_method. Qed.

Lemma logs_add_left_right :
  logs ["_add_left_right"%string] (_add_left_right K).
Proof.
  unfold _add_left_right. 
  apply logs_bind_nil; [apply logs_gets | intros s].
  destruct (edgearr_add_left_right K _ _ _ _ _ _) as [[e lc] rc].
  apply logs_bind_nil; [apply logs_modify; logged_setter | intros _].
  apply logs_bind_nil; [apply logs_modify; logged_setter | intros _].
  apply logs_bind_nil; [apply logs_modify; logged_setter | intros _].
  rewrite <- (app_nil_r ["_add_left_right"%string]).
  apply logs_bind; [apply logs_append_step | intros _; apply logs_ret].
Qed.

Lemma logs_maxgap_prep : logs ["_maxgap_prep"%string] _maxgap_prep.
Proof. unfold _maxgap_prep. logs_method. Qed.

Lemma logs_assign_edges : logs ["_assign_edges"%string] (_assign_edges K).
Proof. unfold _assign_edges. logs_method. Qed.

Lemma logs_maxgap_close (g : Z) :
  logs ["_maxgap_close"%string] (_maxgap_close K g).
Proof. unfold _maxgap_close. logs_method. Qed.

Lemma logs_final_left_right :
  logs ["_final_left_right"%string] (_final_left_right K).
Proof. unfold _final_left_right. logs_method. Qed.

Lemma logs_mslit_tcrude (m : float) :
  logs ["_mslit_tcrude"%string] (_mslit_tcrude K m).
Proof. unfold _mslit_tcrude. logs_method. Qed.

Lemma logs_mslit_sync : logs ["_mslit_sync"%string] (_mslit_sync K).
Proof. unfold _mslit_sync. logs_method. Qed.

Lemma logs_ignore_orders :
  logs ["_ignore_orders"%string] (_ignore_orders K).
Proof. unfold _ignore_orders. logs_method. Qed.

Lemma logs_reset : logs [] reset_edgearr_ednum.
Proof. unfold reset_edgearr_ednum, when. repeat logs_quiet_step. Qed.

Lemma logs_set_lrminx : logs [] _set_lrminx.
Proof. unfold _set_lrminx. repeat logs_quiet_step. Qed.

Lemma logs_fit_edges (side : string) :
  logs [String.append "_fit_edges" (String.append "_" side)]
       (_fit_edges K side).
Proof. unfold _fit_edges. logs_method. Qed.

Lemma logs_chk_for_longslit : logs [] (_chk_for_longslit K).
Proof. unfold _chk_for_longslit. repeat logs_quiet_step. Qed.

Lemma logs_synchronize : logs ["_synchronize"%string] (_synchronize K).
Proof. unfold _synchronize. logs_method. Qed.

Lemma logs_trim_slits (tss : bool) (ps : pyval) :
  logs ["_trim_slits"%string] (_trim_slits tss ps).
Proof. unfold _trim_slits. logs_method. Qed.

Lemma logs_make_pixel_arrays : logs [] (_make_pixel_arrays K).
Proof. unfold _make_pixel_arrays. repeat logs_quiet_step. Qed.

Lemma logs_fill_tslits_dict : logs [] _fill_tslits_dict.
Proof. unfold _fill_tslits_dict. repeat logs_quiet_step. Qed.

Lemma logs_add_user_slits (u : user_slits_t) :
  logs ["add_user_slits"%string] (add_user_slits K u false).
Proof.
  unfold add_user_slits, when.
  apply logs_bind_nil; [apply logs_reset | intros _].
  apply logs_bind_nil; [apply logs_gets | intros s].
  apply logs_bind_nil; [apply logs_modify; logged_setter | intros _].
  apply logs_bind_nil; [apply logs_ret | intros _].
  apply logs_append_step.
Qed.

End LogsMethods.

Section RunLog.

Variable K : Kernels.

Lemma logs_pca_order :
  logs ["_pca_order_slit_edges"%string] (_pca_order_slit_edges K).
Proof. unfold _pca_order_slit_edges. logs_method. Qed.

Lemma logs_pca_pixel :
  logs ["_pca_pixel_slit_edges"%string] (_pca_pixel_slit_edges K).
Proof. unfold _pca_pixel_slit_edges. logs_method. Qed.

Lemma pca_logged (s s' : TraceSlits) :
  _pca K s = Ok (tt, s') -> logged (pca_log (par s)) s s'.
Proof.
  unfold _pca, pca_log. intros H.
  apply bind_ok_inv in H. destruct H as (s0 & s1 & H0 & H).
  inversion H0; subst s0 s1; clear H0.
  destruct (String.eqb (par_pcatype (par s)) "order").
  { exact (logs_pca_order _ _ _ H). }
  destruct (String.eqb (par_pcatype (par s)) "pixel").
  { exact (logs_pca_pixel _ _ _ H). }
  match type of H with
  | ?m s = _ => assert (L : logs [] m) by (repeat logs_quiet_step)
  end.
  exact (L _ _ _ H).
Qed.

Lemma run_detect_logged (st s1 : TraceSlits) (any : bool) :
  run_detect K st = Ok (any, s1) ->
  steps s1 = steps st ++ detect_log (par st) /\
  par s1 = par st /\
  user_set s1 = Some (single_set (par st)).
Proof.
  unfold run_detect, detect_log, single_set. intros H.
  apply bind_ok_inv in H. destruct H as (single & s0 & H0 & H).
  inversion H0; subst single s0; clear H0.
  apply bind_ok_inv in H. destruct H as (u & s2 & H2 & H).
  apply bind_ok_inv in H. destruct H as (u' & s3 & H3 & H).
  apply logs_match_edges in H3. destruct H3 as (E3 & P3 & U3).
  apply logs_add_left_right in H. destruct H as (E4 & P4 & U4).
  assert (H2' : steps s2 = steps st ++
                 [if (0 <? List.length (par_single (par st)))%nat
                  then "_edgearr_single_slit"%string
                  else "_edgearr_from_binarr"%string] /\
                par s2 = par st /\
                user_set s2 =
                  Some (0 <? List.length (par_single (par st)))%nat).
  { destruct (0 <? List.length (par_single (par st)))%nat;
      apply bind_ok_inv in H2; destruct H2 as (v & s5 & H5 & H2);
      inversion H2; subst; clear H2;
      [apply logs_edgearr_single_slit in H5
      |apply logs_edgearr_from_binarr in H5];
      destruct H5 as (E5 & P5 & U5); repeat split; assumption. }
  destruct H2' as (E2 & P2 & U2).
  split; [|split; congruence].
  rewrite E4, E3, E2. rewrite <- !app_assoc. reflexivity.
Qed.

Lemma logs_when (n : list string) (b : bool) (m : M unit) :
  logs n m -> logs (step_if b n) (when b m).
Proof.
  intros Hm. unfold when, step_if. destruct b; [exact Hm | apply logs_ret].
Qed.

Lemma run_trace_logged (arms ignore_orders : bool)
      (au : option user_slits_t) (s1 s2 : TraceSlits) :
  user_set s1 = Some (single_set (par s1)) ->
  run_trace K arms ignore_orders au s1 = Ok (tt, s2) ->
  logged (trace_log (par s1) arms ignore_orders (is_some au)) s1 s2.
Proof.
  unfold run_trace, trace_log. intros Hus H.
  apply bind_ok_inv in H. destruct H as (maxgap & s0 & H0 & H).
  inversion H0; subst maxgap s0; clear H0.
  apply bind_ok_inv in H. destruct H as (u1 & t1 & H1 & H).
  assert (L1 : logged (step_if (is_some (par_maxgap (par s1)))
                               ["_maxgap_prep"%string]) s1 t1).
  { destruct (par_maxgap (par s1)); simpl.
    - exact (logs_maxgap_prep _ _ _ H1).
    - exact (logs_ret _ _ _ _ H1). }
  apply bind_ok_inv in H. destruct H as (u2 & t2 & H2 & H).
  apply logs_assign_edges in H2.
  apply bind_ok_inv in H. destruct H as (u3 & t3 & H3 & H).
  assert (L3 : logged (step_if (is_some (par_maxgap (par s1)))
                               ["_maxgap_close"%string]) t2 t3).
  { destruct (par_maxgap (par s1)); simpl.
    - exact (logs_maxgap_close _ _ _ _ _ H3).
    - exact (logs_ret _ _ _ _ H3). }
  pose proof (logged_trans _ _ _ _ _ L1 H2) as L12.
  pose proof (logged_trans _ _ _ _ _ L12 L3) as L123.
  apply bind_ok_inv in H. destruct H as (us & t4 & H4 & H).
  inversion H4; subst us t4; clear H4.
  destruct L123 as (E & P & U).
  rewrite U, Hus in H.
  apply bind_ok_inv in H. destruct H as (u5 & t5 & H5 & H).
  assert (L5 : logged (step_if (negb (single_set (par s1)))
                               ["_final_left_right"%string]) t3 t5).
  { destruct (single_set (par s1)); simpl in *.
    - exact (logs_ret _ _ _ _ H5).
    - exact (logs_final_left_right _ _ _ _ H5). }
  apply bind_ok_inv in H. destruct H as (u6 & t6 & H6 & H).
  assert (L6 : logged (step_if arms
                         ["_mslit_tcrude"%string; "_mslit_sync"%string])
                      t5 t6).
  { refine (logs_when _ arms _ _ _ _ _ H6).
    apply (logs_bind ["_mslit_tcrude"%string] ["_mslit_sync"%string]).
    - apply logs_mslit_tcrude.
    - intros _. apply logs_mslit_sync. }
  apply bind_ok_inv in H. destruct H as (u7 & t7 & H7 & H).
  assert (L7 : logged (step_if (is_some au) ["add_user_slits"%string])
                      t6 t7).
  { destruct au; simpl.
    - exact (logs_add_user_slits _ _ _ _ _ H7).
    - exact (logs_ret _ _ _ _ H7). }
  apply bind_ok_inv in H. destruct H as (u8 & t8 & H8 & H).
  apply (logs_when _ ignore_orders _ (logs_ignore_orders K)) in H8.
  apply bind_ok_inv in H. destruct H as (u9 & t9 & H9 & H).
  apply logs_set_lrminx in H9.
  apply bind_ok_inv in H. destruct H as (u10 & t10 & H10 & H).
  apply logs_fit_edges in H10. apply logs_fit_edges in H.
  pose proof (logged_trans _ _ _ _ _ (conj E (conj P U)) L5) as A1.
  pose proof (logged_trans _ _ _ _ _ A1 L6) as A2.
  pose proof (logged_trans _ _ _ _ _ A2 L7) as A3.
  pose proof (logged_trans _ _ _ _ _ A3 H8) as A4.
  pose proof (logged_trans _ _ _ _ _ A4 H9) as A5.
  pose proof (logged_trans _ _ _ _ _ A5 H10) as A6.
  pose proof (logged_trans _ _ _ _ _ A6 H) as A7.
  destruct A7 as (E7 & P7 & U7). split; [|split; assumption].
  rewrite E7. f_equal. rewrite <- !app_assoc. simpl. reflexivity.
Qed.

Lemma run_finish_logged (arms : bool) (ps : pyval) (s2 s3 : TraceSlits)
      (r : option tslits_dict_t) :
  run_finish K arms ps s2 = Ok (r, s3) ->
  logged [] s2 s3 \/ logged (general_log (par s2)) s2 s3.
Proof.
  unfold run_finish, general_log. intros H.
  apply bind_ok_inv in H. destruct H as (b & t1 & H1 & H).
  apply logs_chk_for_longslit in H1.
  apply bind_ok_inv in H. destruct H as (u & t2 & H2 & H).
  apply bind_ok_inv in H. destruct H as (u' & t3 & H3 & H).
  apply logs_make_pixel_arrays in H3.
  apply bind_ok_inv in H. destruct H as (d & t4 & H4 & H).
  apply logs_fill_tslits_dict in H4.
  inversion H; subst r s3; clear H.
  pose proof (logged_trans _ _ _ _ _ H3 H4) as T.
  destruct b.
  - left. inversion H2; subst t2.
    assert (L : logged [] t1 (set_extrapord (Some (repeat false 1)) t1))
      by (split; [symmetry; apply app_nil_r | split; reflexivity]).
    pose proof (logged_trans _ _ _ _ _ H1 L) as A.
    exact (logged_trans _ _ _ _ _ A T).
  - right.
    apply bind_ok_inv in H2. destruct H2 as (v1 & w1 & G1 & H2).
    apply logs_synchronize in G1.
    apply bind_ok_inv in H2. destruct H2 as (v2 & w2 & G2 & H2).
    destruct v2. apply pca_logged in G2.
    apply logs_trim_slits in H2.
    pose proof (logged_trans _ _ _ _ _ H1 G1) as A1.
    assert (Pw : par w1 = par s2) by (destruct A1 as (_ & P & _); exact P).
    rewrite Pw in G2.
    pose proof (logged_trans _ _ _ _ _ A1 G2) as A2.
    pose proof (logged_trans _ _ _ _ _ A2 H2) as A3.
    pose proof (logged_trans _ _ _ _ _ A3 T) as A4.
    destruct A4 as (E & P & U). split; [|split; assumption].
    rewrite E. f_equal. simpl. rewrite <- !app_assoc, app_nil_r.
    reflexivity.
Qed.

End RunLog.

(** X12.  The log of steps a returning [run] leaves is determined by the
    parameters and the flags of the call.  It is the log at entry followed
    by the detection steps; when a dictionary is returned, these are
    followed by the tracing steps ([_maxgap_prep] and [_maxgap_close] only
    with [maxgap] set, [_final_left_right] only without the single-slit
    override, the two ARMS steps, [add_user_slits] and [_ignore_orders]
    only when asked for, then the two fits) and then either by nothing
    (the longslit shortcut) or by [_synchronize], the step of the
    configured PCA if any, and [_trim_slits]. *)
Theorem run_log_is_determined
        (K : Kernels) (arms ignore_orders : bool)
        (add_user_slits_arg : option user_slits_t) (plate_scale : pyval)
        (st st' : TraceSlits) (r : option tslits_dict_t) :
  run K arms ignore_orders add_user_slits_arg plate_scale st = Ok (r, st') ->
  match r with
  | None => steps st' = steps st ++ detect_log (par st)
  | Some _ =>
      steps st' = steps st ++ detect_log (par st)
                  ++ trace_log (par st) arms ignore_orders
                               (is_some add_user_slits_arg)
      \/
      steps st' = steps st ++ detect_log (par st)
                  ++ trace_log (par st) arms ignore_orders
                               (is_some add_user_slits_arg)
                  ++ general_log (par st)
  end.
Proof.
  intros H. rewrite run_split in H.
  apply bind_ok_inv in H. destruct H as (any & s1 & H1 & H).
  apply run_detect_logged in H1. destruct H1 as (E1 & P1 & U1).
  destruct any; simpl in H.
  - apply bind_ok_inv in H. destruct H as (u & s2 & H2 & H).
    destruct u. rewrite <- P1 in U1.
    apply (run_trace_logged K _ _ _ _ _ U1) in H2.
    destruct H2 as (E2 & P2 & U2).
    pose proof (run_finish_some K _ _ _ _ _ H) as (d & ->).
    apply run_finish_logged in H. rewrite P2, P1 in H. rewrite P1 in E2.
    destruct H as [(E3 & _) | (E3 & _)]; [left | right];
      rewrite E3, E2, E1, <- ?app_assoc, ?app_nil_r; reflexivity.
  - inversion H; subst r st'. exact E1.
Qed.

Lemma run_log_is_determined_witness :
  run Demo.K4 true false None (PyFloat 0.5) Demo.state0
    = Ok (run4_result, st_run4) /\
  match run4_result with
  | None => steps st_run4 = steps Demo.state0 ++ detect_log (par Demo.state0)
  | Some _ =>
      steps st_run4 = steps Demo.state0 ++ detect_log (par Demo.state0)
                  ++ trace_log (par Demo.state0) true false (is_some (@None user_slits_t))
      \/
      steps st_run4 = steps Demo.state0 ++ detect_log (par Demo.state0)
                  ++ trace_log (par Demo.state0) true false (is_some (@None user_slits_t))
                  ++ general_log (par Demo.state0)
  end.
Proof.
  split; [vm_compute; reflexivity|].
  apply (run_log_is_determined Demo.K4 true false None (PyFloat 0.5)
           Demo.state0 st_run4 run4_result).
  vm_compute. reflexivity.
Defined.

(** ** The single-slit override *)

Section SingleSlit.

Lemma py_index_in_range {A} (l : list A) (j : Z) (d : A) :
  0 <= j < Z.of_nat (List.length l) ->
  py_index l j = Ok (nth (Z.to_nat j) l d).
Proof.
  intros Hj. unfold py_index.
  destruct (Z.ltb_spec j 0) as [|_]; [lia|].
  destruct (Z.ltb_spec j 0) as [|_]; [lia|].
  destruct (Z.leb_spec (Z.of_nat (List.length l)) j) as [|_]; [lia|].
  simpl. rewrite (nth_error_nth' l d) by lia. reflexivity.
Qed.

Lemma py_index_from_end {A} (l : list A) (i : Z) (d : A) :
  i < 0 -> 0 <= Z.of_nat (List.length l) + i ->
  py_index l i = Ok (nth (Z.to_nat (Z.of_nat (List.length l) + i)) l d).
Proof.
  intros Hi Hj. unfold py_index.
  destruct (Z.ltb_spec i 0) as [_|]; [|lia].
  destruct (Z.ltb_spec (Z.of_nat (List.length l) + i) 0) as [|_]; [lia|].
  destruct (Z.leb_spec (Z.of_nat (List.length l))
                       (Z.of_nat (List.length l) + i)) as [|_]; [lia|].
  simpl. rewrite (nth_error_nth' l d) by lia. reflexivity.
Qed.

Lemma py_index_out_of_range {A} (l : list A) (i : Z) :
  (0 <= i -> Z.of_nat (List.length l) <= i) ->
  (i < 0 -> Z.of_nat (List.length l) + i < 0) ->
  py_index l i = Raise (IndexError "list index out of range").
Proof.
  intros Hp Hn. unfold py_index.
  destruct (Z.ltb_spec i 0).
  - destruct (Z.ltb_spec (Z.of_nat (List.length l) + i) 0); [|lia].
    reflexivity.
  - destruct (Z.ltb_spec i 0); [lia|].
    destruct (Z.leb_spec (Z.of_nat (List.length l)) i); [|lia].
    reflexivity.
Qed.

(** The two look-ups of [_edgearr_single_slit]. *)
Lemma single_pair (l : list float) (d : Z) :
  let n := Z.of_nat (List.length l) in
  let i := single_index n d in
  (0 <= i /\ i + 1 < n ->
   py_index l ((d - 1) * 2) = Ok (nth (Z.to_nat i) l 0%float) /\
   py_index l ((d - 1) * 2 + 1) = Ok (nth (Z.to_nat (i + 1)) l 0%float)) /\
  (~ (0 <= i /\ i + 1 < n) ->
   py_index l ((d - 1) * 2) = Raise (IndexError "list index out of range") \/
   (exists le, py_index l ((d - 1) * 2) = Ok le) /\
   py_index l ((d - 1) * 2 + 1)
     = Raise (IndexError "list index out of range")).
Proof.
  intros n i. subst i. unfold single_index.
  destruct (Z.ltb_spec d 1) as [Hd|Hd]; subst n.
  - split.
    + intros [H0 H1]. split.
      * apply py_index_from_end; lia.
      * replace (Z.of_nat (List.length l) + (d - 1) * 2 + 1)
          with (Z.of_nat (List.length l) + ((d - 1) * 2 + 1)) by lia.
        apply py_index_from_end; lia.
    + intros Hn.
      destruct (Z.ltb_spec (Z.of_nat (List.length l) + (d - 1) * 2) 0).
      * left. apply py_index_out_of_range; lia.
      * right. split.
        -- eexists. apply (py_index_from_end l _ 0%float); lia.
        -- apply py_index_out_of_range; lia.
  - split.
    + intros [H0 H1]. split.
      * apply py_index_in_range; lia.
      * apply py_index_in_range; lia.
    + intros Hn.
      destruct (Z.ltb_spec ((d - 1) * 2) (Z.of_nat (List.length l))).
      * right. split.
        -- eexists. apply (py_index_in_range l _ 0%float); lia.
        -- apply py_index_out_of_range; lia.
      * left. apply py_index_out_of_range; lia.
Qed.

End SingleSlit.

(** X13.  [_edgearr_single_slit] reads the pair of entries of
    [par['single']] that belongs to the detector: entries [2(d-1)] and
    [2(d-1)+1] for a detector number [d] of at least one, and, since
    Python counts negative indices from the end, the pair that starts
    [2(1-d)] entries before the end for a smaller [d] (the last pair for
    [d = 0]).  When both entries exist it stores the image made from them,
    unsets [siglev] and records the step; otherwise it raises IndexError.
    Without a detector number it raises TypeError. *)
Theorem edgearr_single_slit_reads_detector_pair
        (K : Kernels) (st : TraceSlits) :
  match det st with
  | None =>
      _edgearr_single_slit K st =
      Raise (TypeError
               "unsupported operand type(s) for -: 'NoneType' and 'int'")
  | Some d =>
      let single := par_single (par st) in
      let n := Z.of_nat (List.length single) in
      let i := single_index n d in
      (0 <= i /\ i + 1 < n ->
       _edgearr_single_slit K st =
       Ok (tt, set_steps (steps st ++ ["_edgearr_single_slit"%string])
                 (set_siglev None
                    (set_edgearr
                       (edgearr_from_user K (shape (mstrace st))
                          (nth (Z.to_nat i) single 0%float)
                          (nth (Z.to_nat (i + 1)) single 0%float) d) st)))) /\
      (~ (0 <= i /\ i + 1 < n) ->
       _edgearr_single_slit K st =
       Raise (IndexError "list index out of range"))
  end.
Proof.
  destruct (det st) as [d|] eqn:Ed.
  - cbv zeta.
    pose proof (single_pair (par_single (par st)) d) as HP.
    cbv zeta in HP. destruct HP as [Hin Hout].
    split; intros Hi.
    + destruct (Hin Hi) as [E1 E2].
      unfold _edgearr_single_slit, bind, gets, lift, modify, append_step.
      rewrite Ed. cbn [of_option]. rewrite E1, E2. reflexivity.
    + unfold _edgearr_single_slit, bind, gets, lift, modify, append_step.
      rewrite Ed. cbn [of_option].
      destruct (Hout Hi) as [E1 | [[le E1] E2]].
      * rewrite E1. reflexivity.
      * rewrite E1, E2. reflexivity.
  - unfold _edgearr_single_slit, bind, gets, lift.
    rewrite Ed. reflexivity.
Qed.

(** Detector 2 of two reads the third and the fourth entry; detector 0
    would read the same pair, and detector 3 has none. *)
Lemma edgearr_single_slit_example :
  (exists st',
     _edgearr_single_slit (Demo.stub Demo.E1 (1, 1) Demo.fit0 [] [])
                          state_single2 = Ok (tt, st')) /\
  py_index (par_single par_single2) ((0 - 1) * 2) = Ok 7%float /\
  py_index (par_single par_single2) ((3 - 1) * 2)
    = Raise (IndexError "list index out of range").
Proof.
  split; [eexists; vm_compute; reflexivity|].
  split; vm_compute; reflexivity.
Qed.

(** ** The trivial assignment *)

Section Clamp.

Lemma clamp_label_range (e v : Z) :
  1 <= e -> -2 * e < clamp_label e v < 2 * e.
Proof.
  intros He. unfold clamp_label.
  destruct (Z.leb_spec v (-2 * e)); [lia|].
  destruct (Z.leb_spec (2 * e) v); lia.
Qed.

Lemma clamp_label_twice (e v : Z) :
  1 <= e -> clamp_label e (clamp_label e v) = clamp_label e v.
Proof.
  intros He. pose proof (clamp_label_range e v He) as Hr.
  unfold clamp_label at 1.
  destruct (Z.leb_spec (clamp_label e v) (-2 * e)); [lia|].
  destruct (Z.leb_spec (2 * e) (clamp_label e v)); [lia|].
  reflexivity.
Qed.

Lemma clamp_two_steps (e v : Z) :
  1 <= e ->
  (let w := if v <=? -2 * e then - e else v in
   if 2 * e <=? w then e else w) = clamp_label e v.
Proof.
  intros He. unfold clamp_label. cbv zeta.
  destruct (Z.leb_spec v (-2 * e)).
  - destruct (Z.leb_spec (2 * e) (- e)); [lia | reflexivity].
  - reflexivity.
Qed.

Lemma assign_edges_clamps (K : Kernels) (st : TraceSlits) :
  lcnt st = 1 -> rcnt st = 1 -> 1 <= ednum st ->
  _assign_edges K st =
  Ok (tt, set_steps (steps st ++ ["_assign_edges"%string])
            (set_edgearr (map (map (clamp_label (ednum st))) (edgearr st))
                         st)).
Proof.
  intros Hl Hr He.
  unfold _assign_edges, bind, gets, append_step, modify.
  rewrite Hl, Hr. change (1 =? 1) with true. cbv beta iota.
  unfold set_steps, set_edgearr, update_where.
  cbn [mstrace pixlocn par det ednum binbpx binarr lcen rcen tc_dict
       edgearr edgearrcp siglev steps extrapord pix lcen_tweak rcen_tweak
       user_set lr lcnt rcnt lfit rfit sync tslits_dict].
  do 3 f_equal.
  rewrite map_map. apply map_ext. intros row. rewrite map_map.
  apply map_ext. intros v.
  exact (clamp_two_steps (ednum st) v He).
Qed.

End Clamp.

(** X14.  With one group of edges on each side and [ednum] at least one,
    [_assign_edges] returns for every collaborator, leaves every label
    strictly between [-2*ednum] and [2*ednum] (no doubled id survives),
    moves no label that was already in that range, and a second call
    changes no label. *)
Theorem assign_edges_single_groups_bound_labels
        (K : Kernels) (st : TraceSlits) :
  lcnt st = 1 -> rcnt st = 1 -> 1 <= ednum st ->
  exists st',
    _assign_edges K st = Ok (tt, st') /\
    edgearr st' = map (map (clamp_label (ednum st))) (edgearr st) /\
    (forall v, In v (pixels_of (edgearr st')) ->
               -2 * ednum st < v < 2 * ednum st) /\
    (forall v, -2 * ednum st < v < 2 * ednum st ->
               clamp_label (ednum st) v = v) /\
    exists st'',
      _assign_edges K st' = Ok (tt, st'') /\ edgearr st'' = edgearr st'.
Proof.
  intros Hl Hr He. eexists. split; [exact (assign_edges_clamps K st Hl Hr He)|].
  split; [reflexivity|]. split; [|split].
  - intros v Hv. cbn [edgearr set_steps set_edgearr] in Hv.
    rewrite pixels_of_map in Hv. apply in_map_iff in Hv.
    destruct Hv as (u & <- & _). apply clamp_label_range, He.
  - intros v Hv. unfold clamp_label.
    destruct (Z.leb_spec v (-2 * ednum st)); [lia|].
    destruct (Z.leb_spec (2 * ednum st) v); [lia|]. reflexivity.
  - eexists. split.
    + apply assign_edges_clamps; [exact Hl | exact Hr | exact He].
    + cbn [edgearr ednum set_steps set_edgearr].
      rewrite map_map. apply map_ext. intros row. rewrite map_map.
      apply map_ext. intros v. apply clamp_label_twice, He.
Qed.

Lemma assign_edges_single_groups_bound_labels_witness :
  lcnt state_one_group = 1 /\ rcnt state_one_group = 1 /\
  1 <= ednum state_one_group /\
  exists st',
    _assign_edges Demo.K4 state_one_group = Ok (tt, st') /\
    edgearr st' = map (map (clamp_label (ednum state_one_group)))
                      (edgearr state_one_group) /\
    (forall v, In v (pixels_of (edgearr st')) ->
               -2 * ednum state_one_group < v < 2 * ednum state_one_group) /\
    (forall v, -2 * ednum state_one_group < v < 2 * ednum state_one_group ->
               clamp_label (ednum state_one_group) v = v) /\
    exists st'',
      _assign_edges Demo.K4 st' = Ok (tt, st'') /\ edgearr st'' = edgearr st'.
Proof.
  split; [reflexivity|]. split; [reflexivity|].
  split; [vm_compute; discriminate|].
  apply (assign_edges_single_groups_bound_labels Demo.K4 state_one_group).
  - reflexivity.
  - reflexivity.
  - vm_compute. discriminate.
Defined.

(** ** The printed form *)

Section Repr.

Local Open Scope string_scope.

Lemma string_append_assoc (a b c : string) :
  String.append (String.append a b) c = String.append a (String.append b c).
Proof. induction a as [|x a IH]; simpl; [reflexivity | now rewrite IH]. Qed.

Lemma string_append_nil_r (a : string) : String.append a "" = a.
Proof. induction a as [|x a IH]; simpl; [reflexivity | now rewrite IH]. Qed.

Lemma string_length_append (a b : string) :
  String.length (String.append a b)
  = (String.length a + String.length b)%nat.
Proof. induction a as [|x a IH]; simpl; [reflexivity | now rewrite IH]. Qed.

Lemma substring_prefix (a b : string) :
  String.substring 0 (String.length a) (String.append a b) = a.
Proof.
  induction a as [|x a IH]; simpl.
  - destruct b; reflexivity.
  - now rewrite IH.
Qed.

Lemma drop_last2_comma (a : string) :
  drop_last2 (String.append a ", ") = a.
Proof.
  unfold drop_last2. rewrite string_length_append. simpl String.length.
  replace (String.length a + 2 - 2)%nat with (String.length a) by lia.
  apply substring_prefix.
Qed.

(** The loop of [__repr__] writes every step followed by a comma. *)
Lemma repr_loop (l : list string) (acc : string) :
  l <> [] ->
  fold_left (fun t step => String.append t (String.append step ", ")) l acc
  = String.append (String.append acc (String.concat ", " l)) ", ".
Proof.
  revert acc. induction l as [|x l IH]; intros acc Hl; [congruence|].
  destruct l as [|y l].
  - simpl. now rewrite string_append_assoc.
  - change (fold_left (fun t step => String.append t (String.append step ", "))
              (x :: y :: l) acc)
      with (fold_left (fun t step => String.append t (String.append step ", "))
              (y :: l) (String.append acc (String.append x ", "))).
    rewrite IH by discriminate.
    change (String.concat ", " (x :: y :: l))
      with (String.append x (String.append ", " (String.concat ", " (y :: l)))).
    now rewrite !string_append_assoc.
Qed.

End Repr.

(** X15.  The printed form of an instance is ["<TraceSlits: >"] while no
    step is recorded; otherwise it lists the recorded steps in order,
    separated by a comma and a space, between ["<TraceSlits:  steps: ["]
    and ["]>"]: the trailing separator the loop writes is cut off. *)
Theorem repr_lists_steps_comma_separated (s : TraceSlits) :
  __repr__ s =
  match steps s with
  | [] => "<TraceSlits: >"%string
  | _ => String.append "<TraceSlits:  steps: ["
           (String.append (String.concat ", " (steps s)) "]>")
  end.
Proof.
  unfold __repr__. destruct (steps s) as [|x l] eqn:E; [reflexivity|].
  change (0 <? List.length (x :: l))%nat with true. cbv beta iota zeta.
  rewrite repr_loop by discriminate.
  rewrite drop_last2_comma.
  rewrite !string_append_assoc. reflexivity.
Qed.

Lemma repr_example :
  __repr__ st_run4 =
  String.append
    "<TraceSlits:  steps: [make_binarr, _edgearr_from_binarr, _match_edges, "
    (String.append
       "_add_left_right, _assign_edges, _final_left_right, _mslit_tcrude, "
       (String.append
          "_mslit_sync, _fit_edges_left, _fit_edges_right, _synchronize, "
          "_pca_pixel_slit_edges, _trim_slits]>")).
Proof. vm_compute. reflexivity. Qed.

(** ** Loading the master files *)

Section LoadFilesFacts.

Variables (A J : Type).

Lemma dict_get_set (d : dict A) (k k' : string) (v : A) :
  dict_get (dict_set d k v) k' =
  if String.eqb k k' then Some v else dict_get d k'.
Proof.
  induction d as [|[k0 w] d IH]; simpl.
  - destruct (String.eqb k k'); reflexivity.
  - destruct (String.eqb_spec k0 k) as [->|Hk]; simpl.
    + destruct (String.eqb k k'); reflexivity.
    + rewrite IH. destruct (String.eqb_spec k0 k') as [->|Hk'].
      * destruct (String.eqb_spec k k') as [E|_]; [congruence | reflexivity].
      * reflexivity.
Qed.

(** The look-up by name and position is the search for the first
    extension of that name. *)
Lemma load_key_spec (hdul : list (string * A)) (key : string) (d : dict A) :
  load_key A hdul key d =
  Ok (match first_named A hdul key with
      | Some v => dict_set d key v
      | None => d
      end).
Proof.
  unfold load_key, first_named.
  assert (H : match find (fun h => String.eqb (fst h) key) hdul with
              | Some h =>
                  existsb (String.eqb key) (map fst hdul) = true /\
                  exists i, index_of key (map fst hdul) = Some i /\
                            nth_error hdul i = Some h
              | None => existsb (String.eqb key) (map fst hdul) = false
              end).
  { induction hdul as [|[n x] hdul IH]; simpl; [reflexivity|].
    rewrite (String.eqb_sym key n).
    destruct (String.eqb n key); simpl.
    - split; [reflexivity|]. exists 0%nat. split; reflexivity.
    - destruct (find (fun h => String.eqb (fst h) key) hdul) as [h|].
      + destruct IH as (E & i & Ei & En). split; [exact E|].
        exists (S i). rewrite Ei. split; [reflexivity | exact En].
      + exact IH. }
  destruct (find (fun h => String.eqb (fst h) key) hdul) as [h|].
  - destruct H as (E & i & Ei & En). rewrite E, Ei. simpl.
    rewrite En. reflexivity.
  - rewrite H. reflexivity.
Qed.

Lemma load_keys_spec (hdul : list (string * A)) (keys : list string) :
  forall d, exists d',
    load_keys A hdul keys d = Ok d' /\
    forall key,
      dict_get d' key =
      if existsb (String.eqb key) keys
      then match first_named A hdul key with
           | Some v => Some v
           | None => dict_get d key
           end
      else dict_get d key.
Proof.
  induction keys as [|k rest IH]; intros d.
  - exists d. split; reflexivity.
  - simpl load_keys. rewrite load_key_spec. cbn [rbind].
    destruct (IH (match first_named A hdul k with
                  | Some v => dict_set d k v
                  | None => d
                  end)) as (d' & E & Hget).
    exists d'. split; [exact E|]. intros key. rewrite Hget. simpl existsb.
    destruct (String.eqb_spec key k) as [->|Hk]; simpl.
    + destruct (first_named A hdul k) as [v|] eqn:F.
      * destruct (existsb (String.eqb k) rest); [reflexivity|].
        rewrite dict_get_set, String.eqb_refl. reflexivity.
      * destruct (existsb (String.eqb k) rest); reflexivity.
    + assert (G : dict_get (match first_named A hdul k with
                            | Some v => dict_set d k v
                            | None => d
                            end) key = dict_get d key).
      { destruct (first_named A hdul k); [|reflexivity].
        rewrite dict_get_set.
        destruct (String.eqb_spec k key); [congruence | reflexivity]. }
      rewrite G. reflexivity.
Qed.

Lemma existsb_eqb_In (key : string) (names : list string) :
  existsb (String.eqb key) names = true <-> In key names.
Proof.
  rewrite existsb_exists. split.
  - intros (x & Hin & E). apply String.eqb_eq in E. now subst.
  - intros Hin. exists key. split; [exact Hin | apply String.eqb_refl].
Qed.

End LoadFilesFacts.

(** X16.  [load_traceslit_files] reads [root + '.fits.gz'] and
    [root + '.json'].  Without the FITS file it returns [(None, None)] and
    reads nothing.  With an extension named SLITPIXELS it raises the
    out-of-date error.  Otherwise it raises what the JSON reader raises,
    or returns the JSON content with a dictionary that holds, for each of
    the nine known names that occurs among the extensions, the data of the
    first extension of that name, and nothing else: extensions of other
    names and later extensions of the same name are ignored. *)
Theorem load_traceslit_files_keeps_first_known_extensions
        (A J : Type) (isfile : string -> bool)
        (fits_open : string -> result (list (string * A)))
        (loadjson : string -> result J) (root : string) :
  let load := load_traceslit_files A J isfile fits_open loadjson in
  let fits_file := String.append root ".fits.gz" in
  let json_file := String.append root ".json" in
  (isfile fits_file = false -> load root = Ok (None, None)) /\
  (isfile fits_file = true ->
   (forall e, fits_open fits_file = Raise e -> load root = Raise e) /\
   forall hdul, fits_open fits_file = Ok hdul ->
     (In "SLITPIXELS"%string (map fst hdul) ->
      load root = Raise (PypeItError out_of_date_message)) /\
     (~ In "SLITPIXELS"%string (map fst hdul) ->
      (forall e, loadjson json_file = Raise e -> load root = Raise e) /\
      (forall ts, loadjson json_file = Ok ts ->
         exists d,
           load root = Ok (Some d, Some ts) /\
           forall key,
             dict_get d key =
             if existsb (String.eqb key) master_keys
             then first_named A hdul key
             else None))).
Proof.
  intros load fits_file json_file. subst load. unfold load_traceslit_files.
  fold fits_file json_file. split.
  - intros ->. reflexivity.
  - intros ->. cbn [negb]. split.
    + intros e ->. reflexivity.
    + intros hdul ->. cbn [rbind]. split.
      * intros Hin. apply existsb_eqb_In in Hin. rewrite Hin. reflexivity.
      * intros Hnot.
        destruct (existsb (String.eqb "SLITPIXELS") (map fst hdul)) eqn:E.
        { apply existsb_eqb_In in E. contradiction. }
        destruct (load_keys_spec A hdul master_keys []) as (d & Ed & Hget).
        rewrite Ed. cbn [rbind]. split.
        -- intros e ->. reflexivity.
        -- intros ts ->. exists d. split; [reflexivity|].
           intros key. rewrite Hget.
           destruct (existsb (String.eqb key) master_keys); [|reflexivity].
           destruct (first_named A hdul key); reflexivity.
Qed.

(** A file with two LCEN extensions and one of an unknown name: the first
    LCEN is kept, the unknown one is dropped, and a missing file gives
    [(None, None)]. *)
Lemma load_traceslit_files_example :
  let isfile := String.eqb "Master.fits.gz" in
  let fits_open := fun _ : string =>
    Ok [("PRIMARY", 0); ("LCEN", 1); ("OTHER", 2); ("LCEN", 3);
        ("MSTRACE", 4)]%string in
  let loadjson := fun _ : string => Ok 7 in
  load_traceslit_files Z Z isfile fits_open loadjson "Master"
    = Ok (Some [("MSTRACE", 4); ("LCEN", 1)]%string, Some 7) /\
  load_traceslit_files Z Z isfile fits_open loadjson "Other"
    = Ok (None, None).
Proof. split; vm_compute; reflexivity. Qed.

(** * [PypeItImage] *)

Section ImageFacts.

Import PypeItImage.

Variables (A H : Type).
Variable X : Externals A H.

Hypothesis allowed_fixed :
  existsb (String.eqb "allowed_attributes") (mask_attributes X) = false.

Lemma allowed_not_itself (n : string) :
  existsb (String.eqb n) (allowed X) = true ->
  n <> "allowed_attributes"%string.
Proof.
  intros E ->. unfold allowed in E.
  rewrite existsb_app, allowed_fixed in E. discriminate.
Qed.

Lemma dict_get_set_same (o : object A H) (k : string) (v : value A H) :
  dict_get (dict_set o k v) k = Some v.
Proof. rewrite dict_get_set, String.eqb_refl. reflexivity. Qed.

Lemma dict_get_set_other (o : object A H) (k k' : string) (v : value A H) :
  k <> k' -> dict_get (dict_set o k v) k' = dict_get o k'.
Proof.
  intros Hk. rewrite dict_get_set.
  destruct (String.eqb_spec k k'); [contradiction | reflexivity].
Qed.

Lemma loaded_base_allowed (h0 h1 : hdu A H) :
  dict_get (loaded_base X h0 h1) "allowed_attributes"
  = Some (VNames (allowed X)).
Proof.
  unfold loaded_base, __init__, setattr.
  rewrite dict_get_set_other by discriminate.
  apply dict_get_set_same.
Qed.

Lemma find_append {B} (f : B -> bool) (l1 l2 : list B) :
  find f (l1 ++ l2) =
  match find f l1 with Some x => Some x | None => find f l2 end.
Proof.
  induction l1 as [|x l1 IH]; simpl; [reflexivity|].
  destruct (f x); [reflexivity | exact IH].
Qed.

(** The extensions are stored in order, so the last of a name wins. *)
Lemma load_extensions_all_allowed (exts : list (hdu A H)) :
  forall o,
    dict_get o "allowed_attributes" = Some (VNames (allowed X)) ->
    forallb (is_allowed X) exts = true ->
    exists o',
      load_extensions X exts o = Ok o' /\
      forall a,
        dict_get o' a =
        match find (fun h => String.eqb (lower (hdu_name h)) a) (rev exts) with
        | Some h => Some (hdu_data h)
        | None => dict_get o a
        end.
Proof.
  induction exts as [|h rest IH]; intros o Ho Hall.
  - exists o. split; reflexivity.
  - simpl in Hall. apply andb_true_iff in Hall. destruct Hall as [Hh Hrest].
    simpl load_extensions. unfold getattr. rewrite Ho. cbn [of_option rbind is_in].
    unfold is_allowed in Hh. rewrite Hh. cbn [negb].
    destruct (IH (setattr o (lower (hdu_name h)) (hdu_data h))) as (o' & E & G).
    { unfold setattr. rewrite dict_get_set_other; [exact Ho|].
      apply allowed_not_itself, Hh. }
    { exact Hrest. }
    exists o'. split; [exact E|]. intros a. rewrite G.
    simpl rev. rewrite find_append.
    destruct (find (fun h' => String.eqb (lower (hdu_name h')) a) (rev rest));
      [reflexivity|].
    unfold setattr. rewrite dict_get_set. simpl.
    destruct (String.eqb (lower (hdu_name h)) a); reflexivity.
Qed.

Lemma load_extensions_some_refused (exts : list (hdu A H)) :
  forall o,
    dict_get o "allowed_attributes" = Some (VNames (allowed X)) ->
    forallb (is_allowed X) exts = false ->
    exists msg, load_extensions X exts o = Raise (PypeItError msg).
Proof.
  induction exts as [|h rest IH]; intros o Ho Hall; [discriminate|].
  simpl in Hall. simpl load_extensions. unfold getattr. rewrite Ho.
  cbn [of_option rbind is_in].
  unfold is_allowed in Hall at 1.
  destruct (existsb (String.eqb (lower (hdu_name h))) (allowed X)) eqn:Hh.
  - cbn [negb]. apply IH; [|exact Hall].
    unfold setattr. rewrite dict_get_set_other; [exact Ho|].
    apply allowed_not_itself, Hh.
  - cbn [negb]. eexists. reflexivity.
Qed.

(** What [save_images] hands over: the image, then [ivar] and [mask] when
    they are set, under the names IMAGE (or the one given), IVAR, MASK. *)
Lemma save_images_inv (o : object A H) (outfile : string) (hdr : option H)
      (iext : option string) (c : write_fits_call A H) :
  save_images X o outfile hdr iext = Ok c ->
  exists vi vv vm,
    getattr o "image" = Ok vi /\ getattr o "ivar" = Ok vv /\
    getattr o "mask" = Ok vm /\
    c = (match hdr with Some h => h | None => initialize_header A H X end,
         [vi] ++ (if is_none vv then [] else [vv])
              ++ (if is_none vm then [] else [vm]),
         outfile,
         [match iext with None => "IMAGE"%string | Some n => n end]
           ++ (if is_none vv then [] else ["IVAR"%string])
           ++ (if is_none vm then [] else ["MASK"%string])).
Proof.
  unfold save_images. intros E.
  destruct (getattr o "image") as [vi|e]; [|discriminate]. cbn [rbind] in E.
  cbn [save_items] in E.
  destruct (getattr o "ivar") as [vv|e]; [|discriminate]. cbn [rbind] in E.
  exists vi, vv.
  destruct (is_none vv); cbn [negb] in E;
    (destruct (getattr o "mask") as [vm|e]; [|discriminate]);
    cbn [rbind] in E; exists vm;
    (destruct (is_none vm); cbn [negb] in E);
    inversion E; subst c; clear E;
    (destruct iext; repeat split; reflexivity).
Qed.

Lemma getattr_get (o : object A H) (a : string) (v : value A H) :
  dict_get o a = Some v -> getattr o a = Ok v.
Proof. unfold getattr. now intros ->. Qed.

Lemma loaded_base_attributes (h0 h1 : hdu A H) :
  dict_get (loaded_base X h0 h1) "image" = Some (hdu_data h1) /\
  dict_get (loaded_base X h0 h1) "head0" = Some (VHeader (hdu_header h0)) /\
  dict_get (loaded_base X h0 h1) "ivar" = Some VNone /\
  dict_get (loaded_base X h0 h1) "rn2img" = Some VNone /\
  dict_get (loaded_base X h0 h1) "crmask" = Some VNone /\
  dict_get (loaded_base X h0 h1) "mask" = Some VNone.
Proof.
  unfold loaded_base, __init__, setattr.
  repeat split;
    repeat first
      [ apply dict_get_set_same
      | rewrite dict_get_set_other by discriminate ].
Qed.

Lemma load_images_unfold (h0 h1 : hdu A H) (rest : list (hdu A H)) :
  load_images X (h0 :: h1 :: rest)
  = load_extensions X rest (loaded_base X h0 h1).
Proof.
  unfold load_images.
  rewrite (py_index_in_range (h0 :: h1 :: rest) 0 h0)
    by (cbn [List.length]; lia).
  rewrite (py_index_in_range (h0 :: h1 :: rest) 1 h0)
    by (cbn [List.length]; lia).
  reflexivity.
Qed.

Lemma load_images_short (hdul : list (hdu A H)) :
  (List.length hdul < 2)%nat ->
  load_images X hdul = Raise (IndexError "list index out of range").
Proof.
  intros Hn. unfold load_images.
  destruct hdul as [|h0 [|h1 rest]]; [reflexivity | reflexivity|].
  simpl in Hn. lia.
Qed.

End ImageFacts.

(** X17.  [load_images] needs a primary HDU and one extension, or raises
    IndexError.  It starts from an instance holding the data of the first
    extension as [image] and the primary header as [head0], every other
    image unset, whatever the name of that extension.  It then stores each
    later extension under its lower-cased name, in order, so that the last
    extension of a name wins (also over [image] and [head0]); it returns
    exactly when each of these names is an allowed attribute, and raises
    the PypeIt error otherwise.  (The base class is assumed not to list
    [allowed_attributes] itself among the mask attributes.) *)
Theorem load_images_last_extension_wins
        (A H : Type) (X : PypeItImage.Externals A H)
        (hdul : list (PypeItImage.hdu A H)) :
  existsb (String.eqb "allowed_attributes") (PypeItImage.mask_attributes X)
    = false ->
  match hdul with
  | h0 :: h1 :: rest =>
      (forallb (PypeItImage.is_allowed X) rest = true ->
       exists o,
         PypeItImage.load_images X hdul = Ok o /\
         forall a,
           dict_get o a =
           match find (fun h => String.eqb
                                  (PypeItImage.lower (PypeItImage.hdu_name h))
                                  a) (rev rest) with
           | Some h => Some (PypeItImage.hdu_data h)
           | None => dict_get (PypeItImage.loaded_base X h0 h1) a
           end) /\
      (forallb (PypeItImage.is_allowed X) rest = false ->
       exists msg, PypeItImage.load_images X hdul = Raise (PypeItError msg)) /\
      dict_get (PypeItImage.loaded_base X h0 h1) "image"
        = Some (PypeItImage.hdu_data h1) /\
      dict_get (PypeItImage.loaded_base X h0 h1) "head0"
        = Some (PypeItImage.VHeader (PypeItImage.hdu_header h0)) /\
      dict_get (PypeItImage.loaded_base X h0 h1) "ivar"
        = Some PypeItImage.VNone /\
      dict_get (PypeItImage.loaded_base X h0 h1) "rn2img"
        = Some PypeItImage.VNone /\
      dict_get (PypeItImage.loaded_base X h0 h1) "crmask"
        = Some PypeItImage.VNone /\
      dict_get (PypeItImage.loaded_base X h0 h1) "mask"
        = Some PypeItImage.VNone
  | _ =>
      PypeItImage.load_images X hdul
      = Raise (IndexError "list index out of range")
  end.
Proof.
  intros Hfix. destruct hdul as [|h0 [|h1 rest]]; [reflexivity|reflexivity|].
  split; [|split].
  - intros Hall. rewrite load_images_unfold.
    apply (load_extensions_all_allowed A H X Hfix rest).
    + apply loaded_base_allowed.
    + exact Hall.
  - intros Hall. rewrite load_images_unfold.
    apply (load_extensions_some_refused A H X Hfix rest).
    + apply loaded_base_allowed.
    + exact Hall.
  - apply loaded_base_attributes.
Qed.

Lemma load_images_last_extension_wins_witness :
  existsb (String.eqb "allowed_attributes")
          (PypeItImage.mask_attributes image_externals) = false /\
  exists o,
    PypeItImage.load_images image_externals image_file = Ok o /\
    dict_get o "ivar" = Some (PypeItImage.VArray 4) /\
    dict_get o "mask" = Some (PypeItImage.VArray 3) /\
    dict_get o "image" = Some (PypeItImage.VArray 1).
Proof.
  split; [reflexivity|].
  destruct (load_images_last_extension_wins Z string image_externals
              image_file) as [Hok _]; [reflexivity|].
  destruct (Hok eq_refl) as (o & E & G).
  exists o. split; [exact E|].
  rewrite !G. repeat split.
Defined.

Section RoundTrip.

Import PypeItImage.

Variables (A H : Type).
Variable X : Externals A H.

Hypothesis allowed_fixed :
  existsb (String.eqb "allowed_attributes") (mask_attributes X) = false.

Lemma holds_inv (hdul : list (hdu A H)) (hdr : H) (data : list (value A H))
      (outfile : string) (ext : list string) :
  holds hdul (hdr, data, outfile, ext) ->
  exists h0 h1 rest,
    hdul = h0 :: h1 :: rest /\
    map hdu_data (h1 :: rest) = data /\
    map hdu_name rest = tl ext.
Proof. intros Hh. exact Hh. Qed.

Lemma ivar_allowed : existsb (String.eqb "ivar") (allowed X) = true.
Proof. reflexivity. Qed.

Lemma mask_allowed :
  existsb (String.eqb "mask") (allowed X)
  = existsb (String.eqb "mask") (mask_attributes X).
Proof. reflexivity. Qed.

(** The extensions written after the image: IVAR and MASK when set. *)
Lemma written_extensions (rest : list (hdu A H)) (vv vm : value A H) :
  map hdu_name rest = (if is_none vv then [] else ["IVAR"%string])
                      ++ (if is_none vm then [] else ["MASK"%string]) ->
  map hdu_data rest = (if is_none vv then [] else [vv])
                      ++ (if is_none vm then [] else [vm]) ->
  forallb (is_allowed X) rest
    = (is_none vm || existsb (String.eqb "mask") (mask_attributes X)) /\
  (forall a,
     a = "image"%string \/ a = "head0"%string \/ a = "rn2img"%string \/
     a = "crmask"%string ->
     find (fun h => String.eqb (lower (hdu_name h)) a) (rev rest) = None) /\
  (forall d,
     match find (fun h => String.eqb (lower (hdu_name h)) "ivar") (rev rest)
     with Some h => Some (hdu_data h) | None => Some d end
     = Some (if is_none vv then d else vv)) /\
  (forall d,
     match find (fun h => String.eqb (lower (hdu_name h)) "mask") (rev rest)
     with Some h => Some (hdu_data h) | None => Some d end
     = Some (if is_none vm then d else vm)).
Proof.
  intros Hn Hd.
  assert (Hi : forall h : hdu A H, hdu_name h = "IVAR"%string ->
                 is_allowed X h = true).
  { intros h E. unfold is_allowed. rewrite E. reflexivity. }
  assert (Hm : forall h : hdu A H, hdu_name h = "MASK"%string ->
                 is_allowed X h
                 = existsb (String.eqb "mask") (mask_attributes X)).
  { intros h E. unfold is_allowed. rewrite E. reflexivity. }
  destruct (is_none vv), (is_none vm); simpl in Hn, Hd.
  - destruct rest; [|discriminate]. repeat split; reflexivity.
  - destruct rest as [|hm [|? ?]]; try discriminate.
    injection Hn as En. injection Hd as Ed.
    cbn [forallb rev app find]. rewrite (Hm hm En), En, <- Ed.
    change (lower "MASK") with "mask"%string.
    split; [now rewrite andb_true_r|].
    split; [intros a [-> | [-> | [-> | ->]]]; reflexivity|].
    split; intros d; reflexivity.
  - destruct rest as [|hi [|? ?]]; try discriminate.
    injection Hn as En. injection Hd as Ed.
    cbn [forallb rev app find]. rewrite (Hi hi En), En, <- Ed.
    change (lower "IVAR") with "ivar"%string.
    split; [reflexivity|].
    split; [intros a [-> | [-> | [-> | ->]]]; reflexivity|].
    split; intros d; reflexivity.
  - destruct rest as [|hi [|hm [|? ?]]]; try discriminate.
    injection Hn as En Em. injection Hd as Ed Edm.
    cbn [forallb rev app find]. rewrite (Hi hi En), (Hm hm Em), En, Em, <- Ed, <- Edm.
    change (lower "IVAR") with "ivar"%string.
    change (lower "MASK") with "mask"%string.
    split; [now rewrite andb_true_r|].
    split; [intros a [-> | [-> | [-> | ->]]]; reflexivity|].
    split; intros d; reflexivity.
Qed.

End RoundTrip.

(** X18.  Writing an instance with [save_images] and reading the file
    back with [load_images] gives back [image], [ivar] and [mask];
    [rn2img] and [crmask] are not written and come back unset, and [head0]
    is the primary header of the file read.  This holds when the file
    read holds the images handed to [save.write_fits] (after the primary
    HDU one extension for each image, those after the first under the
    names given) and, if [mask] is set, when the base class lists [mask]
    among the mask attributes; if it does not, reading the file back
    raises the PypeIt error. *)
Theorem save_then_load_keeps_image_ivar_mask
        (A H : Type) (X : PypeItImage.Externals A H)
        (o : PypeItImage.object A H) (outfile : string) (hdr : option H)
        (iext : option string) (c : PypeItImage.write_fits_call A H)
        (hdul : list (PypeItImage.hdu A H)) :
  existsb (String.eqb "allowed_attributes") (PypeItImage.mask_attributes X)
    = false ->
  PypeItImage.save_images X o outfile hdr iext = Ok c ->
  PypeItImage.holds hdul c ->
  exists vi vv vm h0,
    PypeItImage.getattr o "image" = Ok vi /\
    PypeItImage.getattr o "ivar" = Ok vv /\
    PypeItImage.getattr o "mask" = Ok vm /\
    nth_error hdul 0 = Some h0 /\
    if PypeItImage.is_none vm
       || existsb (String.eqb "mask") (PypeItImage.mask_attributes X)
    then
      exists o',
        PypeItImage.load_images X hdul = Ok o' /\
        PypeItImage.getattr o' "image" = Ok vi /\
        PypeItImage.getattr o' "ivar" = Ok vv /\
        PypeItImage.getattr o' "mask" = Ok vm /\
        PypeItImage.getattr o' "head0"
          = Ok (PypeItImage.VHeader (PypeItImage.hdu_header h0)) /\
        PypeItImage.getattr o' "rn2img" = Ok PypeItImage.VNone /\
        PypeItImage.getattr o' "crmask" = Ok PypeItImage.VNone
    else
      exists msg, PypeItImage.load_images X hdul = Raise (PypeItError msg).
Proof.
  intros Hfix Hs Hh.
  apply save_images_inv in Hs.
  destruct Hs as (vi & vv & vm & Ei & Ev & Em & ->).
  apply holds_inv in Hh. destruct Hh as (h0 & h1 & rest & -> & Ed & En).
  exists vi, vv, vm, h0. split; [exact Ei|]. split; [exact Ev|].
  split; [exact Em|]. split; [reflexivity|].
  simpl in En, Ed. injection Ed as Ed1 Ed.
  destruct (written_extensions A H X rest vv vm En Ed)
    as (Hall & Hnone & Hiv & Hmk).
  rewrite load_images_unfold.
  destruct (PypeItImage.is_none vm
            || existsb (String.eqb "mask") (PypeItImage.mask_attributes X))
    eqn:Eok.
  - destruct (load_extensions_all_allowed A H X Hfix rest
                (PypeItImage.loaded_base X h0 h1)
                (loaded_base_allowed A H X h0 h1) Hall) as (o' & E & G).
    exists o'. split; [exact E|].
    destruct (loaded_base_attributes A H X h0 h1)
      as (Bi & Bh & Bv & Br & Bc & Bm).
    repeat split; apply getattr_get; rewrite G.
    + rewrite Hnone by auto. rewrite Bi. congruence.
    + rewrite Bv, Hiv. destruct vv; reflexivity.
    + rewrite Bm, Hmk. destruct vm; reflexivity.
    + rewrite Hnone by auto. exact Bh.
    + rewrite Hnone by auto. exact Br.
    + rewrite Hnone by auto. exact Bc.
  - apply (load_extensions_some_refused A H X Hfix rest).
    + apply loaded_base_allowed.
    + exact Hall.
Qed.

Lemma save_then_load_keeps_image_ivar_mask_witness :
  existsb (String.eqb "allowed_attributes")
          (PypeItImage.mask_attributes image_externals) = false /\
  PypeItImage.save_images image_externals image_object "out.fits" None None
    = Ok image_call /\
  PypeItImage.holds image_written image_call /\
  exists o',
    PypeItImage.load_images image_externals image_written = Ok o' /\
    PypeItImage.getattr o' "image" = Ok (PypeItImage.VArray 1) /\
    PypeItImage.getattr o' "ivar" = Ok (PypeItImage.VArray 2) /\
    PypeItImage.getattr o' "mask" = Ok (PypeItImage.VArray 3) /\
    PypeItImage.getattr o' "rn2img" = Ok PypeItImage.VNone.
Proof.
  assert (Hh : PypeItImage.holds image_written image_call).
  { eexists _, _, _. repeat split. }
  split; [reflexivity|]. split; [reflexivity|]. split; [exact Hh|].
  destruct (save_then_load_keeps_image_ivar_mask Z string image_externals
              image_object "out.fits" None None image_call image_written
              eq_refl eq_refl Hh)
    as (vi & vv & vm & h0 & Ei & Ev & Em & _ & R).
  injection Ei as <-. injection Ev as <-. injection Em as <-.
  destruct R as (o' & E & Gi & Gv & Gm & _ & Gr & _).
  exists o'. repeat split; assumption.
Defined.
